(** * ongrid: the grid entity model and its update pass

    A shallow embedding of [src/ongrid.ts]: the entity grid, the entity
    iterator, the rate rules, the cycle accumulator and the running total
    ([currentNumber]) of [gameUpdateAndRender], its render half, and the init
    block, the input handlers and the main loop of [main].

    Conventions of the embedding.
    - Grid coordinates, dimensions and storage indices are integers ([Z]);
      the source holds them in JS numbers, which are exact on integers of
      the sizes a grid can have.
    - Every other JS number (rates, cycle progress, times, pixel sizes, the
      running total) lives in a type [N] with the operations of the class
      [Number]; the instance is [float], IEEE 754 binary64, which is what
      the program computes with.  What holds for every instance of the class
      does not depend on the arithmetic; what depends on it is stated and
      proved on [float], from the specification of the operations in
      [SpecFloat].
    - An entity object living in [storage] is referred to by its index; a
      handle holds such a reference, so that writes through a handle are
      writes to the shared storage.
    - A dereference of [null] or [undefined] raises [TypeError]; a loop that
      is still running when the fuel is spent gives [OutOfFuel].
    - The field [pos] of a handle made by the iterator is the very object
      [iterPos]; the update pass reads it before the iterator moves on, so a
      handle holds the position as a value here.
    - [gameUpdateAndRender] is the update half of the function; the render
      half is [render], which gives the calls made to the canvas in their
      order, and [updateAndRender] is the two in sequence.  [Math.sin],
      [Math.cos] and [Math.PI] are parameters of the render half.
    - The browser is a sequence of events: the mouse events and the
      animation frames that the handlers and the main loop of [main] are
      called with. *)

From Stdlib Require Import PrimFloat String DecimalString.
From Stdlib Require FloatOps SpecFloat FloatAxioms.
From Stdlib Require Import ZArith List Bool Lia.
Import ListNotations.

#[local] Set Warnings "-inexact-float".
Local Open Scope Z_scope.

(** ** JS numbers *)

Class Number (N : Type) : Type := {
  num_of_Z : Z -> N;              (* an integer literal *)
  num_0_5 : N;                    (* the literal 0.5 *)
  num_0_8 : N;                    (* the literal 0.8 *)
  num_add : N -> N -> N;
  num_sub : N -> N -> N;
  num_mul : N -> N -> N;
  num_div : N -> N -> N;
  num_geb : N -> N -> bool;       (* a >= b *)
  num_floor : N -> option Z       (* Math.floor; no integer for NaN, +-Infinity *)
}.

Definition num_0 {N : Type} {num : Number N} : N := num_of_Z 0.
Definition num_1 {N : Type} {num : Number N} : N := num_of_Z 1.

Declare Scope num_scope.
Delimit Scope num_scope with num.
Infix "+" := num_add : num_scope.
Infix "-" := num_sub : num_scope.
Infix "*" := num_mul : num_scope.
Infix "/" := num_div : num_scope.
Infix ">=?" := num_geb (at level 70, no associativity) : num_scope.

(** [Math.floor] of a binary64 value, read off its sign, mantissa and
    exponent: [Z.shiftl] by a negative amount is the flooring shift right. *)
Definition float_floor (f : PrimFloat.float) : option Z :=
  match FloatOps.Prim2SF f with
  | SpecFloat.S754_zero _ => Some 0
  | SpecFloat.S754_finite s m e => Some (Z.shiftl (if s then Zneg m else Zpos m) e)
  | SpecFloat.S754_infinity _ => None
  | SpecFloat.S754_nan => None
  end.

(** An integer as a binary64 value: the nearest one, ties to even, an
    infinity from [2 ^ 1024] on. *)
Definition float_of_Z (z : Z) : PrimFloat.float :=
  FloatOps.SF2Prim (SpecFloat.binary_normalize FloatOps.prec FloatOps.emax z 0 false).

(** The numbers of the program: binary64 with the operations of IEEE 754,
    every comparison with NaN false. *)
#[export] Instance float_Number : Number PrimFloat.float := {
  num_of_Z := float_of_Z;
  num_0_5 := 0.5%float;
  num_0_8 := 0.8%float;
  num_add := PrimFloat.add;
  num_sub := PrimFloat.sub;
  num_mul := PrimFloat.mul;
  num_div := PrimFloat.div;
  num_geb := fun a b => PrimFloat.leb b a;
  num_floor := float_floor
}.

(** ** binary64

    What the properties of the arithmetic are stated with: the value of a
    number as an integer count of units of [2 ^ -1074]. *)

Module B64.
Import SpecFloat.

Definition prec : Z := FloatOps.prec.
Definition emax : Z := FloatOps.emax.

(** [2 ^ n], kept folded in the statements. *)
Definition pow2 (n : Z) : Z := 2 ^ n.
Arguments pow2 : simpl never.

(** The value of a binary64 number in units of [2 ^ -1074], the least
    positive value of the format; the infinities stand at [+- 2 ^ 2098],
    the least power of two above every finite value. *)
Definition ulps (f : spec_float) : Z :=
  match f with
  | S754_zero _ => 0
  | S754_finite s m e => cond_Zopp s (Zpos m * pow2 (e + 1074))
  | S754_infinity s => cond_Zopp s (pow2 2098)
  | S754_nan => 0
  end.

Definition isNaN (f : spec_float) : bool :=
  match f with
  | S754_nan => true
  | _ => false
  end.

(** The exponent, counted from [-1074], that a positive value of [v] units
    is rounded at. *)
Definition uexp (v : Z) : Z := Z.max (Z.log2 v - 52) 0.

(** [f] is a number of the format next to the exact value of [v] units:
    every number of the format on one side of [v] is on the same side of
    [f].  Rounding, in whatever mode, gives such a number. *)
Definition nextTo (v : Z) (f : spec_float) : Prop :=
  isNaN f = false
  /\ (forall g, valid_binary prec emax g = true -> isNaN g = false ->
      ulps g <= v -> ulps g <= ulps f)
  /\ (forall g, valid_binary prec emax g = true -> isNaN g = false ->
      v <= ulps g -> ulps f <= ulps g).

(** The value of a number of the program in units of [2 ^ -1074]. *)
Definition units (x : PrimFloat.float) : Z := ulps (FloatOps.Prim2SF x).

(** Zero or finite. *)
Definition isFinite (f : spec_float) : bool :=
  match f with
  | S754_zero _ => true
  | S754_finite _ _ _ => true
  | _ => false
  end.

End B64.

Import B64.

(** ** [Number::toString] on integers *)

(** The decimal digits of an integer that is not negative. *)
Definition decimalDigits (v : Z) : string := NilZero.string_of_uint (N.to_uint (Z.to_N v)).

Definition decimalLength (v : Z) : Z := Z.of_nat (String.length (decimalDigits v)).

(** The binary64 value nearest to an integer, ties to even: itself an
    integer, or an infinity ([None]). *)
Definition nearestNumber (z : Z) : option Z :=
  match SpecFloat.binary_normalize FloatOps.prec FloatOps.emax z 0 false with
  | SpecFloat.S754_zero _ => Some 0
  | SpecFloat.S754_finite s m e => Some (SpecFloat.cond_Zopp s (Z.shiftl (Zpos m) e))
  | SpecFloat.S754_infinity _ => None
  | SpecFloat.S754_nan => None
  end.

Definition roundsTo (v c : Z) : bool :=
  match nearestNumber c with
  | Some v' => v' =? v
  | None => false
  end.

(** The decimal of [k] significant digits that denotes the number [v] of
    [n] digits, if there is one: [v] cut to [k] digits or the next decimal
    up, the closer of the two, the even one when they are as close. *)
Definition decimalOf (v n k : Z) : option Z :=
  let unit := 10 ^ (n - k) in
  let lo := v / unit * unit in
  let hi := lo + unit in
  match roundsTo v lo, roundsTo v hi with
  | true, true =>
    Some (if v - lo <? hi - v then lo
          else if hi - v <? v - lo then hi
          else if Z.even (v / unit) then lo else hi)
  | true, false => Some lo
  | false, true => Some hi
  | false, false => None
  end.

(** The shortest decimal that denotes [v]: the least number of significant
    digits is tried first; 17 digits denote every number. *)
Fixpoint shortestFrom (tries : nat) (v n k : Z) : Z :=
  match tries with
  | O => v
  | S tries' =>
    if n <=? k then v
    else match decimalOf v n k with
         | Some c => c
         | None => shortestFrom tries' v n (k + 1)
         end
  end.

Definition shortestDecimal (v : Z) : Z := shortestFrom 17 v (decimalLength v) 1.

Fixpoint withoutTrailingZeros (tries : nat) (c : Z) : Z :=
  match tries with
  | O => c
  | S tries' => if (c =? 0) || negb (c mod 10 =? 0) then c
                else withoutTrailingZeros tries' (c / 10)
  end.

(** [d.ddd e+x], for a number of more than 21 digits. *)
Definition exponentForm (c : Z) : string :=
  let s := decimalDigits (withoutTrailingZeros (Z.to_nat (decimalLength c)) c) in
  let exponent := decimalDigits (decimalLength c - 1) in
  match s with
  | String d EmptyString => String d ("e+" ++ exponent)
  | String d rest => String d ("." ++ rest ++ "e+" ++ exponent)
  | EmptyString => EmptyString
  end.

(** The text of a number with an integer value, as a template literal
    gives it.  An integer that is not a binary64 value stands for the
    nearest one. *)
Definition numberToString (z : Z) : string :=
  match nearestNumber (Z.abs z) with
  | None => if z <? 0 then "-Infinity" else "Infinity"
  | Some v =>
    let c := shortestDecimal v in
    let text := if decimalLength c <=? 21 then decimalDigits c else exponentForm c in
    if z <? 0 then ("-" ++ text)%string else text
  end.

(** ** Data model *)

Record v2 (A : Type) : Type := mkV2 { x : A; y : A }.
Arguments mkV2 {A} _ _.
Arguments x {A} _.
Arguments y {A} _.

(** [enum EntityKind]: a numeric enum, a plain number at run time. *)
Module EntityKind.
Definition None : Z := 0.
Definition Generator : Z := 1.
Definition Motor : Z := 2.
Definition Producer : Z := 3.
End EntityKind.

Record Entity (N : Type) : Type := mkEntity {
  kind : Z;
  currentRate : N;
  cycleProgress : N
}.
Arguments mkEntity {N} _ _ _.
Arguments kind {N} _.
Arguments currentRate {N} _.
Arguments cycleProgress {N} _.

(** What the field [entity] of a handle can hold: [null], [undefined] (an
    index past the end of [storage]) or a reference to the entity object
    stored at an index. *)
Inductive EntityRef : Type :=
| null
| undefined
| ref (i : nat).

Record EntityHandle : Type := mkHandle {
  entity : EntityRef;
  index : Z;
  pos : v2 Z
}.

Module Cursor.
Record t (N : Type) : Type := mk { pos : v2 N; leftButtonDown : bool }.
Arguments mk {N} _ _.
Arguments pos {N} _.
Arguments leftButtonDown {N} _.
End Cursor.

Module Margins.
Record t (N : Type) : Type := mk { top : N; bottom : N; left : N; right : N }.
Arguments mk {N} _ _ _ _.
Arguments top {N} _.
Arguments bottom {N} _.
Arguments left {N} _.
Arguments right {N} _.
End Margins.

Record Entities (N : Type) : Type := mkEntities { storage : list (Entity N) }.
Arguments mkEntities {N} _.
Arguments storage {N} _.

Record GameState (N : Type) : Type := mkGameState {
  lastTimestamp : N;
  worldDim : v2 Z;
  cursor : Cursor.t N;
  entities : Entities N;
  referenceCycleDuration : N;
  cellDimPx : N;
  gridCellBorderWidthPx : N;
  worldMargins : Margins.t N;
  currentNumber : N
}.
Arguments mkGameState {N} _ _ _ _ _ _ _ _ _.
Arguments lastTimestamp {N} _.
Arguments worldDim {N} _.
Arguments cursor {N} _.
Arguments entities {N} _.
Arguments referenceCycleDuration {N} _.
Arguments cellDimPx {N} _.
Arguments gridCellBorderWidthPx {N} _.
Arguments worldMargins {N} _.
Arguments currentNumber {N} _.

(** The program state the update pass works on: the game state and the
    lines written by [console.error]. *)
Record World (N : Type) : Type := mkWorld {
  gameState : GameState N;
  console : list string
}.
Arguments mkWorld {N} _ _.
Arguments gameState {N} _.
Arguments console {N} _.

Inductive Outcome (A : Type) : Type :=
| Ok (a : A)
| TypeError
| OutOfFuel.
Arguments Ok {A} _.
Arguments TypeError {A}.
Arguments OutOfFuel {A}.

Definition bind {A B : Type} (m : Outcome A) (k : A -> Outcome B) : Outcome B :=
  match m with
  | Ok a => k a
  | TypeError => TypeError
  | OutOfFuel => OutOfFuel
  end.

(** ** Storage access *)

Fixpoint updateAt {A : Type} (i : nat) (f : A -> A) (l : list A) : list A :=
  match l, i with
  | [], _ => []
  | a :: l', O => f a :: l'
  | a :: l', S i' => a :: updateAt i' f l'
  end.

(** ** The order of traversal *)

(** [zrange a n] is [a; a+1; ...; a+n-1]. *)
Fixpoint zrange (a : Z) (n : nat) : list Z :=
  match n with
  | O => []
  | S n' => a :: zrange (a + 1) n'
  end.

(** What an iterator standing on column [cx] of row [cy] still has to
    yield: the rest of its row, then every later row.  A later row is
    entered at column 0 without a test against the width. *)
Definition rowTail (w cy cx : Z) : list (v2 Z) :=
  map (fun x' => mkV2 x' cy) (zrange (cx + 1) (Z.to_nat (w - (cx + 1)))).

Definition rowsAfter (w h cy : Z) : list (v2 Z) :=
  flat_map (fun y' => mkV2 0 y' :: rowTail w y' 0)
           (zrange (cy + 1) (Z.to_nat (h - (cy + 1)))).

Definition pending (dim : v2 Z) (p : v2 Z) : list (v2 Z) :=
  (rowTail (x dim) (y p) (x p) ++ rowsAfter (x dim) (y dim) (y p))%list.

(** Row-major order in the words of the specification: [x] from 0 to
    [width - 1] fastest-varying, then [y] from 0 to [height - 1]. *)
Definition rowMajor (width height : Z) : list (v2 Z) :=
  flat_map (fun y' => map (fun x' => mkV2 x' y') (zrange 0 (Z.to_nat width)))
           (zrange 0 (Z.to_nat height)).

Fixpoint foldOutcome {St A : Type} (f : St -> A -> Outcome St) (l : list A) (s : St)
    : Outcome St :=
  match l with
  | [] => Ok s
  | a :: l' =>
    match f s a with
    | Ok s1 => foldOutcome f l' s1
    | TypeError => TypeError
    | OutOfFuel => OutOfFuel
    end
  end.

Section Model.
Context {N : Type} {num : Number N}.

(** [storage[index]] *)
Definition storageAt (gs : GameState N) (idx : Z) : EntityRef :=
  if (idx <? 0) then undefined
  else match nth_error (storage (entities gs)) (Z.to_nat idx) with
       | Some _ => ref (Z.to_nat idx)
       | None => undefined
       end.

(** Reading through a reference; [None] stands for the [TypeError] of a
    property access on [null] or [undefined]. *)
Definition deref (gs : GameState N) (r : EntityRef) : option (Entity N) :=
  match r with
  | ref i => nth_error (storage (entities gs)) i
  | null => None
  | undefined => None
  end.

Definition withStorage (gs : GameState N) (st : list (Entity N)) : GameState N :=
  mkGameState (lastTimestamp gs) (worldDim gs) (cursor gs) (mkEntities st)
    (referenceCycleDuration gs) (cellDimPx gs) (gridCellBorderWidthPx gs)
    (worldMargins gs) (currentNumber gs).

Definition withCurrentNumber (gs : GameState N) (n : N) : GameState N :=
  mkGameState (lastTimestamp gs) (worldDim gs) (cursor gs) (entities gs)
    (referenceCycleDuration gs) (cellDimPx gs) (gridCellBorderWidthPx gs)
    (worldMargins gs) n.

(** [entity.currentRate = r], [entity.cycleProgress = c] and
    [entity.kind = k] on the entity object stored at index [i]. *)
Definition setCurrentRate (gs : GameState N) (i : nat) (r : N) : GameState N :=
  withStorage gs
    (updateAt i (fun e => mkEntity (kind e) r (cycleProgress e)) (storage (entities gs))).

Definition setCycleProgress (gs : GameState N) (i : nat) (c : N) : GameState N :=
  withStorage gs
    (updateAt i (fun e => mkEntity (kind e) (currentRate e) c) (storage (entities gs))).

Definition setKind (gs : GameState N) (i : nat) (k : Z) : GameState N :=
  withStorage gs
    (updateAt i (fun e => mkEntity k (currentRate e) (cycleProgress e)) (storage (entities gs))).

(** ** GridModel *)

Definition posIsInBounds (p bounds : v2 Z) : bool :=
  (x p >=? 0) && (x p <? x bounds) && (y p >=? 0) && (y p <? y bounds).

Definition getEntityHandleAtPos (gs : GameState N) (p : v2 Z) : EntityHandle :=
  if posIsInBounds p (worldDim gs) then
    let idx := y p * x (worldDim gs) + x p in
    mkHandle (storageAt gs idx) idx p
  else mkHandle null 0 (mkV2 0 0).

(** ** RatePropagationRule *)

Definition startWorkingConditionally (gs : GameState N) (h : EntityHandle)
    (condition : Z) (efficiency : N) : Outcome (GameState N) :=
  match entity h with
  | null => Ok gs
  | undefined => TypeError
  | ref i =>
    let gs1 := setCurrentRate gs i num_0 in
    let entityOnLeftHandle :=
      getEntityHandleAtPos gs1 (mkV2 (x (pos h) - 1) (y (pos h))) in
    match entity entityOnLeftHandle with
    | null => Ok gs1
    | undefined => TypeError
    | ref j =>
      match deref gs1 (ref j) with
      | None => TypeError
      | Some l =>
        if kind l =? condition
        then Ok (setCurrentRate gs1 i (currentRate l * efficiency)%num)
        else Ok gs1
      end
    end
  end.

(** ** EntitySequencer *)

(** The iterator's field [gameState] is a reference to the one game state;
    here the functions on an iterator take the current game state as an
    argument instead. *)
Record EntityIterator : Type := mkIterator {
  handle : option EntityHandle;
  iterPos : v2 Z;
  done : bool
}.

Definition beginEntityIteration : EntityIterator :=
  mkIterator None (mkV2 (-1) 0) false.

Definition nextEntity (gs : GameState N) (it : EntityIterator) : EntityIterator :=
  if done it then it
  else
    let x1 := x (iterPos it) + 1 in
    let it1 :=
      if x1 >=? x (worldDim gs) then
        let y1 := y (iterPos it) + 1 in
        if y1 >=? y (worldDim gs)
        then mkIterator None (mkV2 0 y1) true
        else mkIterator (handle it) (mkV2 0 y1) false
      else mkIterator (handle it) (mkV2 x1 (y (iterPos it))) false in
    if done it1 then it1
    else mkIterator (Some (getEntityHandleAtPos gs (iterPos it1))) (iterPos it1) false.

(** [iterator.handle?.entity?.kind === EntityKind.None] *)
Definition handleKindIsNone (gs : GameState N) (h : option EntityHandle) : bool :=
  match h with
  | None => false
  | Some hd =>
    match deref gs (entity hd) with
    | Some e => kind e =? EntityKind.None
    | None => false
    end
  end.

Fixpoint nextNonNullEntity (fuel : nat) (gs : GameState N) (it : EntityIterator)
    : option EntityIterator :=
  match fuel with
  | O => None
  | S fuel' =>
    let it1 := nextEntity gs it in
    if negb (done it1) && handleKindIsNone gs (handle it1)
    then nextNonNullEntity fuel' gs it1
    else Some it1
  end.

(** The loop header shared by the update and the render pass,
    [for (const it = next(begin(gs)); !it.done; next(it)) body], over a
    state [St] that contains the game state. *)
Section ForLoop.
Context {St : Type}.
Variable next : nat -> GameState N -> EntityIterator -> option EntityIterator.
Variable view : St -> GameState N.
Variable body : St -> EntityIterator -> Outcome St.

Fixpoint forEntitiesFrom (fuel : nat) (s : St) (it : EntityIterator) : Outcome St :=
  match fuel with
  | O => OutOfFuel
  | S fuel' =>
    if done it then Ok s
    else match body s it with
         | Ok s1 =>
           match next fuel' (view s1) it with
           | Some it1 => forEntitiesFrom fuel' s1 it1
           | None => OutOfFuel
           end
         | TypeError => TypeError
         | OutOfFuel => OutOfFuel
         end
  end.

Definition forEntities (fuel : nat) (s : St) : Outcome St :=
  match next fuel (view s) beginEntityIteration with
  | Some it => forEntitiesFrom fuel s it
  | None => OutOfFuel
  end.
End ForLoop.

(** Running an iterator to completion, collecting the handles it yields. *)
Definition collectBody (s : GameState N * list EntityHandle) (it : EntityIterator)
    : Outcome (GameState N * list EntityHandle) :=
  match handle it with
  | Some h => Ok (fst s, (snd s ++ [h])%list)
  | None => TypeError
  end.

Definition allEntities (fuel : nat) (gs : GameState N) : Outcome (list EntityHandle) :=
  bind (forEntities (fun _ g it => Some (nextEntity g it)) fst collectBody fuel (gs, []))
       (fun s => Ok (snd s)).

Definition nonNullEntities (fuel : nat) (gs : GameState N) : Outcome (list EntityHandle) :=
  bind (forEntities nextNonNullEntity fst collectBody fuel (gs, []))
       (fun s => Ok (snd s)).

(** ** The update pass of [gameUpdateAndRender] *)

(** [while (entity.cycleProgress >= 1) entity.cycleProgress -= 1] *)
Fixpoint wrapCycleProgress (fuel : nat) (c : N) : option N :=
  match fuel with
  | O => None
  | S fuel' =>
    if (c >=? num_1)%num then wrapCycleProgress fuel' (c - num_1)%num else Some c
  end.

Definition floorIs (v : N) (z : Z) : bool :=
  match num_floor v with
  | Some f => f =? z
  | None => false
  end.

Definition isCursorOver (gs : GameState N) (p : v2 Z) : bool :=
  let isCursorOverX :=
    floorIs ((x (Cursor.pos (cursor gs)) - Margins.left (worldMargins gs)) / cellDimPx gs)%num
            (x p) in
  let isCursorOverY :=
    floorIs ((y (Cursor.pos (cursor gs)) - Margins.top (worldMargins gs)) / cellDimPx gs)%num
            (y p) in
  isCursorOverX && isCursorOverY.

(** [`unknown entity type: '${entity.kind}'`] *)
Definition unknownEntityMessage (k : Z) : string :=
  ("unknown entity type: '" ++ numberToString k ++ "'")%string.

(** The [switch (entity.kind)] of the update pass. *)
Definition updateRate (dt : N) (w : World N) (h : EntityHandle) (i : nat)
    (e : Entity N) : Outcome (World N) :=
  let gs := gameState w in
  if kind e =? EntityKind.Producer then
    match startWorkingConditionally gs h EntityKind.Motor num_0_8 with
    | Ok gs1 =>
      match deref gs1 (ref i) with
      | Some e1 =>
        Ok (mkWorld
              (withCurrentNumber gs1
                 (currentNumber gs1
                  + currentRate e1 * dt / referenceCycleDuration gs1)%num)
              (console w))
      | None => TypeError
      end
    | TypeError => TypeError
    | OutOfFuel => OutOfFuel
    end
  else if kind e =? EntityKind.Motor then
    match startWorkingConditionally gs h EntityKind.Generator num_0_5 with
    | Ok gs1 => Ok (mkWorld gs1 (console w))
    | TypeError => TypeError
    | OutOfFuel => OutOfFuel
    end
  else if kind e =? EntityKind.Generator then
    Ok (mkWorld
          (setCurrentRate gs i
             (if isCursorOver gs (pos h) && Cursor.leftButtonDown (cursor gs)
              then num_1 else num_0))
          (console w))
  else Ok (mkWorld gs (console w ++ [unknownEntityMessage (kind e)])%list).

(** The body of the update loop for the entity the iterator stands on. *)
Definition updateEntity (wrapFuel : nat) (dt : N) (w : World N) (it : EntityIterator)
    : Outcome (World N) :=
  match handle it with
  | None => TypeError
  | Some h =>
    match entity h with
    | ref i =>
      match deref (gameState w) (ref i) with
      | None => TypeError
      | Some e =>
        match updateRate dt w h i e with
        | Ok w1 =>
          match deref (gameState w1) (ref i) with
          | None => TypeError
          | Some e1 =>
            match wrapCycleProgress wrapFuel (cycleProgress e1) with
            | None => OutOfFuel
            | Some c =>
              Ok (mkWorld
                    (setCycleProgress (gameState w1) i
                       (c + dt / referenceCycleDuration (gameState w1) * currentRate e1)%num)
                    (console w1))
            end
          end
        | TypeError => TypeError
        | OutOfFuel => OutOfFuel
        end
      end
    | null => TypeError
    | undefined => TypeError
    end
  end.

(** The update half of [gameUpdateAndRender]; the render half only reads
    the state.  [fuel] bounds the steps of the iterator, [wrapFuel] the
    iterations of each wrap loop. *)
Definition updateEntities (fuel wrapFuel : nat) (dt : N) (w : World N) : Outcome (World N) :=
  forEntities nextNonNullEntity gameState (updateEntity wrapFuel dt) fuel w.

Definition gameUpdateAndRender (fuel : nat) (w : World N) (deltaTime : N) : Outcome (World N) :=
  updateEntities fuel fuel deltaTime w.

(** ** The init block of [main] *)

Definition blankEntity : Entity N := mkEntity EntityKind.None num_0 num_0.

(** [const handle = getEntityHandleAtPos(gameState, p);
     if (handle?.entity !== null) handle.entity.kind = k] *)
Definition placeEntity (gs : GameState N) (p : v2 Z) (k : Z) : Outcome (GameState N) :=
  match entity (getEntityHandleAtPos gs p) with
  | null => Ok gs
  | undefined => TypeError
  | ref i => Ok (setKind gs i k)
  end.

(** The literal that [main] starts from, as a function of the three
    configuration constants [worldDim.x], [worldDim.y] and
    [referenceCycleDuration], and the literal itself. *)
Definition configured (width height : Z) (cycleDuration : N) : GameState N :=
  mkGameState num_0 (mkV2 width height) (Cursor.mk (mkV2 num_0 num_0) false)
    (mkEntities []) cycleDuration (num_of_Z 50) num_1
    (Margins.mk (num_of_Z 20) (num_of_Z 30) (num_of_Z 40) (num_of_Z 50)) num_0.

Definition initialGameState : GameState N := configured 10 10 (num_of_Z 1000).

Definition initEntities (gs : GameState N) : Outcome (GameState N) :=
  let entityCount := x (worldDim gs) * y (worldDim gs) in
  let gs0 :=
    withStorage gs (storage (entities gs) ++ repeat blankEntity (Z.to_nat entityCount)) in
  bind (placeEntity gs0 (mkV2 0 5) EntityKind.Generator) (fun gs1 =>
  bind (placeEntity gs1 (mkV2 1 5) EntityKind.Motor) (fun gs2 =>
  placeEntity gs2 (mkV2 2 5) EntityKind.Producer)).

(** The state [main] hands to the main loop. *)
Definition main : Outcome (GameState N) := initEntities initialGameState.

(** The input handlers that [main] installs. *)
Definition onMouseMove (gs : GameState N) (cursorXPx cursorYPx : N) : GameState N :=
  mkGameState (lastTimestamp gs) (worldDim gs)
    (Cursor.mk (mkV2 cursorXPx cursorYPx) (Cursor.leftButtonDown (cursor gs)))
    (entities gs) (referenceCycleDuration gs) (cellDimPx gs) (gridCellBorderWidthPx gs)
    (worldMargins gs) (currentNumber gs).

Definition setLeftButtonDown (gs : GameState N) (b : bool) : GameState N :=
  mkGameState (lastTimestamp gs) (worldDim gs)
    (Cursor.mk (Cursor.pos (cursor gs)) b)
    (entities gs) (referenceCycleDuration gs) (cellDimPx gs) (gridCellBorderWidthPx gs)
    (worldMargins gs) (currentNumber gs).

Definition onMouseDown (gs : GameState N) (button : Z) : GameState N :=
  if button =? 0 then setLeftButtonDown gs true else gs.

Definition onMouseUp (gs : GameState N) (button : Z) : GameState N :=
  if button =? 0 then setLeftButtonDown gs false else gs.

(** ** Vocabulary of the properties *)

(** The iterator standing on position [p]. *)
Definition iteratorAt (gs : GameState N) (p : v2 Z) : EntityIterator :=
  mkIterator (Some (getEntityHandleAtPos gs p)) p false.

(** Two game states with the same dimensions and the same kind in every
    cell: what the iterator sees does not tell them apart. *)
Definition sameGrid (gs gs' : GameState N) : Prop :=
  worldDim gs' = worldDim gs /\
  map kind (storage (entities gs')) = map kind (storage (entities gs)).

(** The positions the filtered iterator stops at. *)
Definition isNonNull (gs : GameState N) (p : v2 Z) : bool :=
  negb (handleKindIsNone gs (Some (getEntityHandleAtPos gs p))).

(** The filter in the words of the specification: the entity stored for
    the cell at [p], at the index [y * width + x], has kind [None]. *)
Definition storedKindIsNone (gs : GameState N) (p : v2 Z) : bool :=
  match nth_error (storage (entities gs)) (Z.to_nat (y p * x (worldDim gs) + x p)) with
  | Some e => kind e =? EntityKind.None
  | None => false
  end.

(** [it'] is where a step of an iterator that skips the positions outside
    [keep] takes [it]. *)
Definition yieldsNext (keep : v2 Z -> bool) (gs : GameState N)
    (it it' : EntityIterator) : Prop :=
  let l := pending (worldDim gs) (iterPos it) in
  (done it' = true /\ filter keep l = []) \/
  (exists p, it' = iteratorAt gs p /\
             filter keep l = p :: filter keep (pending (worldDim gs) p) /\
             (length (pending (worldDim gs) p) < length l)%nat).

(** The loop body run on the entity at position [p], and the positions a
    loop that skips the positions outside [keep] visits after [p]. *)
Definition bodyAt {St : Type} (view : St -> GameState N)
    (body : St -> EntityIterator -> Outcome St) (s : St) (p : v2 Z) : Outcome St :=
  body s (iteratorAt (view s) p).

Definition visited (keep : GameState N -> v2 Z -> bool) (gs : GameState N) (p : v2 Z)
    : list (v2 Z) :=
  filter (keep gs) (pending (worldDim gs) p).

(** [resolve(pos)] of the specification: the entity at [p], or absent. *)
Definition entityAt (gs : GameState N) (p : v2 Z) : option (Entity N) :=
  deref gs (entity (getEntityHandleAtPos gs p)).

Definition inBounds (gs : GameState N) (p : v2 Z) : Prop :=
  0 <= x p < x (worldDim gs) /\ 0 <= y p < y (worldDim gs).

(** A grid: a dense array of [width * height] entities. *)
Definition isGrid (gs : GameState N) : Prop :=
  length (storage (entities gs)) = Z.to_nat (x (worldDim gs) * y (worldDim gs)).

(** The index of the cell at [p]. *)
Definition cellIndex (gs : GameState N) (p : v2 Z) : nat :=
  Z.to_nat (y p * x (worldDim gs) + x p).

(** The rate rules in the words of the specification (the table of 4.3):
    the rate of the entity [e] at [p], from the state [gs] it is computed in. *)
Definition leftRate (gs : GameState N) (p : v2 Z) (condition : Z) (efficiency : N) : N :=
  match entityAt gs (mkV2 (x p - 1) (y p)) with
  | Some l => if kind l =? condition then (currentRate l * efficiency)%num else num_0
  | None => num_0
  end.

Definition generatorActive (gs : GameState N) (p : v2 Z) : bool :=
  isCursorOver gs p && Cursor.leftButtonDown (cursor gs).

Definition isKnownKind (k : Z) : bool :=
  (k =? EntityKind.Producer) || (k =? EntityKind.Motor) || (k =? EntityKind.Generator).

Definition ruleRate (gs : GameState N) (p : v2 Z) (e : Entity N) : N :=
  if kind e =? EntityKind.Producer then leftRate gs p EntityKind.Motor num_0_8
  else if kind e =? EntityKind.Motor then leftRate gs p EntityKind.Generator num_0_5
  else if kind e =? EntityKind.Generator
       then (if generatorActive gs p then num_1 else num_0)
       else currentRate e.

(** The world after the update of the entity [e] stored at index [i], with
    its new rate [r] and its wrapped cycle progress [c]. *)
Definition worldAfter (dt : N) (w : World N) (i : nat) (e : Entity N) (r c : N)
    : World N :=
  let gs := gameState w in
  mkWorld
    (mkGameState (lastTimestamp gs) (worldDim gs) (cursor gs)
       (mkEntities
          (updateAt i
             (fun _ => mkEntity (kind e) r (c + dt / referenceCycleDuration gs * r)%num)
             (storage (entities gs))))
       (referenceCycleDuration gs) (cellDimPx gs) (gridCellBorderWidthPx gs)
       (worldMargins gs)
       (if kind e =? EntityKind.Producer
        then (currentNumber gs + r * dt / referenceCycleDuration gs)%num
        else currentNumber gs))
    (if isKnownKind (kind e) then console w
     else (console w ++ [unknownEntityMessage (kind e)])%list).

(** The update of one entity, in closed form. *)
Definition entityStep (wrapFuel : nat) (dt : N) (w : World N) (p : v2 Z)
    : Outcome (World N) :=
  match nth_error (storage (entities (gameState w))) (cellIndex (gameState w) p) with
  | Some e =>
    match wrapCycleProgress wrapFuel (cycleProgress e) with
    | Some c =>
      Ok (worldAfter dt w (cellIndex (gameState w) p) e (ruleRate (gameState w) p e) c)
    | None => OutOfFuel
    end
  | None => TypeError
  end.

(** What the update pass never writes. *)
Definition configOf (gs : GameState N)
    : N * v2 Z * Cursor.t N * N * N * N * Margins.t N :=
  (lastTimestamp gs, worldDim gs, cursor gs, referenceCycleDuration gs,
   cellDimPx gs, gridCellBorderWidthPx gs, worldMargins gs).

(** The positions the update pass visits, in the order it visits them. *)
Definition occupiedPositions (gs : GameState N) : list (v2 Z) :=
  visited isNonNull gs (iterPos beginEntityIteration).

(** [gs'] differs from [gs] at most in the entity stored at index [i] and
    in the running total. *)
Definition writesOnly (i : nat) (gs gs' : GameState N) : Prop :=
  configOf gs' = configOf gs /\
  forall j, j <> i ->
    nth_error (storage (entities gs')) j = nth_error (storage (entities gs)) j.

(** The kind and the rate of the entity at a position. *)
Definition kindAt (gs : GameState N) (p : v2 Z) : option Z :=
  option_map kind (entityAt gs p).

Definition rateAt (gs : GameState N) (p : v2 Z) : N :=
  match entityAt gs p with
  | Some e => currentRate e
  | None => num_0
  end.

Definition isProducerAt (gs : GameState N) (p : v2 Z) : bool :=
  match kindAt gs p with
  | Some k => k =? EntityKind.Producer
  | None => false
  end.

(** The Producers, in the order of the pass. *)
Definition producers (gs : GameState N) : list (v2 Z) :=
  filter (isProducerAt gs) (occupiedPositions gs).

(** What a pass over the positions [l] writes to the console. *)
Definition diagnostic (gs : GameState N) (p : v2 Z) : list string :=
  match kindAt gs p with
  | Some k => if isKnownKind k then [] else [unknownEntityMessage k]
  | None => []
  end.

Definition diagnostics (gs : GameState N) (l : list (v2 Z)) : list string :=
  flat_map (diagnostic gs) l.

(** ** States to run the program on *)

(** The state after the init block of [main]. *)
Definition mainState : GameState N :=
  match main with
  | Ok gs => gs
  | TypeError => initialGameState
  | OutOfFuel => initialGameState
  end.

(** The same with the pointer over the Generator at [(0, 5)], the cell that
    covers the pixels from [(40, 270)] to [(90, 320)], and the left button
    held. *)
Definition heldOverGenerator : GameState N :=
  onMouseDown (onMouseMove mainState (num_of_Z 50) (num_of_Z 280)) 0.

End Model.

(** ** Worlds to run the program on *)

(** The world [main] builds, with the pointer held over the Generator, and
    the tick of 500 ms run on it. *)
Definition heldWorld : World float := mkWorld heldOverGenerator [].

Definition worldOf {N : Type} (w : World N) (o : Outcome (World N)) : World N :=
  match o with
  | Ok w' => w'
  | TypeError => w
  | OutOfFuel => w
  end.

Definition heldWorldAfter : World float :=
  Eval vm_compute in worldOf heldWorld (gameUpdateAndRender 200 heldWorld 500%float).

(** A grid of three cells in a row: an entity of the unknown kind 7, a
    Generator and a Motor. *)
Definition oddWorld : World float :=
  mkWorld
    (mkGameState 0%float (mkV2 3 1) (Cursor.mk (mkV2 0%float 0%float) false)
       (mkEntities [mkEntity 7 0.25%float 0%float;
                    mkEntity EntityKind.Generator 0%float 0%float;
                    mkEntity EntityKind.Motor 0%float 0%float])
       1000%float 50%float 1%float (Margins.mk 20 30 40 50)%float 0%float)
    [].

(** A row of a Generator, a Motor and a Producer, the last two with rates
    left from an earlier tick, and the pointer away from the grid. *)
Definition staleWorld : World float :=
  mkWorld
    (mkGameState 0%float (mkV2 3 1) (Cursor.mk (mkV2 0%float 0%float) false)
       (mkEntities [mkEntity EntityKind.Generator 0%float 0%float;
                    mkEntity EntityKind.Motor 0.9%float 0%float;
                    mkEntity EntityKind.Producer 0.7%float 0%float])
       1000%float 50%float 1%float (Margins.mk 20 30 40 50)%float 0%float)
    [].

Definition oddWorldAfter : World float :=
  Eval vm_compute in worldOf oddWorld (gameUpdateAndRender 10 oddWorld 16%float).

(** 2^54, a binary64 value that subtracting 1 leaves as it is. *)
Definition twoTo54 : float := 18014398509481984%float.

(** [2 ^ 53 + 4], the least binary64 value from which subtracting 1 does not
    lead below: [2 ^ 53 + 3] is half way between the two numbers of the format
    next to it and goes to the even one, [2 ^ 53 + 4]. *)
Definition wrapLimit : float := 9007199254740996%float.

(** The world of [main] with the cycle progress of the Generator at 2^54. *)
Definition stuckWorld : World float :=
  mkWorld (setCycleProgress mainState 50 twoTo54) [].

(** The world of [main] with the cycle progress of the Generator at
    [2 ^ 53 + 4], and with it at [2 ^ 53 + 2]. *)
Definition limitWorld : World float :=
  mkWorld (setCycleProgress mainState 50 wrapLimit) [].

Definition belowLimitWorld : World float :=
  mkWorld (setCycleProgress mainState 50 9007199254740994%float) [].

(** The world of [main], nothing at work, with the cycle progress 2.5 in
    the Generator, 3 in the Motor and 0.75 in the Producer, and the tick of
    500 ms run on it. *)
Definition wrapWorld : World float :=
  mkWorld
    (setCycleProgress
       (setCycleProgress (setCycleProgress mainState 50 2.5%float) 51 3%float)
       52 0.75%float)
    [].

Definition wrapWorldAfter : World float :=
  Eval vm_compute in worldOf wrapWorld (gameUpdateAndRender 200 wrapWorld 500%float).

(** ** More vocabulary *)

(** What the Generator rule reads of the game state. *)
Definition sameInput {N : Type} (gs gs' : GameState N) : Prop :=
  cursor gs' = cursor gs /\ cellDimPx gs' = cellDimPx gs /\
  worldMargins gs' = worldMargins gs.

(** The kind the init block of [main] gives the cell at [p]. *)
Definition initialKindAt (p : v2 Z) : Z :=
  if (x p =? 0) && (y p =? 5) then EntityKind.Generator
  else if (x p =? 1) && (y p =? 5) then EntityKind.Motor
  else if (x p =? 2) && (y p =? 5) then EntityKind.Producer
  else EntityKind.None.

(** ** More worlds to run the program on *)

(** Two rows of two cells: an empty cell and a Generator, then a Motor and
    a Producer that come with the rates 0.5 and 0.4, and the pointer held
    over the Generator. *)
Definition twoRowsWorld : World float :=
  mkWorld
    (mkGameState 0%float (mkV2 2 2) (Cursor.mk (mkV2 100%float 30%float) true)
       (mkEntities [mkEntity EntityKind.None 0%float 0%float;
                    mkEntity EntityKind.Generator 0%float 0%float;
                    mkEntity EntityKind.Motor 0.5%float 0%float;
                    mkEntity EntityKind.Producer 0.4%float 0%float])
       1000%float 50%float 1%float (Margins.mk 20 30 40 50)%float 0%float)
    [].

Definition twoRowsWorldAfter : World float :=
  Eval vm_compute in worldOf twoRowsWorld (gameUpdateAndRender 10 twoRowsWorld 16%float).

(** The tick of 500 ms that follows the release of the button on
    [heldWorldAfter]. *)
Definition releasedWorldAfter : World float :=
  Eval vm_compute in
    worldOf heldWorldAfter
      (gameUpdateAndRender 200 (mkWorld (onMouseUp (gameState heldWorldAfter) 0) [])
         500%float).

(** A second tick, of 250 ms, on [heldWorldAfter]. *)
Definition heldWorldAfter2 : World float :=
  Eval vm_compute in worldOf heldWorldAfter (gameUpdateAndRender 200 heldWorldAfter 250%float).

(** A storage of three entities under the dimensions 3 by 0. *)
Definition flatWorld : World float :=
  mkWorld
    (mkGameState 0%float (mkV2 3 0) (Cursor.mk (mkV2 0%float 0%float) false)
       (mkEntities [mkEntity EntityKind.Generator 0%float 0%float;
                    mkEntity EntityKind.Motor 0%float 0%float;
                    mkEntity EntityKind.Producer 0%float 0%float])
       1000%float 50%float 1%float (Margins.mk 20 30 40 50)%float 0%float)
    [].

(** ** The render half of [gameUpdateAndRender] *)

(** What the render half does to the canvas, call by call, in the order of
    the calls.  The canvas element and its 2d context are taken to exist.  A
    number that the source turns into a string with a template literal is
    kept as the number: the attribute value of [setAttribute], the size of a
    font, the text [`${Math.floor(v)}`] (no integer for NaN and the
    infinities). *)
Inductive CanvasCall (N : Type) : Type :=
| SetAttribute (name : string) (value : N)
| SetFillStyle (style : string)
| SetTextAlign (align : string)
| SetTextBaseline (baseline : string)
| SetFont (sizePx : N) (family : string)
| FillRect (left top width height : N)
| FillText (text : string) (left top : N)
| FillNumber (floored : option Z) (left top : N).
Arguments SetAttribute {N} _ _.
Arguments SetFillStyle {N} _.
Arguments SetTextAlign {N} _.
Arguments SetTextBaseline {N} _.
Arguments SetFont {N} _ _.
Arguments FillRect {N} _ _ _ _.
Arguments FillText {N} _ _ _.
Arguments FillNumber {N} _ _ _.

(** [for (let current = from; current <= to; current += step) body(current)]:
    the values of [current] that the body runs on. *)
Fixpoint forNumbers {N : Type} {num : Number N} (fuel : nat) (current to step : N)
    : option (list N) :=
  match fuel with
  | O => None
  | S fuel' =>
    if (to >=? current)%num
    then option_map (cons current) (forNumbers fuel' (current + step)%num to step)
    else Some []
  end.

Section Render.
Context {N : Type} {num : Number N}.

(** [Math.sin], [Math.cos] and [Math.PI]. *)
Variables (sin cos : N -> N) (PI : N).

Definition worldDimXPx (gs : GameState N) : N :=
  (num_of_Z (x (worldDim gs)) * cellDimPx gs)%num.

Definition worldDimYPx (gs : GameState N) : N :=
  (num_of_Z (y (worldDim gs)) * cellDimPx gs)%num.

Definition canvasTotalHeightPx (gs : GameState N) : N :=
  (worldDimYPx gs + Margins.top (worldMargins gs) + Margins.bottom (worldMargins gs))%num.

Definition canvasTotalWidthPx (gs : GameState N) : N :=
  (worldDimXPx gs + Margins.left (worldMargins gs) + Margins.right (worldMargins gs))%num.

Definition worldDimLeftPx (gs : GameState N) : N := Margins.left (worldMargins gs).
Definition worldDimTopPx (gs : GameState N) : N := Margins.top (worldMargins gs).
Definition worldDimRightPx (gs : GameState N) : N := (worldDimLeftPx gs + worldDimXPx gs)%num.
Definition worldDimBottomPx (gs : GameState N) : N := (worldDimTopPx gs + worldDimYPx gs)%num.

(** The canvas size and the "Clear" block. *)
Definition renderClear (gs : GameState N) : list (CanvasCall N) :=
  [SetAttribute "width" (canvasTotalWidthPx gs);
   SetAttribute "height" (canvasTotalHeightPx gs);
   SetFillStyle "black";
   FillRect num_0 num_0 (canvasTotalWidthPx gs) (canvasTotalHeightPx gs)].

(** The "Grid" block: the vertical lines, then the horizontal ones. *)
Definition verticalLine (gs : GameState N) (currentXPx : N) : CanvasCall N :=
  FillRect (currentXPx - gridCellBorderWidthPx gs)%num (worldDimTopPx gs)
           (gridCellBorderWidthPx gs * num_of_Z 2)%num (worldDimYPx gs).

Definition horizontalLine (gs : GameState N) (currentYPx : N) : CanvasCall N :=
  FillRect (worldDimLeftPx gs) (currentYPx - gridCellBorderWidthPx gs)%num
           (worldDimXPx gs) (gridCellBorderWidthPx gs * num_of_Z 2)%num.

Definition renderGrid (fuel : nat) (gs : GameState N) : option (list (CanvasCall N)) :=
  match forNumbers fuel (worldDimLeftPx gs) (worldDimRightPx gs) (cellDimPx gs) with
  | None => None
  | Some xs =>
    match forNumbers fuel (worldDimTopPx gs) (worldDimBottomPx gs) (cellDimPx gs) with
    | None => None
    | Some ys =>
      Some (SetFillStyle "gray" :: map (verticalLine gs) xs ++ map (horizontalLine gs) ys)%list
    end
  end.

(** The "Margins" block. *)
Definition renderMargins (gs : GameState N) : list (CanvasCall N) :=
  [SetFillStyle "#222222";
   FillRect num_0 num_0 (canvasTotalWidthPx gs) (Margins.top (worldMargins gs));
   FillRect num_0 (worldDimBottomPx gs) (canvasTotalWidthPx gs)
            (Margins.bottom (worldMargins gs));
   FillRect num_0 num_0 (Margins.left (worldMargins gs)) (canvasTotalHeightPx gs);
   FillRect (worldDimRightPx gs) num_0 (Margins.right (worldMargins gs))
            (canvasTotalHeightPx gs)].

(** The "Number" block. *)
Definition renderNumber (gs : GameState N) : list (CanvasCall N) :=
  let topMarginCenterXPx :=
    (Margins.left (worldMargins gs) + worldDimXPx gs / num_of_Z 2)%num in
  [SetFillStyle "white";
   SetTextAlign "center";
   SetTextBaseline "middle";
   SetFont (Margins.top (worldMargins gs)) "monospace";
   FillNumber (num_floor (currentNumber gs)) topMarginCenterXPx
              (Margins.top (worldMargins gs) / num_of_Z 2)%num].

(** The square that the render pass fills for the cell at [pos]. *)
Definition cellLeftPx (gs : GameState N) (pos : v2 Z) : N :=
  (worldDimLeftPx gs + num_of_Z (x pos) * cellDimPx gs + gridCellBorderWidthPx gs)%num.

Definition cellTopPx (gs : GameState N) (pos : v2 Z) : N :=
  (worldDimTopPx gs + num_of_Z (y pos) * cellDimPx gs + gridCellBorderWidthPx gs)%num.

(** The local [cellDimPx] of the render loop. *)
Definition cellInnerDimPx (gs : GameState N) : N :=
  (cellDimPx gs - gridCellBorderWidthPx gs * num_of_Z 2)%num.

(** The [switch (entity.kind)] of the render pass: the background and the
    letter of the cell. *)
Definition cellBg (k : Z) : string :=
  if k =? EntityKind.Producer then "darkred"
  else if k =? EntityKind.Motor then "green"
  else if k =? EntityKind.Generator then "darkblue"
  else "magenta".

Definition letter (k : Z) : string :=
  if k =? EntityKind.Producer then "P"
  else if k =? EntityKind.Motor then "M"
  else if k =? EntityKind.Generator then "G"
  else "X".

(** What the render pass draws for the entity [e] at [pos]. *)
Definition drawEntity (gs : GameState N) (pos : v2 Z) (e : Entity N)
    : list (CanvasCall N) :=
  let cellLeftPx := cellLeftPx gs pos in
  let cellTopPx := cellTopPx gs pos in
  let cellDimPx := cellInnerDimPx gs in
  let orbitingSquareDimPx := num_of_Z 3 in
  let orbitingSquareHalfDimPx := (orbitingSquareDimPx / num_of_Z 2)%num in
  let orbitingSquarePaddingPx := num_1 in
  let cellHalfDim := (cellDimPx / num_of_Z 2)%num in
  let orbitRadiusPx := (cellHalfDim - orbitingSquarePaddingPx - orbitingSquareDimPx)%num in
  let cellCenterXPx := (cellLeftPx + cellHalfDim)%num in
  let cellCenterYPx := (cellTopPx + cellHalfDim)%num in
  let currentAngleFromTop := cycleProgress e in
  let orbitingSquareOffsetXPx :=
    (sin (currentAngleFromTop * num_of_Z 2 * PI) * orbitRadiusPx)%num in
  let orbitingSquareOffsetYPx :=
    (cos (currentAngleFromTop * num_of_Z 2 * PI) * orbitRadiusPx)%num in
  let orbitingSquareCenterXPx := (cellCenterXPx + orbitingSquareOffsetXPx)%num in
  let orbitingSquareCenterYPx := (cellCenterYPx - orbitingSquareOffsetYPx)%num in
  [SetFillStyle (cellBg (kind e));
   FillRect cellLeftPx cellTopPx cellDimPx cellDimPx;
   SetFillStyle "white";
   SetTextBaseline "bottom";
   SetTextAlign "left";
   SetFont (num_of_Z 10) "monospace";
   FillNumber (num_floor (cycleProgress e * num_of_Z 100)%num) cellLeftPx
              (cellTopPx + cellDimPx)%num;
   SetFillStyle "black";
   SetTextBaseline "top";
   SetTextAlign "left";
   SetFont (num_of_Z 20) "monospace";
   FillText (letter (kind e)) cellLeftPx cellTopPx;
   SetFillStyle "lightgray";
   FillRect (orbitingSquareCenterXPx - orbitingSquareHalfDimPx)%num
            (orbitingSquareCenterYPx - orbitingSquareHalfDimPx)%num
            orbitingSquareDimPx orbitingSquareDimPx].

(** The body of the render loop for the entity the iterator stands on: the
    state is the world, for the console, and the calls made so far. *)
Definition renderEntity (s : World N * list (CanvasCall N)) (it : EntityIterator)
    : Outcome (World N * list (CanvasCall N)) :=
  let w := fst s in
  match handle it with
  | None => TypeError
  | Some h =>
    match deref (gameState w) (entity h) with
    | None => TypeError
    | Some e =>
      Ok (mkWorld (gameState w)
            (if isKnownKind (kind e) then console w
             else (console w ++ [unknownEntityMessage (kind e)])%list),
          (snd s ++ drawEntity (gameState w) (pos h) e)%list)
    end
  end.

Definition renderEntities (fuel : nat) (s : World N * list (CanvasCall N))
    : Outcome (World N * list (CanvasCall N)) :=
  forEntities nextNonNullEntity (fun s => gameState (fst s)) renderEntity fuel s.

(** The render half: the world it leaves and the calls it makes. *)
Definition render (fuel : nat) (w : World N) : Outcome (World N * list (CanvasCall N)) :=
  match renderGrid fuel (gameState w) with
  | None => OutOfFuel
  | Some grid =>
    renderEntities fuel
      (w, (renderClear (gameState w) ++ grid ++ renderMargins (gameState w)
           ++ renderNumber (gameState w))%list)
  end.

(** [gameUpdateAndRender] with its render half. *)
Definition updateAndRender (fuel : nat) (w : World N) (deltaTime : N)
    : Outcome (World N * list (CanvasCall N)) :=
  bind (gameUpdateAndRender fuel w deltaTime) (render fuel).

(** ** The main loop *)

(** What the browser calls the program with: the three mouse events, with
    the fields of the event and of the bounding rectangle of the canvas that
    the handlers read, and the animation frame with its timestamp. *)
Inductive Event : Type :=
| MouseMove (clientX clientY canvasRectLeft canvasRectTop : N)
| MouseDown (button : Z)
| MouseUp (button : Z)
| AnimationFrame (timestamp : N).

(** The state of the running program: the world, [lastTimestamp] of the
    main loop (there is none before the first animation frame) and the calls
    made to the canvas so far. *)
Record Program : Type := mkProgram {
  world : World N;
  frameTimestamp : option N;
  canvas : list (CanvasCall N)
}.

Definition withGameState (pr : Program) (gs : GameState N) : Program :=
  mkProgram (mkWorld gs (console (world pr))) (frameTimestamp pr) (canvas pr).

(** [gameUpdateAndRenderWrapper] *)
Definition gameUpdateAndRenderWrapper (fuel : nat) (pr : Program) (lastTimestamp : N)
    (timestamp : N) : Outcome Program :=
  let deltaTime := (timestamp - lastTimestamp)%num in
  bind (updateAndRender fuel (world pr) deltaTime) (fun r =>
  Ok (mkProgram (fst r) (Some timestamp) (canvas pr ++ snd r)%list)).

Definition handleEvent (fuel : nat) (pr : Program) (ev : Event) : Outcome Program :=
  match ev with
  | MouseMove clientX clientY canvasRectLeft canvasRectTop =>
    Ok (withGameState pr
          (onMouseMove (gameState (world pr))
             (clientX - canvasRectLeft)%num (clientY - canvasRectTop)%num))
  | MouseDown button => Ok (withGameState pr (onMouseDown (gameState (world pr)) button))
  | MouseUp button => Ok (withGameState pr (onMouseUp (gameState (world pr)) button))
  | AnimationFrame timestamp =>
    match frameTimestamp pr with
    | None => Ok (mkProgram (world pr) (Some timestamp) (canvas pr))
    | Some lastTimestamp => gameUpdateAndRenderWrapper fuel pr lastTimestamp timestamp
    end
  end.

(** The program run on a sequence of events, from the state [main] leaves. *)
Definition run (fuel : nat) (events : list Event) (pr : Program) : Outcome Program :=
  foldOutcome (handleEvent fuel) events pr.

Definition started (gs : GameState N) : Program := mkProgram (mkWorld gs []) None [].

End Render.

(** What the render pass draws for the cell at [q]. *)
Definition drawAt {N : Type} {num : Number N} (sin cos : N -> N) (PI : N)
    (gs : GameState N) (q : v2 Z) : list (CanvasCall N) :=
  match entityAt gs q with
  | Some e => drawEntity sin cos PI gs q e
  | None => []
  end.

(** [Math.PI], and [Math.sin] and [Math.cos] at the angle 0, the only angle
    at which the frame below evaluates them: no time passes in it and every
    cycle progress is 0. *)
Definition floatPI : float := 3.141592653589793%float.
Definition sinAtZero (angle : float) : float := 0%float.
Definition cosAtZero (angle : float) : float := 1%float.

(** A frame on [oddWorld] with no time elapsed: the world it leaves and the
    calls it makes to the canvas. *)
Definition oddWorldFrame : World float * list (CanvasCall float) :=
  Eval vm_compute in
    match updateAndRender sinAtZero cosAtZero floatPI 10 oddWorld 0%float with
    | Ok r => r
    | TypeError => (oddWorld, [])
    | OutOfFuel => (oddWorld, [])
    end.

(** What no event changes: the dimensions, the kind of every cell, the
    configuration constants and every field of the cells of kind [None]. *)
Definition sameLayout {N : Type} (gs gs' : GameState N) : Prop :=
  sameGrid gs gs' /\
  (lastTimestamp gs', referenceCycleDuration gs', cellDimPx gs', gridCellBorderWidthPx gs',
   worldMargins gs')
  = (lastTimestamp gs, referenceCycleDuration gs, cellDimPx gs, gridCellBorderWidthPx gs,
     worldMargins gs) /\
  forall j e, nth_error (storage (entities gs)) j = Some e ->
              kind e = EntityKind.None ->
              nth_error (storage (entities gs')) j = Some e.

(** A run in which nothing works: the first animation frame, a move of the
    pointer to the pixel (50, 280) of the canvas, a press of the right
    button, and a second animation frame 16 ms after the first. *)
Definition idleRun : list (Event (N := float)) :=
  [AnimationFrame 0%float; MouseMove 90%float 300%float 40%float 20%float;
   MouseDown 2; AnimationFrame 16%float].

Definition idleRunEnd : Program (N := float) :=
  Eval vm_compute in
    match run sinAtZero cosAtZero floatPI 200 idleRun (started mainState) with
    | Ok pr => pr
    | TypeError => started mainState
    | OutOfFuel => started mainState
    end.

(** * Properties *)

(** ** Lists *)

Lemma length_updateAt {A : Type} (f : A -> A) (l : list A) (i : nat) :
  length (updateAt i f l) = length l.
Proof.
  revert i; induction l as [|a l IH]; intros [|i]; simpl; auto.
Qed.

Lemma nth_error_updateAt_eq {A : Type} (f : A -> A) (l : list A) (i : nat) :
  nth_error (updateAt i f l) i = option_map f (nth_error l i).
Proof.
  revert i; induction l as [|a l IH]; intros [|i]; simpl; auto.
Qed.

Lemma nth_error_updateAt_ne {A : Type} (f : A -> A) (l : list A) (i j : nat) :
  i <> j -> nth_error (updateAt i f l) j = nth_error l j.
Proof.
  revert i j; induction l as [|a l IH]; intros [|i] [|j] Hne; simpl; auto.
  - congruence.
Qed.

Lemma map_updateAt_inv {A B : Type} (g : A -> B) (f : A -> A) (l : list A) (i : nat) :
  (forall a, g (f a) = g a) -> map g (updateAt i f l) = map g l.
Proof.
  intros Hg; revert i; induction l as [|a l IH]; intros [|i]; simpl; auto.
  - now rewrite Hg.
  - now rewrite IH.
Qed.

Lemma updateAt_updateAt {A : Type} (f g : A -> A) (l : list A) (i : nat) :
  updateAt i f (updateAt i g l) = updateAt i (fun a => f (g a)) l.
Proof.
  revert i; induction l as [|a l IH]; intros [|i]; simpl; auto.
  now rewrite IH.
Qed.

Lemma updateAt_at {A : Type} (f : A -> A) (l : list A) (i : nat) (a : A) :
  nth_error l i = Some a -> updateAt i f l = updateAt i (fun _ => f a) l.
Proof.
  revert i; induction l as [|b l IH]; intros [|i] H; simpl in *; try discriminate.
  - now injection H as ->.
  - now rewrite (IH i H).
Qed.

Lemma zrange_length (a : Z) (n : nat) : length (zrange a n) = n.
Proof. revert a; induction n; intros; simpl; auto. Qed.

Lemma zrange_app (a : Z) (n m : nat) :
  zrange a (n + m) = (zrange a n ++ zrange (a + Z.of_nat n) m)%list.
Proof.
  revert a; induction n as [|n IH]; intros a.
  - simpl. now rewrite Z.add_0_r.
  - change (S n + m)%nat with (S (n + m)). simpl zrange at 1 2. simpl app.
    rewrite IH. do 3 f_equal. lia.
Qed.

Lemma zrange_seq (a : Z) (n : nat) :
  zrange a n = map (fun k => a + Z.of_nat k) (seq 0 n).
Proof.
  revert a; induction n as [|n IH]; intros a; simpl; [reflexivity|].
  rewrite Z.add_0_r. f_equal. rewrite IH, <- seq_shift, map_map.
  apply map_ext. intros k. lia.
Qed.

Lemma foldOutcome_app {St A : Type} (f : St -> A -> Outcome St) (l1 l2 : list A) (s : St) :
  foldOutcome f (l1 ++ l2) s = bind (foldOutcome f l1 s) (foldOutcome f l2).
Proof.
  revert s; induction l1 as [|a l1 IH]; intros s; simpl; [reflexivity|].
  destruct (f s a); simpl; auto.
Qed.

(** ** The iterator *)

Section Traversal.
Context {N : Type} {num : Number N}.

Lemma v2_eta (p : v2 Z) : mkV2 (x p) (y p) = p.
Proof. now destruct p. Qed.

(** One step of [nextEntity] takes the head of what is pending. *)
Lemma nextEntity_pending (gs : GameState N) (it : EntityIterator) :
  done it = false ->
  match pending (worldDim gs) (iterPos it) with
  | [] => done (nextEntity gs it) = true
  | p :: rest =>
    nextEntity gs it = iteratorAt gs p /\ pending (worldDim gs) p = rest
  end.
Proof.
  intros Hd. unfold nextEntity, pending, rowTail, rowsAfter. rewrite Hd.
  destruct it as [hd [cx cy] dn]; simpl in *.
  destruct (worldDim gs) as [w h]; simpl.
  destruct (Z.geb_spec (cx + 1) w) as [Hx|Hx].
  - replace (Z.to_nat (w - (cx + 1))) with O by lia. simpl.
    destruct (Z.geb_spec (cy + 1) h) as [Hy|Hy].
    + replace (Z.to_nat (h - (cy + 1))) with O by lia. reflexivity.
    + destruct (Z.to_nat (h - (cy + 1))) as [|k] eqn:Hk; [lia|].
      simpl. split; [reflexivity|].
      replace (Z.to_nat (h - (cy + 1 + 1))) with k by lia. reflexivity.
  - destruct (Z.to_nat (w - (cx + 1))) as [|k] eqn:Hk; [lia|].
    simpl. split; [reflexivity|].
    replace (Z.to_nat (w - (cx + 1 + 1))) with k by lia. reflexivity.
Qed.

Lemma sameGrid_refl (gs : GameState N) : sameGrid gs gs.
Proof. split; reflexivity. Qed.

Lemma sameGrid_trans (a b c : GameState N) :
  sameGrid a b -> sameGrid b c -> sameGrid a c.
Proof. intros [H1 H2] [H3 H4]. split; congruence. Qed.

Lemma sameGrid_sym (a b : GameState N) : sameGrid a b -> sameGrid b a.
Proof. intros [H1 H2]. split; congruence. Qed.

Lemma sameGrid_length (gs gs' : GameState N) :
  sameGrid gs gs' -> length (storage (entities gs')) = length (storage (entities gs)).
Proof.
  intros [_ H]. apply (f_equal (@length Z)) in H. now rewrite !length_map in H.
Qed.

Lemma sameGrid_kind (gs gs' : GameState N) (i : nat) :
  sameGrid gs gs' ->
  option_map kind (nth_error (storage (entities gs')) i)
  = option_map kind (nth_error (storage (entities gs)) i).
Proof.
  intros [_ H]. rewrite <- !nth_error_map. now rewrite H.
Qed.

Lemma sameGrid_storageAt (gs gs' : GameState N) (idx : Z) :
  sameGrid gs gs' -> storageAt gs' idx = storageAt gs idx.
Proof.
  intros H. unfold storageAt. destruct (idx <? 0); [reflexivity|].
  pose proof (sameGrid_kind gs gs' (Z.to_nat idx) H) as Hk.
  destruct (nth_error (storage (entities gs')) (Z.to_nat idx)),
           (nth_error (storage (entities gs)) (Z.to_nat idx));
    simpl in Hk; congruence.
Qed.

Lemma sameGrid_handle (gs gs' : GameState N) (p : v2 Z) :
  sameGrid gs gs' -> getEntityHandleAtPos gs' p = getEntityHandleAtPos gs p.
Proof.
  intros H. unfold getEntityHandleAtPos. destruct H as [Hd Hk]. rewrite Hd.
  destruct (posIsInBounds p (worldDim gs)); [|reflexivity].
  f_equal. apply sameGrid_storageAt. now split.
Qed.

Lemma sameGrid_iteratorAt (gs gs' : GameState N) (p : v2 Z) :
  sameGrid gs gs' -> iteratorAt gs' p = iteratorAt gs p.
Proof. intros H. unfold iteratorAt. now rewrite (sameGrid_handle gs gs'). Qed.

Lemma sameGrid_handleKindIsNone (gs gs' : GameState N) (h : option EntityHandle) :
  sameGrid gs gs' -> handleKindIsNone gs' h = handleKindIsNone gs h.
Proof.
  intros H. destruct h as [hd|]; [|reflexivity]. simpl.
  destruct (entity hd) as [| |i]; simpl; try reflexivity.
  pose proof (sameGrid_kind gs gs' i H) as Hk.
  destruct (nth_error (storage (entities gs')) i),
           (nth_error (storage (entities gs)) i); simpl in Hk; congruence.
Qed.

Lemma sameGrid_isNonNull (gs gs' : GameState N) (p : v2 Z) :
  sameGrid gs gs' -> isNonNull gs' p = isNonNull gs p.
Proof.
  intros H. unfold isNonNull.
  now rewrite (sameGrid_handle gs gs'), (sameGrid_handleKindIsNone gs gs').
Qed.

Lemma nextEntity_yields (gs : GameState N) (it : EntityIterator) :
  done it = false -> yieldsNext (fun _ => true) gs it (nextEntity gs it).
Proof.
  intros Hd. pose proof (nextEntity_pending gs it Hd) as H. unfold yieldsNext.
  destruct (pending (worldDim gs) (iterPos it)) as [|p rest].
  - left. now split.
  - destruct H as [H1 H2]. right. exists p. subst rest. simpl. repeat split; auto.
Qed.

Lemma nextNonNullEntity_yields (fuel : nat) (gs : GameState N) (it it' : EntityIterator) :
  done it = false ->
  nextNonNullEntity fuel gs it = Some it' ->
  yieldsNext (isNonNull gs) gs it it'.
Proof.
  revert it. induction fuel as [|fuel IH]; intros it Hd Hn; [discriminate|].
  simpl in Hn. pose proof (nextEntity_pending gs it Hd) as H. unfold yieldsNext.
  destruct (pending (worldDim gs) (iterPos it)) as [|p rest] eqn:Hp.
  - rewrite H in Hn. simpl in Hn. injection Hn as <-. left. now split.
  - destruct H as [H1 H2]. rewrite H1 in Hn.
    change (done (iteratorAt gs p)) with false in Hn.
    change (handle (iteratorAt gs p)) with (Some (getEntityHandleAtPos gs p)) in Hn.
    cbn [negb andb] in Hn.
    cbn [filter].
    assert (Hnn : isNonNull gs p
                  = negb (handleKindIsNone gs (Some (getEntityHandleAtPos gs p))))
      by reflexivity.
    rewrite Hnn.
    destruct (handleKindIsNone gs (Some (getEntityHandleAtPos gs p))) eqn:Hk;
      cbn [negb].
    + apply IH in Hn; [|reflexivity]. unfold yieldsNext in Hn.
      change (iterPos (iteratorAt gs p)) with p in Hn.
      rewrite H2 in Hn. destruct Hn as [[Ha Hb]|[q [Ha [Hb Hc]]]].
      * left. split; assumption.
      * right. exists q. repeat split; auto. cbn [length]. lia.
    + injection Hn as <-. right. exists p. subst rest. repeat split; auto.
Qed.

Lemma nextNonNullEntity_fuel (fuel : nat) (gs : GameState N) (it : EntityIterator) :
  done it = false ->
  (length (pending (worldDim gs) (iterPos it)) < fuel)%nat ->
  nextNonNullEntity fuel gs it <> None.
Proof.
  revert it. induction fuel as [|fuel IH]; intros it Hd Hl; [lia|].
  simpl. pose proof (nextEntity_pending gs it Hd) as H.
  destruct (pending (worldDim gs) (iterPos it)) as [|p rest] eqn:Hp.
  - rewrite H. simpl. discriminate.
  - destruct H as [H1 H2]. rewrite H1.
    change (done (iteratorAt gs p)) with false.
    change (handle (iteratorAt gs p)) with (Some (getEntityHandleAtPos gs p)).
    cbn [negb andb].
    destruct (handleKindIsNone gs (Some (getEntityHandleAtPos gs p))); [|discriminate].
    apply IH; [reflexivity|]. change (iterPos (iteratorAt gs p)) with p.
    rewrite H2. cbn [length] in Hl. lia.
Qed.

(** *** The for loop over an iterator is a fold over the positions *)

Section ForLoopFold.
Context {St : Type}.
Variable next : nat -> GameState N -> EntityIterator -> option EntityIterator.
Variable view : St -> GameState N.
Variable body : St -> EntityIterator -> Outcome St.
Variable keep : GameState N -> v2 Z -> bool.

Hypothesis next_yields : forall fuel gs it it',
  done it = false -> next fuel gs it = Some it' -> yieldsNext (keep gs) gs it it'.
Hypothesis next_fuel : forall fuel gs it,
  done it = false ->
  (length (pending (worldDim gs) (iterPos it)) < fuel)%nat ->
  next fuel gs it <> None.
Hypothesis keep_sameGrid : forall gs gs' p,
  sameGrid gs gs' -> keep gs' p = keep gs p.
Hypothesis body_sameGrid : forall s it s',
  body s it = Ok s' -> sameGrid (view s) (view s').

Lemma visited_sameGrid (gs gs' : GameState N) (p : v2 Z) :
  sameGrid gs gs' -> visited keep gs' p = visited keep gs p.
Proof.
  intros H. unfold visited. destruct H as [Hd Hk]. rewrite Hd.
  apply filter_ext. intros q. apply keep_sameGrid. now split.
Qed.

Lemma forEntitiesFrom_done (fuel : nat) (s : St) (it : EntityIterator) (r : Outcome St) :
  done it = true -> forEntitiesFrom next view body fuel s it = r ->
  r <> OutOfFuel -> r = Ok s.
Proof.
  intros Hd Hr Hne. destruct fuel; simpl in Hr; [congruence|].
  rewrite Hd in Hr. congruence.
Qed.

Lemma forEntitiesFrom_sound (fuel : nat) : forall (s : St) (p : v2 Z) (r : Outcome St),
  forEntitiesFrom next view body fuel s (iteratorAt (view s) p) = r ->
  r <> OutOfFuel ->
  r = foldOutcome (bodyAt view body) (p :: visited keep (view s) p) s.
Proof.
  induction fuel as [|fuel IH]; intros s p r Hr Hne; simpl in Hr; [congruence|].
  simpl foldOutcome. unfold bodyAt at 1.
  destruct (body s (iteratorAt (view s) p)) as [s1| |] eqn:Hb; try congruence.
  pose proof (body_sameGrid _ _ _ Hb) as Hg.
  destruct (next fuel (view s1) (iteratorAt (view s) p)) as [it1|] eqn:Hn; [|congruence].
  apply next_yields in Hn; [|reflexivity]. unfold yieldsNext in Hn. simpl in Hn.
  fold (visited keep (view s1) p) in Hn. rewrite (visited_sameGrid _ _ p Hg) in Hn.
  destruct Hn as [[Hd Hv]|[q [Hq [Hv _]]]].
  - rewrite Hv. simpl. eapply forEntitiesFrom_done; eauto.
  - rewrite Hv. subst it1. apply IH in Hr; auto.
Qed.

Lemma forEntities_sound (fuel : nat) (s : St) (r : Outcome St) :
  forEntities next view body fuel s = r ->
  r <> OutOfFuel ->
  r = foldOutcome (bodyAt view body) (visited keep (view s) (iterPos beginEntityIteration)) s.
Proof.
  unfold forEntities. intros Hr Hne.
  destruct (next fuel (view s) beginEntityIteration) as [it|] eqn:Hn; [|congruence].
  apply next_yields in Hn; [|reflexivity]. unfold yieldsNext in Hn. cbv zeta in Hn.
  fold (visited keep (view s) (iterPos beginEntityIteration)) in Hn.
  destruct Hn as [[Hd Hv]|[q [Hq [Hv _]]]].
  - rewrite Hv. simpl. eapply forEntitiesFrom_done; eauto.
  - rewrite Hv. subst it. apply forEntitiesFrom_sound in Hr; auto.
Qed.

Lemma forEntitiesFrom_complete (fuel : nat) : forall (s : St) (p : v2 Z),
  (S (length (pending (worldDim (view s)) p)) < fuel)%nat ->
  forEntitiesFrom next view body fuel s (iteratorAt (view s) p)
  = foldOutcome (bodyAt view body) (p :: visited keep (view s) p) s.
Proof.
  induction fuel as [|fuel IH]; intros s p Hl; [lia|].
  simpl. unfold bodyAt at 1.
  destruct (body s (iteratorAt (view s) p)) as [s1| |] eqn:Hb; try reflexivity.
  pose proof (body_sameGrid _ _ _ Hb) as Hg.
  assert (Hd : worldDim (view s1) = worldDim (view s)) by apply Hg.
  destruct (next fuel (view s1) (iteratorAt (view s) p)) as [it1|] eqn:Hn.
  - apply next_yields in Hn; [|reflexivity]. unfold yieldsNext in Hn. simpl in Hn.
    fold (visited keep (view s1) p) in Hn. rewrite (visited_sameGrid _ _ p Hg) in Hn.
    destruct Hn as [[Hdn Hv]|[q [Hq [Hv Hlt]]]].
    + rewrite Hv. simpl. destruct fuel; [lia|]. simpl. now rewrite Hdn.
    + rewrite Hv. subst it1. rewrite IH; [reflexivity|]. rewrite Hd in *. lia.
  - exfalso. revert Hn. apply next_fuel; [reflexivity|]. simpl. rewrite Hd. lia.
Qed.

Lemma forEntities_complete (fuel : nat) (s : St) :
  (S (length (pending (worldDim (view s)) (iterPos beginEntityIteration))) < fuel)%nat ->
  forEntities next view body fuel s
  = foldOutcome (bodyAt view body) (visited keep (view s) (iterPos beginEntityIteration)) s.
Proof.
  intros Hl. unfold forEntities.
  destruct (next fuel (view s) beginEntityIteration) as [it|] eqn:Hn.
  - apply next_yields in Hn; [|reflexivity]. unfold yieldsNext in Hn. cbv zeta in Hn.
    fold (visited keep (view s) (iterPos beginEntityIteration)) in Hn.
    destruct Hn as [[Hdn Hv]|[q [Hq [Hv Hlt]]]].
    + rewrite Hv. simpl. destruct fuel; [lia|]. simpl. now rewrite Hdn.
    + rewrite Hv. subst it. apply forEntitiesFrom_complete. lia.
  - exfalso. revert Hn. apply next_fuel; [reflexivity|]. lia.
Qed.
End ForLoopFold.

End Traversal.

(** ** The grid *)

Section Grid.
Context {N : Type} {num : Number N}.

Lemma posIsInBounds_spec (gs : GameState N) (p : v2 Z) :
  posIsInBounds p (worldDim gs) = true <-> inBounds gs p.
Proof.
  unfold posIsInBounds, inBounds.
  rewrite !andb_true_iff, !Z.geb_le, !Z.ltb_lt. tauto.
Qed.

Lemma inBounds_index (gs : GameState N) (p : v2 Z) :
  inBounds gs p ->
  0 <= y p * x (worldDim gs) + x p < x (worldDim gs) * y (worldDim gs).
Proof. unfold inBounds. nia. Qed.

Lemma handle_inBounds (gs : GameState N) (p : v2 Z) :
  inBounds gs p ->
  getEntityHandleAtPos gs p
  = mkHandle (match nth_error (storage (entities gs)) (cellIndex gs p) with
              | Some _ => ref (cellIndex gs p)
              | None => undefined
              end)
             (y p * x (worldDim gs) + x p) p.
Proof.
  intros Hb. unfold getEntityHandleAtPos.
  rewrite (proj2 (posIsInBounds_spec gs p) Hb).
  unfold storageAt, cellIndex. pose proof (inBounds_index gs p Hb).
  destruct (Z.ltb_spec (y p * x (worldDim gs) + x p) 0); [lia|reflexivity].
Qed.

Lemma handle_outOfBounds (gs : GameState N) (p : v2 Z) :
  ~ inBounds gs p -> getEntityHandleAtPos gs p = mkHandle null 0 (mkV2 0 0).
Proof.
  intros Hb. unfold getEntityHandleAtPos.
  destruct (posIsInBounds p (worldDim gs)) eqn:E; [|reflexivity].
  apply posIsInBounds_spec in E. contradiction.
Qed.

Lemma inBounds_dec (gs : GameState N) (p : v2 Z) : {inBounds gs p} + {~ inBounds gs p}.
Proof.
  destruct (posIsInBounds p (worldDim gs)) eqn:E.
  - left. now apply posIsInBounds_spec.
  - right. intros H. apply posIsInBounds_spec in H. congruence.
Qed.

Lemma entityAt_inBounds (gs : GameState N) (p : v2 Z) :
  inBounds gs p -> entityAt gs p = nth_error (storage (entities gs)) (cellIndex gs p).
Proof.
  intros Hb. unfold entityAt. rewrite handle_inBounds by assumption. simpl.
  destruct (nth_error (storage (entities gs)) (cellIndex gs p)) eqn:E; simpl; auto.
Qed.

Lemma entityAt_outOfBounds (gs : GameState N) (p : v2 Z) :
  ~ inBounds gs p -> entityAt gs p = None.
Proof.
  intros Hb. unfold entityAt. now rewrite handle_outOfBounds.
Qed.

(** Resolving a position on a grid. *)
Lemma handle_on_grid (gs : GameState N) (p : v2 Z) :
  isGrid gs ->
  ((exists i e, entity (getEntityHandleAtPos gs p) = ref i /\
                nth_error (storage (entities gs)) i = Some e /\
                Z.of_nat i = y p * x (worldDim gs) + x p /\
                pos (getEntityHandleAtPos gs p) = p)
   <-> 0 <= x p < x (worldDim gs) /\ 0 <= y p < y (worldDim gs)) /\
  (~ (0 <= x p < x (worldDim gs) /\ 0 <= y p < y (worldDim gs)) ->
   entity (getEntityHandleAtPos gs p) = null /\ entityAt gs p = None).
Proof.
  intros Hg. fold (inBounds gs p). split; [split|].
  - intros (i & e & Hr & _). destruct (inBounds_dec gs p) as [Hb|Hb]; [assumption|].
    rewrite handle_outOfBounds in Hr by assumption. discriminate.
  - intros Hb. rewrite handle_inBounds by assumption. simpl.
    pose proof (inBounds_index gs p Hb) as Hi.
    destruct (nth_error (storage (entities gs)) (cellIndex gs p)) as [e|] eqn:E.
    + exists (cellIndex gs p), e. repeat split; auto. unfold cellIndex. lia.
    + apply nth_error_None in E. unfold isGrid in Hg. unfold cellIndex in E. lia.
  - intros Hb. split; [now rewrite handle_outOfBounds|now apply entityAt_outOfBounds].
Qed.

End Grid.

(** ** Traversal order *)

Section Order.
Context {N : Type} {num : Number N}.

Lemma row_from_zero (w cy : Z) :
  0 < w ->
  mkV2 0 cy :: rowTail w cy 0 = map (fun x' => mkV2 x' cy) (zrange 0 (Z.to_nat w)).
Proof.
  intros Hw. unfold rowTail.
  replace (Z.to_nat w) with (S (Z.to_nat (w - (0 + 1)))) by lia. reflexivity.
Qed.

Lemma pending_begin_rowMajor (w h : Z) :
  0 < w -> 0 < h ->
  pending (mkV2 w h) (iterPos beginEntityIteration) = rowMajor w h.
Proof.
  intros Hw Hh. unfold pending, rowMajor, rowsAfter. simpl x. simpl y.
  replace (Z.to_nat h) with (S (Z.to_nat (h - (0 + 1)))) by lia.
  cbn [zrange flat_map]. f_equal.
  - unfold rowTail. f_equal. f_equal. lia.
  - apply flat_map_ext. intros cy. now apply row_from_zero.
Qed.

Lemma length_rowMajor (w h : Z) :
  length (rowMajor w h) = (Z.to_nat h * Z.to_nat w)%nat.
Proof.
  unfold rowMajor. generalize 0 at 2. generalize (Z.to_nat h) as n.
  induction n as [|n IH]; intros a; simpl; [reflexivity|].
  rewrite length_app, IH, length_map, zrange_length. reflexivity.
Qed.

Lemma In_zrange (a : Z) (n : nat) (z : Z) :
  In z (zrange a n) <-> a <= z < a + Z.of_nat n.
Proof.
  revert a; induction n as [|n IH]; intros a; simpl; [lia|].
  rewrite IH. lia.
Qed.

(** The positions of [rowMajor] are the positions within bounds. *)
Lemma In_rowMajor (w h : Z) (p : v2 Z) :
  In p (rowMajor w h) <-> 0 <= x p < w /\ 0 <= y p < h.
Proof.
  unfold rowMajor. rewrite in_flat_map. split.
  - intros (cy & Hy & Hp). apply in_map_iff in Hp. destruct Hp as (cx & <- & Hx).
    apply In_zrange in Hx, Hy. simpl. lia.
  - intros [Hx Hy]. exists (y p). split.
    + apply In_zrange. lia.
    + apply in_map_iff. exists (x p). split; [apply v2_eta|]. apply In_zrange. lia.
Qed.

Lemma collect_fold (gs : GameState N) (l : list (v2 Z)) (acc : list EntityHandle) :
  foldOutcome (bodyAt fst collectBody) l (gs, acc)
  = Ok (gs, (acc ++ map (getEntityHandleAtPos gs) l)%list).
Proof.
  revert acc. induction l as [|p l IH]; intros acc; simpl.
  - now rewrite app_nil_r.
  - rewrite IH. simpl. now rewrite <- app_assoc.
Qed.

Lemma collectBody_sameGrid (s : GameState N * list EntityHandle) (it : EntityIterator)
    (s' : GameState N * list EntityHandle) :
  collectBody s it = Ok s' -> sameGrid (fst s) (fst s').
Proof.
  unfold collectBody. destruct (handle it); [|discriminate].
  intros H. injection H as <-. apply sameGrid_refl.
Qed.

Lemma filter_true {A : Type} (l : list A) : filter (fun _ => true) l = l.
Proof. induction l; simpl; congruence. Qed.

Lemma allEntities_pending (fuel : nat) (gs : GameState N) :
  (S (length (pending (worldDim gs) (iterPos beginEntityIteration))) < fuel)%nat ->
  allEntities fuel gs
  = Ok (map (getEntityHandleAtPos gs)
            (pending (worldDim gs) (iterPos beginEntityIteration))).
Proof.
  intros Hl. unfold allEntities.
  rewrite (forEntities_complete _ fst collectBody (fun _ _ => true)).
  - unfold visited. simpl fst. rewrite filter_true, collect_fold. reflexivity.
  - intros f g it it' Hd H. injection H as <-. now apply nextEntity_yields.
  - discriminate.
  - reflexivity.
  - apply collectBody_sameGrid.
  - exact Hl.
Qed.

Lemma nonNullEntities_pending (fuel : nat) (gs : GameState N) :
  (S (length (pending (worldDim gs) (iterPos beginEntityIteration))) < fuel)%nat ->
  nonNullEntities fuel gs
  = Ok (map (getEntityHandleAtPos gs)
            (filter (isNonNull gs)
                    (pending (worldDim gs) (iterPos beginEntityIteration)))).
Proof.
  intros Hl. unfold nonNullEntities.
  rewrite (forEntities_complete _ fst collectBody isNonNull).
  - unfold visited. simpl fst. rewrite collect_fold. reflexivity.
  - intros f g it it' Hd H. now apply nextNonNullEntity_yields in H.
  - intros f g it Hd H. now apply nextNonNullEntity_fuel.
  - intros g g' q H. now apply sameGrid_isNonNull.
  - apply collectBody_sameGrid.
  - exact Hl.
Qed.

Lemma filter_map_swap {A B : Type} (f : A -> B) (g : B -> bool) (l : list A) :
  filter g (map f l) = map f (filter (fun a => g (f a)) l).
Proof.
  induction l as [|a l IH]; simpl; [reflexivity|].
  destruct (g (f a)); simpl; now rewrite IH.
Qed.

(** What the two iterators yield on a grid of positive width and height. *)
Lemma iterators_on_grid (fuel : nat) (gs : GameState N) :
  0 < x (worldDim gs) -> 0 < y (worldDim gs) ->
  (Z.to_nat (x (worldDim gs) * y (worldDim gs)) + 1 < fuel)%nat ->
  exists hs : list EntityHandle,
    allEntities fuel gs = Ok hs /\
    map pos hs = rowMajor (x (worldDim gs)) (y (worldDim gs)) /\
    hs = map (getEntityHandleAtPos gs) (rowMajor (x (worldDim gs)) (y (worldDim gs))) /\
    (forall p, In p (map pos hs) <-> inBounds gs p) /\
    nonNullEntities fuel gs
    = Ok (filter (fun hd => negb (handleKindIsNone gs (Some hd))) hs).
Proof.
  intros Hw Hh Hf.
  assert (Hp : pending (worldDim gs) (iterPos beginEntityIteration)
               = rowMajor (x (worldDim gs)) (y (worldDim gs))).
  { rewrite <- pending_begin_rowMajor by assumption. now destruct (worldDim gs). }
  assert (Hl : (S (length (pending (worldDim gs) (iterPos beginEntityIteration)))
                < fuel)%nat).
  { rewrite Hp, length_rowMajor. nia. }
  assert (Hpos : map pos (map (getEntityHandleAtPos gs)
                              (rowMajor (x (worldDim gs)) (y (worldDim gs))))
                 = rowMajor (x (worldDim gs)) (y (worldDim gs))).
  { rewrite map_map. rewrite <- (map_id (rowMajor _ _)) at 2.
    apply map_ext_in. intros p Hin. apply In_rowMajor in Hin.
    now rewrite handle_inBounds. }
  exists (map (getEntityHandleAtPos gs) (rowMajor (x (worldDim gs)) (y (worldDim gs)))).
  split; [|split; [|split; [|split]]].
  - rewrite allEntities_pending by assumption. now rewrite Hp.
  - exact Hpos.
  - reflexivity.
  - intros p. rewrite Hpos. apply In_rowMajor.
  - rewrite nonNullEntities_pending by assumption. rewrite Hp.
    now rewrite filter_map_swap.
Qed.

End Order.

(** ** One entity *)

Section Step.
Context {N : Type} {num : Number N}.

Lemma setCurrentRate_sameGrid (gs : GameState N) (i : nat) (r : N) :
  sameGrid gs (setCurrentRate gs i r).
Proof.
  split; [reflexivity|]. simpl. now apply map_updateAt_inv.
Qed.

Lemma cellIndex_left (gs : GameState N) (p : v2 Z) :
  inBounds gs p -> inBounds gs (mkV2 (x p - 1) (y p)) ->
  S (cellIndex gs (mkV2 (x p - 1) (y p))) = cellIndex gs p.
Proof.
  intros Hb Hl. unfold cellIndex. simpl.
  pose proof (inBounds_index gs _ Hl) as H. simpl in H. lia.
Qed.

(** [startWorkingConditionally] on the handle of a stored entity sets its
    rate to what the left neighbour gives. *)
Lemma startWorkingConditionally_inBounds (gs : GameState N) (p : v2 Z) (e : Entity N)
    (condition : Z) (efficiency : N) :
  inBounds gs p ->
  nth_error (storage (entities gs)) (cellIndex gs p) = Some e ->
  startWorkingConditionally gs (getEntityHandleAtPos gs p) condition efficiency
  = Ok (setCurrentRate gs (cellIndex gs p) (leftRate gs p condition efficiency)).
Proof.
  intros Hb He. unfold startWorkingConditionally, leftRate.
  rewrite (handle_inBounds gs p Hb), He. cbn [entity pos].
  set (i := cellIndex gs p) in *.
  set (gs1 := setCurrentRate gs i num_0).
  assert (Hg : sameGrid gs gs1) by apply setCurrentRate_sameGrid.
  rewrite (sameGrid_handle gs gs1 _ Hg).
  destruct (inBounds_dec gs (mkV2 (x p - 1) (y p))) as [Hl|Hl].
  - pose proof (cellIndex_left gs p Hb Hl) as Hi. fold i in Hi.
    rewrite (entityAt_inBounds gs _ Hl).
    rewrite (handle_inBounds gs _ Hl). cbn [entity].
    set (j := cellIndex gs (mkV2 (x p - 1) (y p))) in *.
    destruct (nth_error (storage (entities gs)) j) as [l|] eqn:El.
    + unfold deref. unfold gs1 at 1. unfold setCurrentRate. cbn [storage entities withStorage].
      rewrite nth_error_updateAt_ne by lia. rewrite El.
      destruct (kind l =? condition); [|reflexivity].
      unfold gs1, setCurrentRate. cbn [storage entities withStorage].
      rewrite updateAt_updateAt. reflexivity.
    + apply nth_error_None in El.
      assert (i < length (storage (entities gs)))%nat
        by (apply nth_error_Some; congruence).
      lia.
  - rewrite (entityAt_outOfBounds gs _ Hl), (handle_outOfBounds gs _ Hl).
    reflexivity.
Qed.

Ltac step_reads He :=
  unfold deref, setCurrentRate, withCurrentNumber, withStorage;
  repeat (progress
    (cbn [storage entities gameState console currentNumber referenceCycleDuration
          pos orb option_map cycleProgress currentRate kind];
     rewrite ?nth_error_updateAt_eq, ?He)).

Ltac step_writes He :=
  unfold setCycleProgress, setCurrentRate, withCurrentNumber, withStorage;
  cbn [storage entities gameState console currentNumber referenceCycleDuration
       lastTimestamp worldDim cursor cellDimPx gridCellBorderWidthPx worldMargins];
  rewrite ?updateAt_updateAt, (updateAt_at _ _ _ _ He);
  cbn [cycleProgress currentRate kind]; reflexivity.

Lemma entity_eta (e : Entity N) : mkEntity (kind e) (currentRate e) (cycleProgress e) = e.
Proof. now destruct e. Qed.

(** The loop body run on a position within bounds is [entityStep]. *)
Lemma updateEntity_inBounds (wrapFuel : nat) (dt : N) (w : World N) (p : v2 Z) :
  inBounds (gameState w) p ->
  updateEntity wrapFuel dt w (iteratorAt (gameState w) p) = entityStep wrapFuel dt w p.
Proof.
  intros Hb. unfold updateEntity, entityStep, iteratorAt. cbn [handle].
  set (gs := gameState w).
  pose proof (startWorkingConditionally_inBounds gs p) as Hsw.
  rewrite (handle_inBounds gs p Hb) in *. cbn [entity].
  set (i := cellIndex gs p) in *.
  destruct (nth_error (storage (entities gs)) i) as [e|] eqn:He; [|reflexivity].
  unfold deref. rewrite He.
  unfold updateRate, ruleRate, worldAfter, isKnownKind. fold gs.
  destruct (kind e =? EntityKind.Producer) eqn:Kp.
  { rewrite (Hsw e _ _ Hb eq_refl). step_reads He.
    destruct (wrapCycleProgress wrapFuel (cycleProgress e)); [|reflexivity].
    step_writes He. }
  destruct (kind e =? EntityKind.Motor) eqn:Km.
  { rewrite (Hsw e _ _ Hb eq_refl). step_reads He.
    destruct (wrapCycleProgress wrapFuel (cycleProgress e)); [|reflexivity].
    step_writes He. }
  destruct (kind e =? EntityKind.Generator) eqn:Kg.
  { step_reads He.
    destruct (wrapCycleProgress wrapFuel (cycleProgress e)); [|reflexivity].
    unfold generatorActive. step_writes He. }
  step_reads He.
  destruct (wrapCycleProgress wrapFuel (cycleProgress e)); [|reflexivity].
  step_writes He.
Qed.

End Step.

(** ** The update pass as a fold *)

Section Pass.
Context {N : Type} {num : Number N}.

Lemma startWorkingConditionally_frame (gs gs' : GameState N) (h : EntityHandle)
    (condition : Z) (efficiency : N) :
  startWorkingConditionally gs h condition efficiency = Ok gs' ->
  sameGrid gs gs'.
Proof.
  unfold startWorkingConditionally.
  destruct (entity h) as [| |i]; try discriminate.
  - intros H. injection H as <-. apply sameGrid_refl.
  - destruct (entity (getEntityHandleAtPos _ _)) as [| |j]; try discriminate.
    + intros H. injection H as <-. apply setCurrentRate_sameGrid.
    + destruct (deref _ _) as [l|]; [|discriminate].
      destruct (kind l =? condition); intros H; injection H as <-.
      * eapply sameGrid_trans; apply setCurrentRate_sameGrid.
      * apply setCurrentRate_sameGrid.
Qed.

Lemma setCycleProgress_sameGrid (gs : GameState N) (i : nat) (c : N) :
  sameGrid gs (setCycleProgress gs i c).
Proof.
  split; [reflexivity|]. simpl. now apply map_updateAt_inv.
Qed.

Lemma updateRate_sameGrid (dt : N) (w w' : World N) (h : EntityHandle) (i : nat)
    (e : Entity N) :
  updateRate dt w h i e = Ok w' -> sameGrid (gameState w) (gameState w').
Proof.
  unfold updateRate.
  destruct (kind e =? EntityKind.Producer).
  { destruct (startWorkingConditionally _ _ _ _) as [gs1| |] eqn:Hs; try discriminate.
    destruct (deref gs1 (ref i)); [|discriminate].
    intros H. injection H as <-. apply startWorkingConditionally_frame in Hs.
    destruct Hs as [H1 H2]. split; assumption. }
  destruct (kind e =? EntityKind.Motor).
  { destruct (startWorkingConditionally _ _ _ _) as [gs1| |] eqn:Hs; try discriminate.
    intros H. injection H as <-. now apply startWorkingConditionally_frame in Hs. }
  destruct (kind e =? EntityKind.Generator); intros H; injection H as <-.
  - apply setCurrentRate_sameGrid.
  - apply sameGrid_refl.
Qed.

Lemma updateEntity_sameGrid (wrapFuel : nat) (dt : N) (w : World N) (it : EntityIterator)
    (w' : World N) :
  updateEntity wrapFuel dt w it = Ok w' -> sameGrid (gameState w) (gameState w').
Proof.
  unfold updateEntity.
  destruct (handle it) as [h|]; [|discriminate].
  destruct (entity h) as [| |i]; try discriminate.
  destruct (deref (gameState w) (ref i)) as [e|]; [|discriminate].
  destruct (updateRate dt w h i e) as [w1| |] eqn:Hr; try discriminate.
  destruct (deref (gameState w1) (ref i)) as [e1|]; [|discriminate].
  destruct (wrapCycleProgress wrapFuel (cycleProgress e1)); [|discriminate].
  intros H. injection H as <-. apply updateRate_sameGrid in Hr.
  eapply sameGrid_trans; [exact Hr|]. apply setCycleProgress_sameGrid.
Qed.

(** A run of the update pass that ends is the fold of the loop body over
    the occupied positions. *)
Lemma updateEntities_fold (fuel wrapFuel : nat) (dt : N) (w : World N)
    (r : Outcome (World N)) :
  updateEntities fuel wrapFuel dt w = r -> r <> OutOfFuel ->
  r = foldOutcome (bodyAt gameState (updateEntity wrapFuel dt))
                  (occupiedPositions (gameState w)) w.
Proof.
  unfold updateEntities, occupiedPositions. intros Hr Hne.
  apply (forEntities_sound nextNonNullEntity gameState _ isNonNull) in Hr; auto.
  - intros f g it it' Hd H. now apply nextNonNullEntity_yields in H.
  - intros g g' q H. now apply sameGrid_isNonNull.
  - intros s it s' H. now apply updateEntity_sameGrid in H.
Qed.

(** With enough fuel for the traversal the update pass is that fold. *)
Lemma updateEntities_enough_fuel (fuel wrapFuel : nat) (dt : N) (w : World N) :
  (S (length (pending (worldDim (gameState w)) (iterPos beginEntityIteration)))
   < fuel)%nat ->
  updateEntities fuel wrapFuel dt w
  = foldOutcome (bodyAt gameState (updateEntity wrapFuel dt))
                (occupiedPositions (gameState w)) w.
Proof.
  intros Hl. unfold updateEntities, occupiedPositions.
  apply (forEntities_complete nextNonNullEntity gameState _ isNonNull); auto.
  - intros f g it it' Hd H. now apply nextNonNullEntity_yields in H.
  - intros f g it Hd H. now apply nextNonNullEntity_fuel.
  - intros g g' q H. now apply sameGrid_isNonNull.
  - intros s it s' H. now apply updateEntity_sameGrid in H.
Qed.

(** *** What one step writes *)

Lemma entityStep_inv (wrapFuel : nat) (dt : N) (w : World N) (p : v2 Z) (w' : World N) :
  entityStep wrapFuel dt w p = Ok w' ->
  exists e c,
    nth_error (storage (entities (gameState w))) (cellIndex (gameState w) p) = Some e /\
    wrapCycleProgress wrapFuel (cycleProgress e) = Some c /\
    w' = worldAfter dt w (cellIndex (gameState w) p) e (ruleRate (gameState w) p e) c.
Proof.
  unfold entityStep.
  destruct (nth_error _ _) as [e|] eqn:He; [|discriminate].
  destruct (wrapCycleProgress _ _) as [c|] eqn:Hc; [|discriminate].
  intros H. injection H as <-. exists e, c. repeat split; assumption.
Qed.

Lemma worldAfter_config (dt : N) (w : World N) (i : nat) (e : Entity N) (r c : N) :
  configOf (gameState (worldAfter dt w i e r c)) = configOf (gameState w).
Proof. reflexivity. Qed.

Lemma worldAfter_at (dt : N) (w : World N) (i : nat) (e : Entity N) (r c : N) :
  nth_error (storage (entities (gameState w))) i = Some e ->
  nth_error (storage (entities (gameState (worldAfter dt w i e r c)))) i
  = Some (mkEntity (kind e) r
            (c + dt / referenceCycleDuration (gameState w) * r)%num).
Proof.
  intros He. unfold worldAfter. cbn [gameState entities storage].
  now rewrite nth_error_updateAt_eq, He.
Qed.

Lemma worldAfter_other (dt : N) (w : World N) (i j : nat) (e : Entity N) (r c : N) :
  i <> j ->
  nth_error (storage (entities (gameState (worldAfter dt w i e r c)))) j
  = nth_error (storage (entities (gameState w))) j.
Proof.
  intros Hne. unfold worldAfter. cbn [gameState entities storage].
  now apply nth_error_updateAt_ne.
Qed.

Lemma worldAfter_sameGrid (dt : N) (w : World N) (i : nat) (e : Entity N) (r c : N) :
  nth_error (storage (entities (gameState w))) i = Some e ->
  sameGrid (gameState w) (gameState (worldAfter dt w i e r c)).
Proof.
  intros He. split; [reflexivity|]. unfold worldAfter. cbn [gameState entities storage].
  apply nth_error_ext. intros j. rewrite !nth_error_map.
  destruct (Nat.eq_dec i j) as [<-|Hne].
  - now rewrite nth_error_updateAt_eq, He.
  - now rewrite nth_error_updateAt_ne.
Qed.

Lemma configOf_worldDim (gs gs' : GameState N) :
  configOf gs' = configOf gs -> worldDim gs' = worldDim gs.
Proof. unfold configOf. congruence. Qed.

Lemma configOf_cellIndex (gs gs' : GameState N) (p : v2 Z) :
  configOf gs' = configOf gs -> cellIndex gs' p = cellIndex gs p.
Proof. intros H. unfold cellIndex. now rewrite (configOf_worldDim _ _ H). Qed.

Lemma configOf_inBounds (gs gs' : GameState N) (p : v2 Z) :
  configOf gs' = configOf gs -> inBounds gs' p <-> inBounds gs p.
Proof. intros H. unfold inBounds. now rewrite (configOf_worldDim _ _ H). Qed.

Lemma configOf_generatorActive (gs gs' : GameState N) (p : v2 Z) :
  configOf gs' = configOf gs -> generatorActive gs' p = generatorActive gs p.
Proof.
  unfold configOf, generatorActive, isCursorOver. intros H.
  injection H as H1 H2 H3 H4 H5 H6 H7. now rewrite H3, H5, H7.
Qed.

Lemma entityStep_config (wrapFuel : nat) (dt : N) (w : World N) (p : v2 Z) (w' : World N) :
  entityStep wrapFuel dt w p = Ok w' ->
  configOf (gameState w') = configOf (gameState w).
Proof.
  intros H. apply entityStep_inv in H. destruct H as (e & c & _ & _ & ->).
  apply worldAfter_config.
Qed.

Lemma entityStep_other (wrapFuel : nat) (dt : N) (w : World N) (p : v2 Z) (w' : World N)
    (j : nat) :
  entityStep wrapFuel dt w p = Ok w' -> cellIndex (gameState w) p <> j ->
  nth_error (storage (entities (gameState w'))) j
  = nth_error (storage (entities (gameState w))) j.
Proof.
  intros H Hne. apply entityStep_inv in H. destruct H as (e & c & _ & _ & ->).
  now apply worldAfter_other.
Qed.

(** The loop body over positions within bounds is the fold of [entityStep]. *)
Lemma fold_entityStep (wrapFuel : nat) (dt : N) (l : list (v2 Z)) : forall w : World N,
  (forall q, In q l -> inBounds (gameState w) q) ->
  foldOutcome (bodyAt gameState (updateEntity wrapFuel dt)) l w
  = foldOutcome (entityStep wrapFuel dt) l w.
Proof.
  induction l as [|p l IH]; intros w Hin; [reflexivity|].
  cbn [foldOutcome]. unfold bodyAt at 1.
  rewrite updateEntity_inBounds by (apply Hin; now left).
  destruct (entityStep wrapFuel dt w p) as [w1| |] eqn:Hs; try reflexivity.
  apply IH. intros q Hq.
  apply (configOf_inBounds _ _ q (entityStep_config _ _ _ _ _ Hs)).
  apply Hin. now right.
Qed.

(** A fold of steps leaves the configuration and every cell it does not
    visit as they were. *)
Lemma fold_frame (wrapFuel : nat) (dt : N) (l : list (v2 Z)) : forall w w' : World N,
  foldOutcome (entityStep wrapFuel dt) l w = Ok w' ->
  configOf (gameState w') = configOf (gameState w) /\
  forall j, ~ In j (map (cellIndex (gameState w)) l) ->
    nth_error (storage (entities (gameState w'))) j
    = nth_error (storage (entities (gameState w))) j.
Proof.
  induction l as [|p l IH]; intros w w' H; cbn [foldOutcome] in H.
  - injection H as <-. split; [reflexivity|]. reflexivity.
  - destruct (entityStep wrapFuel dt w p) as [w1| |] eqn:Hs; try discriminate.
    pose proof (entityStep_config _ _ _ _ _ Hs) as Hc.
    destruct (IH _ _ H) as [Hc' Hf]. split; [congruence|].
    intros j Hj. cbn [map In] in Hj.
    rewrite Hf.
    + apply (entityStep_other _ _ _ _ _ _ Hs). tauto.
    + intros Hin. apply Hj. right.
      rewrite (map_ext _ (cellIndex (gameState w))) in Hin; [assumption|].
      intros q. now apply configOf_cellIndex.
Qed.

End Pass.

(** ** Cells and their place in the order *)

Section Cells.
Context {N : Type} {num : Number N}.

Lemma map_add_seq (c a n : nat) : map (fun k => (c + k)%nat) (seq a n) = seq (c + a) n.
Proof.
  revert a; induction n as [|n IH]; intros a; simpl; [reflexivity|].
  f_equal. rewrite IH. f_equal. lia.
Qed.

Lemma rows_cellIndex (w a : Z) (n : nat) :
  0 <= w -> 0 <= a ->
  map (fun q => Z.to_nat (y q * w + x q))
      (flat_map (fun y' => map (fun x' => mkV2 x' y') (zrange 0 (Z.to_nat w)))
                (zrange a n))
  = seq (Z.to_nat a * Z.to_nat w) (n * Z.to_nat w).
Proof.
  intros Hw. revert a. induction n as [|n IH]; intros a Ha; [reflexivity|].
  cbn [zrange flat_map]. rewrite map_app, IH by lia.
  change (S n * Z.to_nat w)%nat with (Z.to_nat w + n * Z.to_nat w)%nat.
  rewrite seq_app. f_equal.
  - rewrite zrange_seq, !map_map. cbn [x y].
    replace (Z.to_nat a * Z.to_nat w)%nat with (Z.to_nat a * Z.to_nat w + 0)%nat at 1
      by lia.
    rewrite <- (map_add_seq (Z.to_nat a * Z.to_nat w) 0 (Z.to_nat w)).
    apply map_ext. intros k. rewrite <- Z2Nat.inj_mul by lia. lia.
  - f_equal. rewrite <- Z2Nat.inj_mul by lia.
    rewrite <- Z2Nat.inj_mul by lia. lia.
Qed.

Lemma rowMajor_cellIndex (gs : GameState N) :
  0 < x (worldDim gs) ->
  map (cellIndex gs) (rowMajor (x (worldDim gs)) (y (worldDim gs)))
  = seq 0 (Z.to_nat (y (worldDim gs)) * Z.to_nat (x (worldDim gs))).
Proof.
  intros Hw. unfold rowMajor, cellIndex.
  now rewrite (rows_cellIndex (x (worldDim gs)) 0) by lia.
Qed.

Lemma cellIndex_inj (gs : GameState N) (p q : v2 Z) :
  inBounds gs p -> inBounds gs q -> cellIndex gs p = cellIndex gs q -> p = q.
Proof.
  unfold inBounds, cellIndex. destruct p as [px py], q as [qx qy]. cbn [x y].
  intros Hp Hq H.
  assert (Hz : py * x (worldDim gs) + px = qy * x (worldDim gs) + qx) by nia.
  assert (py = qy) by nia. subst qy. f_equal. lia.
Qed.

Lemma cellIndex_bound (gs : GameState N) (p : v2 Z) :
  inBounds gs p ->
  (cellIndex gs p < Z.to_nat (y (worldDim gs)) * Z.to_nat (x (worldDim gs)))%nat.
Proof.
  intros Hb. pose proof (inBounds_index gs p Hb). unfold cellIndex.
  unfold inBounds in Hb. nia.
Qed.

(** The cell at [p] is the [cellIndex p]-th position of the order. *)
Lemma rowMajor_nth (gs : GameState N) (p : v2 Z) :
  inBounds gs p ->
  nth_error (rowMajor (x (worldDim gs)) (y (worldDim gs))) (cellIndex gs p) = Some p.
Proof.
  intros Hb.
  assert (Hw : 0 < x (worldDim gs)) by (unfold inBounds in Hb; lia).
  pose proof (rowMajor_cellIndex gs Hw) as Hm.
  pose proof (cellIndex_bound gs p Hb) as Hlt.
  assert (Hn : nth_error (map (cellIndex gs)
                 (rowMajor (x (worldDim gs)) (y (worldDim gs)))) (cellIndex gs p)
               = Some (cellIndex gs p)).
  { rewrite Hm. now rewrite nth_error_seq, (proj2 (Nat.ltb_lt _ _) Hlt). }
  rewrite nth_error_map in Hn.
  destruct (nth_error _ (cellIndex gs p)) as [q|] eqn:Hq; [|discriminate].
  simpl in Hn. injection Hn as Hn. f_equal.
  apply (cellIndex_inj gs); auto.
  apply nth_error_In in Hq. now apply In_rowMajor in Hq.
Qed.

Lemma nth_error_split_at {A : Type} (l : list A) (i : nat) (a : A) :
  nth_error l i = Some a -> l = (firstn i l ++ a :: skipn (S i) l)%list.
Proof.
  revert i; induction l as [|b l IH]; intros [|i] H; simpl in *; try discriminate.
  - now injection H as ->.
  - f_equal. now apply IH.
Qed.

Lemma firstn_seq_min (n start len : nat) :
  firstn n (seq start len) = seq start (Nat.min n len).
Proof.
  revert start len; induction n as [|n IH]; intros start [|len]; simpl; auto.
  now rewrite IH.
Qed.

Lemma before_cellIndex (gs : GameState N) (f : v2 Z -> bool) (i j : nat) :
  0 < x (worldDim gs) ->
  In j (map (cellIndex gs)
          (filter f (firstn i (rowMajor (x (worldDim gs)) (y (worldDim gs)))))) ->
  (j < i)%nat.
Proof.
  intros Hw Hin. apply in_map_iff in Hin. destruct Hin as (q & <- & Hq).
  apply filter_In in Hq. destruct Hq as [Hq _].
  apply (in_map (cellIndex gs)) in Hq.
  rewrite <- firstn_map, (rowMajor_cellIndex gs Hw), firstn_seq_min in Hq.
  apply in_seq in Hq. lia.
Qed.

Lemma after_cellIndex (gs : GameState N) (f : v2 Z -> bool) (i j : nat) :
  0 < x (worldDim gs) ->
  In j (map (cellIndex gs)
          (filter f (skipn i (rowMajor (x (worldDim gs)) (y (worldDim gs)))))) ->
  (i <= j)%nat.
Proof.
  intros Hw Hin. apply in_map_iff in Hin. destruct Hin as (q & <- & Hq).
  apply filter_In in Hq. destruct Hq as [Hq _].
  apply (in_map (cellIndex gs)) in Hq.
  rewrite <- skipn_map, (rowMajor_cellIndex gs Hw), skipn_seq in Hq.
  apply in_seq in Hq. lia.
Qed.

Lemma occupiedPositions_rowMajor (gs : GameState N) :
  0 < x (worldDim gs) -> 0 < y (worldDim gs) ->
  occupiedPositions gs
  = filter (isNonNull gs) (rowMajor (x (worldDim gs)) (y (worldDim gs))).
Proof.
  intros Hw Hh. unfold occupiedPositions, visited.
  rewrite <- pending_begin_rowMajor by assumption. now destruct (worldDim gs).
Qed.

Lemma occupiedPositions_inBounds (gs : GameState N) (q : v2 Z) :
  0 < x (worldDim gs) -> 0 < y (worldDim gs) ->
  In q (occupiedPositions gs) -> inBounds gs q.
Proof.
  intros Hw Hh Hq. rewrite occupiedPositions_rowMajor in Hq by assumption.
  apply filter_In in Hq. now apply In_rowMajor.
Qed.

(** The occupied positions, split at an occupied cell. *)
Lemma occupiedPositions_split (gs : GameState N) (p : v2 Z) :
  inBounds gs p -> isNonNull gs p = true ->
  occupiedPositions gs
  = (filter (isNonNull gs)
       (firstn (cellIndex gs p) (rowMajor (x (worldDim gs)) (y (worldDim gs))))
     ++ p :: filter (isNonNull gs)
               (skipn (S (cellIndex gs p))
                      (rowMajor (x (worldDim gs)) (y (worldDim gs)))))%list.
Proof.
  intros Hb Hk.
  rewrite occupiedPositions_rowMajor by (unfold inBounds in Hb; lia).
  rewrite (nth_error_split_at _ _ _ (rowMajor_nth gs p Hb)) at 1.
  rewrite filter_app. cbn [filter]. now rewrite Hk.
Qed.

Lemma isNonNull_inBounds (gs : GameState N) (p : v2 Z) (e : Entity N) :
  inBounds gs p ->
  nth_error (storage (entities gs)) (cellIndex gs p) = Some e ->
  isNonNull gs p = negb (kind e =? EntityKind.None).
Proof.
  intros Hb He. unfold isNonNull, handleKindIsNone.
  rewrite (handle_inBounds gs p Hb), He. cbn [entity deref]. now rewrite He.
Qed.

End Cells.

(** ** The state an entity is updated in *)

Section SameTick.
Context {N : Type} {num : Number N}.

(** A run of the update pass on a grid is a fold of [entityStep]. *)
Lemma updateEntities_steps (fuel wrapFuel : nat) (dt : N) (w w' : World N) :
  0 < x (worldDim (gameState w)) -> 0 < y (worldDim (gameState w)) ->
  updateEntities fuel wrapFuel dt w = Ok w' ->
  foldOutcome (entityStep wrapFuel dt) (occupiedPositions (gameState w)) w = Ok w'.
Proof.
  intros Hw Hh Hr. apply updateEntities_fold in Hr; [|discriminate].
  rewrite fold_entityStep in Hr; [now symmetry|].
  intros q Hq. now apply occupiedPositions_inBounds.
Qed.

(** When the pass reaches an occupied cell, every earlier cell holds its
    final value and the cell itself and every later cell still hold their
    initial value; the cell then gets the rate of the rules and the wrapped,
    advanced cycle progress, and keeps them to the end of the pass. *)
Lemma pass_at (wrapFuel : nat) (dt : N) (w w' : World N) (p : v2 Z) (e : Entity N) :
  inBounds (gameState w) p ->
  nth_error (storage (entities (gameState w))) (cellIndex (gameState w) p) = Some e ->
  kind e <> EntityKind.None ->
  foldOutcome (entityStep wrapFuel dt) (occupiedPositions (gameState w)) w = Ok w' ->
  exists (w1 : World N) (c : N),
    configOf (gameState w1) = configOf (gameState w) /\
    (forall j, (cellIndex (gameState w) p <= j)%nat ->
       nth_error (storage (entities (gameState w1))) j
       = nth_error (storage (entities (gameState w))) j) /\
    (forall j, (j < cellIndex (gameState w) p)%nat ->
       nth_error (storage (entities (gameState w1))) j
       = nth_error (storage (entities (gameState w'))) j) /\
    wrapCycleProgress wrapFuel (cycleProgress e) = Some c /\
    nth_error (storage (entities (gameState w'))) (cellIndex (gameState w) p)
    = Some (mkEntity (kind e) (ruleRate (gameState w1) p e)
              (c + dt / referenceCycleDuration (gameState w)
                   * ruleRate (gameState w1) p e)%num).
Proof.
  intros Hb He Hk Hf. set (gs := gameState w) in *. set (i := cellIndex gs p) in *.
  assert (Hw : 0 < x (worldDim gs)) by (unfold inBounds in Hb; lia).
  assert (Hnn : isNonNull gs p = true).
  { rewrite (isNonNull_inBounds gs p e Hb He). apply negb_true_iff.
    now apply Z.eqb_neq. }
  rewrite (occupiedPositions_split gs p Hb Hnn) in Hf. fold i in Hf.
  rewrite foldOutcome_app in Hf.
  destruct (foldOutcome (entityStep wrapFuel dt) _ w) as [w1| |] eqn:H1;
    try discriminate.
  cbn [bind foldOutcome] in Hf.
  destruct (entityStep wrapFuel dt w1 p) as [w2| |] eqn:H2; try discriminate.
  destruct (fold_frame _ _ _ _ _ H1) as [Hc1 Hf1]. fold gs in Hc1, Hf1.
  destruct (fold_frame _ _ _ _ _ Hf) as [Hc3 Hf3].
  pose proof (entityStep_config _ _ _ _ _ H2) as Hc2.
  assert (Hi1 : cellIndex (gameState w1) p = i) by now apply configOf_cellIndex.
  assert (Hbefore : forall j, (i <= j)%nat ->
            nth_error (storage (entities (gameState w1))) j
            = nth_error (storage (entities gs)) j).
  { intros j Hj. apply Hf1. intros Hin.
    apply before_cellIndex in Hin; [lia|assumption]. }
  assert (Hafter : forall j, j <> i ->  (j <= i)%nat ->
            nth_error (storage (entities (gameState w'))) j
            = nth_error (storage (entities (gameState w2))) j).
  { intros j Hne Hj. apply Hf3. intros Hin.
    rewrite (map_ext _ (cellIndex gs)) in Hin
      by (intros q; apply configOf_cellIndex; congruence).
    apply after_cellIndex in Hin; [lia|assumption]. }
  assert (Hfinal : nth_error (storage (entities (gameState w'))) i
                   = nth_error (storage (entities (gameState w2))) i).
  { apply Hf3. intros Hin.
    rewrite (map_ext _ (cellIndex gs)) in Hin
      by (intros q; apply configOf_cellIndex; congruence).
    apply after_cellIndex in Hin; [lia|assumption]. }
  exists w1. apply entityStep_inv in H2. destruct H2 as (e1 & c & He1 & Hc & ->).
  rewrite Hi1 in *. rewrite (Hbefore i (Nat.le_refl i)), He in He1.
  injection He1 as <-. exists c.
  split; [exact Hc1|]. split; [exact Hbefore|]. split; [|split; [exact Hc|]].
  - intros j Hj. rewrite Hafter by lia. symmetry. apply worldAfter_other. lia.
  - rewrite Hfinal, worldAfter_at by (now rewrite (Hbefore i (Nat.le_refl i))).
    unfold configOf in Hc1. injection Hc1 as _ _ _ Hr _ _ _. now rewrite Hr.
Qed.

Lemma wrapCycleProgress_below (fuel : nat) : forall c c' : N,
  wrapCycleProgress fuel c = Some c' -> (c' >=? num_1)%num = false.
Proof.
  induction fuel as [|fuel IH]; intros c c' H; [discriminate|].
  cbn [wrapCycleProgress] in H.
  destruct (c >=? num_1)%num eqn:E.
  - now apply IH in H.
  - now injection H as <-.
Qed.

(** The wrap loop, unrolled: [c'] is [c] with 1 subtracted [k] times, each
    time from a value that was at least 1, and [c'] is not. *)
Lemma wrapCycleProgress_unrolled (fuel : nat) : forall c c' : N,
  wrapCycleProgress fuel c = Some c' ->
  exists k : nat,
    c' = Nat.iter k (fun v => (v - num_1)%num) c /\
    (forall j, (j < k)%nat ->
       (Nat.iter j (fun v => (v - num_1)%num) c >=? num_1)%num = true) /\
    (c' >=? num_1)%num = false.
Proof.
  induction fuel as [|fuel IH]; intros c c' H; [discriminate|].
  cbn [wrapCycleProgress] in H.
  destruct (c >=? num_1)%num eqn:E.
  - destruct (IH _ _ H) as (k & Hk & Hj & Hlt). exists (S k).
    split; [|split; [|exact Hlt]].
    + rewrite Hk. exact (Nat.iter_swap k N (fun v => (v - num_1)%num) c).
    + intros [|j] Hlt'; [exact E|].
      rewrite <- (Nat.iter_swap j N (fun v => (v - num_1)%num) c : _ = Nat.iter (S j) _ c).
      apply Hj. lia.
  - injection H as <-. exists O. split; [reflexivity|]. split; [lia|exact E].
Qed.

(** The cycle progress an occupied entity ends a tick with. *)
Lemma wrap_then_add (fuel : nat) (dt : N) (w w' : World N) (p : v2 Z)
    (e : Entity N) :
  gameUpdateAndRender fuel w dt = Ok w' ->
  inBounds (gameState w) p ->
  entityAt (gameState w) p = Some e ->
  kind e <> EntityKind.None ->
  exists (e' : Entity N) (c : N) (k : nat),
    entityAt (gameState w') p = Some e' /\
    c = Nat.iter k (fun v => (v - num_1)%num) (cycleProgress e) /\
    (forall j, (j < k)%nat ->
       (Nat.iter j (fun v => (v - num_1)%num) (cycleProgress e) >=? num_1)%num = true) /\
    (c >=? num_1)%num = false /\
    cycleProgress e'
    = (c + dt / referenceCycleDuration (gameState w) * currentRate e')%num.
Proof.
  intros Hr Hb He Hk. unfold gameUpdateAndRender in Hr.
  assert (Hw : 0 < x (worldDim (gameState w)) /\ 0 < y (worldDim (gameState w)))
    by (unfold inBounds in Hb; lia).
  apply updateEntities_steps in Hr; try tauto.
  rewrite entityAt_inBounds in He by assumption.
  destruct (pass_at _ _ _ _ _ _ Hb He Hk Hr) as (w1 & c & Hc1 & _ & _ & Hc & Hfin).
  destruct (wrapCycleProgress_unrolled _ _ _ Hc) as (k & Hk1 & Hk2 & Hk3).
  destruct (fold_frame _ _ _ _ _ Hr) as [Hc' _].
  eexists. exists c, k. split; [|split; [exact Hk1|split; [exact Hk2|split; [exact Hk3|]]]].
  - rewrite entityAt_inBounds
      by (now apply (configOf_inBounds _ _ p Hc')).
    rewrite (configOf_cellIndex _ _ p Hc'). exact Hfin.
  - reflexivity.
Qed.

End SameTick.

(** ** What the update pass leaves alone *)

Section Frame.
Context {N : Type} {num : Number N}.

Lemma writesOnly_refl (i : nat) (gs : GameState N) : writesOnly i gs gs.
Proof. split; auto. Qed.

Lemma writesOnly_trans (i : nat) (a b c : GameState N) :
  writesOnly i a b -> writesOnly i b c -> writesOnly i a c.
Proof.
  intros [H1 H2] [H3 H4]. split; [congruence|].
  intros j Hj. now rewrite H4, H2.
Qed.

Lemma setCurrentRate_writesOnly (gs : GameState N) (i : nat) (r : N) :
  writesOnly i gs (setCurrentRate gs i r).
Proof.
  split; [reflexivity|]. intros j Hj. simpl. apply nth_error_updateAt_ne. congruence.
Qed.

Lemma setCycleProgress_writesOnly (gs : GameState N) (i : nat) (c : N) :
  writesOnly i gs (setCycleProgress gs i c).
Proof.
  split; [reflexivity|]. intros j Hj. simpl. apply nth_error_updateAt_ne. congruence.
Qed.

Lemma startWorkingConditionally_writesOnly (gs gs' : GameState N) (h : EntityHandle)
    (i : nat) (condition : Z) (efficiency : N) :
  entity h = ref i ->
  startWorkingConditionally gs h condition efficiency = Ok gs' ->
  writesOnly i gs gs'.
Proof.
  unfold startWorkingConditionally. intros ->.
  destruct (entity (getEntityHandleAtPos _ _)) as [| |j]; try discriminate.
  - intros H. injection H as <-. apply setCurrentRate_writesOnly.
  - destruct (deref _ _) as [l|]; [|discriminate].
    destruct (kind l =? condition); intros H; injection H as <-.
    + eapply writesOnly_trans; apply setCurrentRate_writesOnly.
    + apply setCurrentRate_writesOnly.
Qed.

Lemma updateRate_writesOnly (dt : N) (w w' : World N) (h : EntityHandle) (i : nat)
    (e : Entity N) :
  entity h = ref i ->
  updateRate dt w h i e = Ok w' -> writesOnly i (gameState w) (gameState w').
Proof.
  unfold updateRate. intros Hh.
  destruct (kind e =? EntityKind.Producer).
  { destruct (startWorkingConditionally _ _ _ _) as [gs1| |] eqn:Hs; try discriminate.
    destruct (deref gs1 (ref i)); [|discriminate].
    intros H. injection H as <-.
    apply (startWorkingConditionally_writesOnly _ _ _ i) in Hs; [|assumption].
    destruct Hs as [H1 H2]. split; assumption. }
  destruct (kind e =? EntityKind.Motor).
  { destruct (startWorkingConditionally _ _ _ _) as [gs1| |] eqn:Hs; try discriminate.
    intros H. injection H as <-.
    now apply (startWorkingConditionally_writesOnly _ _ _ i) in Hs. }
  destruct (kind e =? EntityKind.Generator); intros H; injection H as <-.
  - apply setCurrentRate_writesOnly.
  - apply writesOnly_refl.
Qed.

(** The loop body writes the entity its handle refers to, and that entity
    is stored. *)
Lemma updateEntity_writesOnly (wrapFuel : nat) (dt : N) (w : World N)
    (it : EntityIterator) (w' : World N) :
  updateEntity wrapFuel dt w it = Ok w' ->
  exists h i e,
    handle it = Some h /\ entity h = ref i /\
    nth_error (storage (entities (gameState w))) i = Some e /\
    writesOnly i (gameState w) (gameState w').
Proof.
  unfold updateEntity.
  destruct (handle it) as [h|]; [|discriminate].
  destruct (entity h) as [| |i] eqn:Hh; try discriminate.
  destruct (deref (gameState w) (ref i)) as [e|] eqn:He; [|discriminate].
  destruct (updateRate dt w h i e) as [w1| |] eqn:Hr; try discriminate.
  destruct (deref (gameState w1) (ref i)) as [e1|]; [|discriminate].
  destruct (wrapCycleProgress wrapFuel (cycleProgress e1)); [|discriminate].
  intros H. injection H as <-. exists h, i, e. repeat split; auto.
  - apply updateRate_writesOnly in Hr; [|assumption]. destruct Hr as [Hc _].
    exact Hc.
  - intros j Hj. apply updateRate_writesOnly in Hr; [|assumption].
    destruct Hr as [_ Hf]. rewrite <- (Hf j Hj).
    cbn [gameState]. now apply setCycleProgress_writesOnly.
Qed.

Lemma fold_body_frame (wrapFuel : nat) (dt : N) (l : list (v2 Z)) : forall w w' : World N,
  (forall q, In q l -> isNonNull (gameState w) q = true) ->
  foldOutcome (bodyAt gameState (updateEntity wrapFuel dt)) l w = Ok w' ->
  configOf (gameState w') = configOf (gameState w) /\
  sameGrid (gameState w) (gameState w') /\
  forall j e, nth_error (storage (entities (gameState w))) j = Some e ->
              kind e = EntityKind.None ->
              nth_error (storage (entities (gameState w'))) j = Some e.
Proof.
  induction l as [|p l IH]; intros w w' Hnn H; cbn [foldOutcome] in H.
  - injection H as <-. split; [reflexivity|]. split; [apply sameGrid_refl|]. auto.
  - unfold bodyAt at 1 in H.
    destruct (updateEntity wrapFuel dt w (iteratorAt (gameState w) p)) as [w1| |] eqn:Hs;
      try discriminate.
    pose proof (updateEntity_sameGrid _ _ _ _ _ Hs) as Hg.
    destruct (updateEntity_writesOnly _ _ _ _ _ Hs) as (hd & i & ei & Hh & Hr & Hei & Hc & Hf).
    cbn [iteratorAt handle] in Hh. injection Hh as <-.
    assert (Hki : kind ei <> EntityKind.None).
    { pose proof (Hnn p (or_introl eq_refl)) as Hp.
      unfold isNonNull, handleKindIsNone in Hp. rewrite Hr in Hp.
      cbn [deref] in Hp. rewrite Hei in Hp.
      apply negb_true_iff, Z.eqb_neq in Hp. exact Hp. }
    destruct (IH w1 w') as (Hc' & Hg' & Hn'); auto.
    + intros q Hq. rewrite (sameGrid_isNonNull _ _ q Hg). apply Hnn. now right.
    + split; [congruence|]. split; [eapply sameGrid_trans; eauto|].
      intros j e Hj Hk. apply Hn'; [|assumption].
      rewrite Hf; [assumption|]. intros ->. congruence.
Qed.

Lemma tick_frame (fuel : nat) (dt : N) (w w' : World N) :
  gameUpdateAndRender fuel w dt = Ok w' ->
  configOf (gameState w') = configOf (gameState w) /\
  map kind (storage (entities (gameState w')))
  = map kind (storage (entities (gameState w))) /\
  length (storage (entities (gameState w'))) = length (storage (entities (gameState w))) /\
  forall j e, nth_error (storage (entities (gameState w))) j = Some e ->
              kind e = EntityKind.None ->
              nth_error (storage (entities (gameState w'))) j = Some e.
Proof.
  unfold gameUpdateAndRender. intros Hr.
  apply updateEntities_fold in Hr; [|discriminate]. symmetry in Hr.
  apply fold_body_frame in Hr.
  - destruct Hr as (Hc & Hg & Hn). split; [exact Hc|]. split; [apply Hg|].
    split; [now apply sameGrid_length|exact Hn].
  - intros q Hq. unfold occupiedPositions, visited in Hq.
    now apply filter_In in Hq.
Qed.

End Frame.

(** ** Rates *)

Section Rates.
Context {N : Type} {num : Number N}.

Lemma leftRate_agree (gs gs' : GameState N) (p : v2 Z) (condition : Z) (efficiency : N) :
  entityAt gs' (mkV2 (x p - 1) (y p)) = entityAt gs (mkV2 (x p - 1) (y p)) ->
  leftRate gs' p condition efficiency = leftRate gs p condition efficiency.
Proof. unfold leftRate. now intros ->. Qed.

(** After a tick every occupied entity has the rate that the rules give in
    the final state: what it read from its left neighbour is the rate the
    neighbour ends the tick with. *)
Lemma rates_follow_rules (fuel : nat) (dt : N) (w w' : World N) (p : v2 Z)
    (e : Entity N) :
  gameUpdateAndRender fuel w dt = Ok w' ->
  inBounds (gameState w) p ->
  entityAt (gameState w) p = Some e ->
  kind e <> EntityKind.None ->
  exists e' : Entity N,
    entityAt (gameState w') p = Some e' /\
    kind e' = kind e /\
    currentRate e' = ruleRate (gameState w') p (mkEntity (kind e) (currentRate e)
                                                   (cycleProgress e')).
Proof.
  intros Hr Hb He Hk. unfold gameUpdateAndRender in Hr.
  assert (Hw : 0 < x (worldDim (gameState w)) /\ 0 < y (worldDim (gameState w)))
    by (unfold inBounds in Hb; lia).
  apply updateEntities_steps in Hr; try tauto.
  rewrite entityAt_inBounds in He by assumption.
  destruct (pass_at _ _ _ _ _ _ Hb He Hk Hr) as (w1 & c & Hc1 & _ & Hearlier & _ & Hfin).
  destruct (fold_frame _ _ _ _ _ Hr) as [Hc' _].
  eexists. split; [|split].
  - rewrite entityAt_inBounds by (now apply (configOf_inBounds _ _ p Hc')).
    rewrite (configOf_cellIndex _ _ p Hc'). exact Hfin.
  - reflexivity.
  - cbn [currentRate cycleProgress]. unfold ruleRate. cbn [kind currentRate].
    assert (Hleft : entityAt (gameState w1) (mkV2 (x p - 1) (y p))
                    = entityAt (gameState w') (mkV2 (x p - 1) (y p))).
    { destruct (inBounds_dec (gameState w) (mkV2 (x p - 1) (y p))) as [Hl|Hl].
      - rewrite !entityAt_inBounds
          by (first [now apply (configOf_inBounds _ _ _ Hc1)
                    |now apply (configOf_inBounds _ _ _ Hc')]).
        rewrite (configOf_cellIndex _ _ _ Hc1), (configOf_cellIndex _ _ _ Hc').
        apply Hearlier. pose proof (cellIndex_left _ _ Hb Hl). lia.
      - rewrite !entityAt_outOfBounds; auto.
        + intros H. apply Hl. now apply (configOf_inBounds _ _ _ Hc').
        + intros H. apply Hl. now apply (configOf_inBounds _ _ _ Hc1). }
    rewrite !(leftRate_agree (gameState w1) (gameState w') p) by (now symmetry).
    rewrite (configOf_generatorActive (gameState w') (gameState w1))
      by congruence.
    reflexivity.
Qed.

(** The chain Generator, Motor, Producer on three cells in a row. *)
Lemma rate_cascade (fuel : nat) (dt : N) (w w' : World N) (cx cy : Z)
    (g m pr : Entity N) :
  gameUpdateAndRender fuel w dt = Ok w' ->
  0 <= cx -> cx + 2 < x (worldDim (gameState w)) ->
  0 <= cy < y (worldDim (gameState w)) ->
  entityAt (gameState w) (mkV2 cx cy) = Some g -> kind g = EntityKind.Generator ->
  entityAt (gameState w) (mkV2 (cx + 1) cy) = Some m -> kind m = EntityKind.Motor ->
  entityAt (gameState w) (mkV2 (cx + 2) cy) = Some pr -> kind pr = EntityKind.Producer ->
  exists g' m' pr' : Entity N,
    entityAt (gameState w') (mkV2 cx cy) = Some g' /\
    entityAt (gameState w') (mkV2 (cx + 1) cy) = Some m' /\
    entityAt (gameState w') (mkV2 (cx + 2) cy) = Some pr' /\
    currentRate g' = (if generatorActive (gameState w) (mkV2 cx cy)
                      then num_1 else num_0) /\
    currentRate m' = (currentRate g' * num_0_5)%num /\
    currentRate pr' = (currentRate m' * num_0_8)%num.
Proof.
  intros Hr Hx0 Hx2 Hy Hg Kg Hm Km Hp Kp.
  assert (Hc : configOf (gameState w') = configOf (gameState w)).
  { now apply (tick_frame fuel dt w w'). }
  destruct (rates_follow_rules fuel dt w w' (mkV2 cx cy) g Hr) as (g' & Hg' & Kg' & Rg);
    [unfold inBounds; cbn [x y]; lia|assumption|rewrite Kg; discriminate|].
  destruct (rates_follow_rules fuel dt w w' (mkV2 (cx + 1) cy) m Hr)
    as (m' & Hm' & Km' & Rm);
    [unfold inBounds; cbn [x y]; lia|assumption|rewrite Km; discriminate|].
  destruct (rates_follow_rules fuel dt w w' (mkV2 (cx + 2) cy) pr Hr)
    as (pr' & Hp' & Kp' & Rp);
    [unfold inBounds; cbn [x y]; lia|assumption|rewrite Kp; discriminate|].
  exists g', m', pr'. repeat (split; [assumption|]).
  unfold ruleRate, leftRate in Rg, Rm, Rp. cbn [kind x y] in Rg, Rm, Rp.
  rewrite Kg in Rg. rewrite Km in Rm. rewrite Kp in Rp.
  cbn in Rg, Rm, Rp.
  replace (cx + 1 - 1) with cx in Rm by lia.
  replace (cx + 2 - 1) with (cx + 1) in Rp by lia.
  rewrite Hg', Kg', Kg in Rm. rewrite Hm', Km', Km in Rp.
  cbn in Rm, Rp.
  rewrite (configOf_generatorActive _ _ _ Hc) in Rg.
  repeat split; assumption.
Qed.

End Rates.

(** ** The console and the running total *)

Section Outputs.
Context {N : Type} {num : Number N}.

Lemma sameGrid_kindAt (gs gs' : GameState N) (p : v2 Z) :
  sameGrid gs gs' -> kindAt gs' p = kindAt gs p.
Proof.
  intros H. unfold kindAt, entityAt. rewrite (sameGrid_handle gs gs' p H).
  destruct (entity (getEntityHandleAtPos gs p)) as [| |i]; try reflexivity.
  apply (sameGrid_kind gs gs' i H).
Qed.

Lemma entityStep_sameGrid (wrapFuel : nat) (dt : N) (w : World N) (p : v2 Z)
    (w' : World N) :
  entityStep wrapFuel dt w p = Ok w' -> sameGrid (gameState w) (gameState w').
Proof.
  intros H. apply entityStep_inv in H. destruct H as (e & c & He & _ & ->).
  now apply worldAfter_sameGrid.
Qed.

Lemma fold_console (wrapFuel : nat) (dt : N) (l : list (v2 Z)) : forall w w' : World N,
  (forall q, In q l -> inBounds (gameState w) q) ->
  foldOutcome (entityStep wrapFuel dt) l w = Ok w' ->
  console w' = (console w ++ diagnostics (gameState w) l)%list.
Proof.
  induction l as [|p l IH]; intros w w' Hin H; cbn [foldOutcome] in H.
  - injection H as <-. unfold diagnostics. simpl. now rewrite app_nil_r.
  - destruct (entityStep wrapFuel dt w p) as [w1| |] eqn:Hs; try discriminate.
    pose proof (entityStep_sameGrid _ _ _ _ _ Hs) as Hg.
    pose proof (entityStep_config _ _ _ _ _ Hs) as Hc.
    rewrite (IH w1 w') by
      (auto; intros q Hq; apply (configOf_inBounds _ _ q Hc); apply Hin; now right).
    apply entityStep_inv in Hs. destruct Hs as (e & c & He & _ & ->).
    unfold diagnostics. cbn [flat_map].
    rewrite (flat_map_ext _ (diagnostic (gameState w)))
      by (intros q; unfold diagnostic; now rewrite (sameGrid_kindAt _ _ q Hg)).
    unfold diagnostic at 2, kindAt.
    rewrite entityAt_inBounds, He by (apply Hin; now left).
    cbn [option_map worldAfter console].
    destruct (isKnownKind (kind e)); [reflexivity|].
    now rewrite <- app_assoc.
Qed.

Lemma NoDup_map_filter {A B : Type} (g : A -> B) (f : A -> bool) (l : list A) :
  NoDup (map g l) -> NoDup (map g (filter f l)).
Proof.
  induction l as [|a l IH]; simpl; intros H; [constructor|].
  inversion H as [|b l' Hn Hd]; subst.
  destruct (f a); [|auto]. simpl. constructor; [|auto].
  intros Hin. apply Hn. apply in_map_iff in Hin. destruct Hin as (q & Hq & Hin).
  apply filter_In in Hin. apply in_map_iff. exists q. tauto.
Qed.

Lemma occupiedPositions_NoDup (gs : GameState N) :
  0 < x (worldDim gs) -> 0 < y (worldDim gs) ->
  NoDup (map (cellIndex gs) (occupiedPositions gs)).
Proof.
  intros Hw Hh. rewrite occupiedPositions_rowMajor by assumption.
  apply NoDup_map_filter. rewrite rowMajor_cellIndex by assumption. apply seq_NoDup.
Qed.

Lemma sameGrid_isProducerAt (gs gs' : GameState N) (p : v2 Z) :
  sameGrid gs gs' -> isProducerAt gs' p = isProducerAt gs p.
Proof. intros H. unfold isProducerAt. now rewrite (sameGrid_kindAt gs gs' p H). Qed.


(** A tick on a grid never dereferences [null] or [undefined]. *)
Lemma fold_no_TypeError (wrapFuel : nat) (dt : N) (l : list (v2 Z)) : forall w : World N,
  isGrid (gameState w) ->
  (forall q, In q l -> inBounds (gameState w) q) ->
  foldOutcome (entityStep wrapFuel dt) l w <> TypeError.
Proof.
  induction l as [|p l IH]; intros w Hg Hin; cbn [foldOutcome]; [discriminate|].
  destruct (entityStep wrapFuel dt w p) as [w1| |] eqn:Hs; try discriminate.
  - pose proof (entityStep_sameGrid _ _ _ _ _ Hs) as Hsg.
    pose proof (entityStep_config _ _ _ _ _ Hs) as Hc.
    apply IH.
    + unfold isGrid. rewrite (sameGrid_length _ _ Hsg), (configOf_worldDim _ _ Hc).
      exact Hg.
    + intros q Hq. apply (configOf_inBounds _ _ q Hc). apply Hin. now right.
  - exfalso. unfold entityStep in Hs.
    destruct (nth_error _ _) as [e|] eqn:He.
    + destruct (wrapCycleProgress _ _); discriminate.
    + apply nth_error_None in He. unfold isGrid in Hg.
      pose proof (cellIndex_bound _ p (Hin p (or_introl eq_refl))) as Hb.
      rewrite Hg in He. rewrite Z2Nat.inj_mul in He; [lia| |].
      * pose proof (Hin p (or_introl eq_refl)) as Hp. unfold inBounds in Hp. lia.
      * pose proof (Hin p (or_introl eq_refl)) as Hp. unfold inBounds in Hp. lia.
Qed.

Lemma tick_no_TypeError (fuel : nat) (dt : N) (w : World N) :
  isGrid (gameState w) ->
  0 < x (worldDim (gameState w)) -> 0 < y (worldDim (gameState w)) ->
  gameUpdateAndRender fuel w dt <> TypeError.
Proof.
  intros Hg Hw Hh Hr. unfold gameUpdateAndRender in Hr.
  apply updateEntities_fold in Hr; [|discriminate]. symmetry in Hr.
  rewrite fold_entityStep in Hr by (intros q Hq; now apply occupiedPositions_inBounds).
  revert Hr. apply fold_no_TypeError; [assumption|].
  intros q Hq. now apply occupiedPositions_inBounds.
Qed.

End Outputs.

(** ** Termination *)

Section Termination.
Context {N : Type} {num : Number N}.

Lemma wrapCycleProgress_more_fuel (n : nat) : forall (m : nat) (c c' : N),
  (n <= m)%nat -> wrapCycleProgress n c = Some c' -> wrapCycleProgress m c = Some c'.
Proof.
  induction n as [|n IH]; intros m c c' Hle H; [discriminate|].
  destruct m as [|m]; [lia|]. cbn [wrapCycleProgress] in *.
  destruct (c >=? num_1)%num; [|assumption]. apply (IH m); [lia|assumption].
Qed.

(** One amount of fuel that is enough for the wrap loop of every occupied
    entity of a storage whose wrap loops all end. *)
Lemma wrap_fuel_bound (st : list (Entity N)) :
  (forall e, In e st -> kind e <> EntityKind.None ->
     exists n c, wrapCycleProgress n (cycleProgress e) = Some c) ->
  exists F, forall e, In e st -> kind e <> EntityKind.None ->
     forall n, (F <= n)%nat -> exists c, wrapCycleProgress n (cycleProgress e) = Some c.
Proof.
  induction st as [|a st IH]; intros H.
  - exists O. intros e [].
  - destruct IH as [F HF]; [intros e He; apply H; now right|].
    destruct (Z.eq_dec (kind a) EntityKind.None) as [Hk|Hk].
    + exists F. intros e [<-|He] Hne; [contradiction|now apply HF].
    + destruct (H a (or_introl eq_refl) Hk) as (n0 & c0 & Hc0).
      exists (Nat.max F n0). intros e [<-|He] Hne n Hn.
      * exists c0. apply (wrapCycleProgress_more_fuel n0); [lia|assumption].
      * apply HF; auto. lia.
Qed.

Lemma fold_no_OutOfFuel (wrapFuel : nat) (dt : N) (l : list (v2 Z)) : forall w : World N,
  (forall q, In q l -> inBounds (gameState w) q) ->
  NoDup (map (cellIndex (gameState w)) l) ->
  (forall q e, In q l ->
     nth_error (storage (entities (gameState w))) (cellIndex (gameState w) q) = Some e ->
     exists c, wrapCycleProgress wrapFuel (cycleProgress e) = Some c) ->
  foldOutcome (entityStep wrapFuel dt) l w <> OutOfFuel.
Proof.
  induction l as [|p l IH]; intros w Hin Hnd Hwrap; cbn [foldOutcome]; [discriminate|].
  destruct (entityStep wrapFuel dt w p) as [w1| |] eqn:Hs; try discriminate.
  - pose proof (entityStep_config _ _ _ _ _ Hs) as Hc.
    cbn [map] in Hnd. inversion Hnd as [|i0 l0 Hnotin Hnd']; subst.
    assert (Hidx : map (cellIndex (gameState w1)) l = map (cellIndex (gameState w)) l).
    { apply map_ext. intros q. now apply configOf_cellIndex. }
    apply IH.
    + intros q Hq. apply (configOf_inBounds _ _ q Hc). apply Hin. now right.
    + now rewrite Hidx.
    + intros q e Hq He. apply (Hwrap q e); [now right|].
      rewrite (configOf_cellIndex _ _ q Hc) in He.
      rewrite <- (entityStep_other _ _ _ _ _ _ Hs); [exact He|].
      intros Heq. apply Hnotin. rewrite Heq. now apply in_map.
  - exfalso. unfold entityStep in Hs.
    destruct (nth_error _ _) as [e|] eqn:He; [|discriminate].
    destruct (Hwrap p e (or_introl eq_refl) He) as [c Hc]. rewrite Hc in Hs.
    discriminate.
Qed.

Lemma updateEntity_outOfBounds (wrapFuel : nat) (dt : N) (w : World N) (p : v2 Z) :
  ~ inBounds (gameState w) p ->
  updateEntity wrapFuel dt w (iteratorAt (gameState w) p) = TypeError.
Proof.
  intros Hb. unfold updateEntity, iteratorAt. cbn [handle].
  now rewrite handle_outOfBounds.
Qed.

(** Off a grid of positive width and height the pass visits nothing or
    stops with a [TypeError] at the first position. *)
Lemma fold_degenerate (wrapFuel : nat) (dt : N) (w : World N) (l : list (v2 Z)) :
  ~ (0 < x (worldDim (gameState w)) /\ 0 < y (worldDim (gameState w))) ->
  foldOutcome (bodyAt gameState (updateEntity wrapFuel dt)) l w
  = match l with
    | [] => Ok w
    | _ :: _ => TypeError
    end.
Proof.
  intros Hd. destruct l as [|p l]; [reflexivity|]. cbn [foldOutcome].
  unfold bodyAt. rewrite updateEntity_outOfBounds; [reflexivity|].
  unfold inBounds. lia.
Qed.


Lemma tick_terminates (dt : N) (w : World N) :
  (forall e, In e (storage (entities (gameState w))) -> kind e <> EntityKind.None ->
     exists n c, wrapCycleProgress n (cycleProgress e) = Some c) ->
  exists fuel, forall fuel', (fuel <= fuel')%nat ->
    gameUpdateAndRender fuel' w dt <> OutOfFuel.
Proof.
  intros Hwrap. destruct (wrap_fuel_bound _ Hwrap) as [F HF].
  set (B := S (S (length (pending (worldDim (gameState w))
                                  (iterPos beginEntityIteration))))).
  exists (Nat.max F B). intros fuel Hfuel. unfold gameUpdateAndRender.
  rewrite updateEntities_enough_fuel by (unfold B in Hfuel; lia).
  destruct (Z_lt_dec 0 (x (worldDim (gameState w)))) as [Hw|Hw];
    [destruct (Z_lt_dec 0 (y (worldDim (gameState w)))) as [Hh|Hh]|].
  - rewrite fold_entityStep by (intros q Hq; now apply occupiedPositions_inBounds).
    apply fold_no_OutOfFuel.
    + intros q Hq. now apply occupiedPositions_inBounds.
    + now apply occupiedPositions_NoDup.
    + intros q e Hq He. apply (HF e).
      * eapply nth_error_In; eauto.
      * pose proof (occupiedPositions_inBounds _ q Hw Hh Hq) as Hb.
        rewrite occupiedPositions_rowMajor in Hq by assumption.
        apply filter_In in Hq. destruct Hq as [_ Hq].
        rewrite (isNonNull_inBounds _ q e Hb He) in Hq.
        apply negb_true_iff, Z.eqb_neq in Hq. exact Hq.
      * lia.
  - rewrite fold_degenerate by lia. destruct (occupiedPositions _); discriminate.
  - rewrite fold_degenerate by lia. destruct (occupiedPositions _); discriminate.
Qed.

(** On a grid, an occupied entity whose wrap loop does not end keeps the
    tick from returning. *)
Lemma tick_stuck (fuel : nat) (dt : N) (w : World N) (p : v2 Z) (e : Entity N) :
  isGrid (gameState w) ->
  inBounds (gameState w) p ->
  entityAt (gameState w) p = Some e ->
  kind e <> EntityKind.None ->
  (forall n, wrapCycleProgress n (cycleProgress e) = None) ->
  gameUpdateAndRender fuel w dt = OutOfFuel.
Proof.
  intros Hg Hb He Hk Hstuck.
  assert (Hw : 0 < x (worldDim (gameState w)) /\ 0 < y (worldDim (gameState w)))
    by (unfold inBounds in Hb; lia).
  destruct (gameUpdateAndRender fuel w dt) as [w'| |] eqn:E; [exfalso|exfalso|reflexivity].
  - unfold gameUpdateAndRender in E. apply updateEntities_steps in E; try tauto.
    rewrite entityAt_inBounds in He by assumption.
    destruct (pass_at _ _ _ _ _ _ Hb He Hk E) as (w1 & c & _ & _ & _ & Hc & _).
    rewrite Hstuck in Hc. discriminate.
  - revert E. apply tick_no_TypeError; tauto.
Qed.

End Termination.

(** ** Positions and indices *)

Section Indices.
Context {N : Type}.

Lemma handle_index (gs : GameState N) (p : v2 Z) :
  inBounds gs p ->
  index (getEntityHandleAtPos gs p) = y p * x (worldDim gs) + x p.
Proof. intros Hb. now rewrite handle_inBounds. Qed.

End Indices.

(** ** The rates a tick leaves *)

Section FinalRates.
Context {N : Type} {num : Number N}.

Lemma entityAt_Some_inBounds (gs : GameState N) (p : v2 Z) (e : Entity N) :
  entityAt gs p = Some e -> inBounds gs p.
Proof.
  intros He. destruct (inBounds_dec gs p) as [Hb|Hb]; [assumption|].
  rewrite entityAt_outOfBounds in He by assumption. discriminate.
Qed.

(** The entity a cell held before a tick, from the one it holds after. *)
Lemma tick_entity_before (fuel : nat) (dt : N) (w w' : World N) (p : v2 Z) (e' : Entity N) :
  gameUpdateAndRender fuel w dt = Ok w' ->
  entityAt (gameState w') p = Some e' ->
  inBounds (gameState w) p /\
  exists e, entityAt (gameState w) p = Some e /\ kind e = kind e'.
Proof.
  intros Hr He'. destruct (tick_frame fuel dt w w' Hr) as (Hc & Hk & _ & _).
  pose proof (entityAt_Some_inBounds _ _ _ He') as Hb'.
  assert (Hb : inBounds (gameState w) p) by now apply (configOf_inBounds _ _ p Hc).
  split; [exact Hb|].
  rewrite entityAt_inBounds in * by assumption.
  rewrite (configOf_cellIndex _ _ p Hc) in He'.
  assert (Hm : nth_error (map kind (storage (entities (gameState w'))))
                 (cellIndex (gameState w) p) = Some (kind e'))
    by (now rewrite nth_error_map, He').
  rewrite Hk, nth_error_map in Hm.
  destruct (nth_error (storage (entities (gameState w))) (cellIndex (gameState w) p))
    as [e|]; [|discriminate].
  exists e. split; [reflexivity|]. simpl in Hm. congruence.
Qed.

(** The state a tick leaves satisfies the rate rules: every occupied
    entity has the rate that its kind, the input and the rate of its left
    neighbour in this very state give. *)
Lemma final_rate (fuel : nat) (dt : N) (w w' : World N) (p : v2 Z) (e' : Entity N) :
  gameUpdateAndRender fuel w dt = Ok w' ->
  entityAt (gameState w') p = Some e' ->
  kind e' <> EntityKind.None ->
  currentRate e' = ruleRate (gameState w') p e'.
Proof.
  intros Hr He' Hk.
  destruct (tick_entity_before fuel dt w w' p e' Hr He') as (Hb & e & He & Hke).
  destruct (rates_follow_rules fuel dt w w' p e Hr Hb He) as (e1 & He1 & _ & Hrate);
    [congruence|].
  rewrite He' in He1. injection He1 as <-.
  unfold ruleRate in *. cbn [kind currentRate] in Hrate. rewrite Hke in Hrate.
  destruct (kind e' =? EntityKind.Producer); [exact Hrate|].
  destruct (kind e' =? EntityKind.Motor); [exact Hrate|].
  destruct (kind e' =? EntityKind.Generator); [exact Hrate|].
  reflexivity.
Qed.

Lemma final_generator_rate (fuel : nat) (dt : N) (w w' : World N) (p : v2 Z)
    (e' : Entity N) :
  gameUpdateAndRender fuel w dt = Ok w' ->
  entityAt (gameState w') p = Some e' ->
  kind e' = EntityKind.Generator ->
  currentRate e' = (if generatorActive (gameState w) p then num_1 else num_0).
Proof.
  intros Hr He' Hk.
  rewrite (final_rate fuel dt w w' p e' Hr He') by (rewrite Hk; discriminate).
  unfold ruleRate. rewrite Hk. cbn.
  destruct (tick_frame fuel dt w w' Hr) as (Hc & _).
  now rewrite (configOf_generatorActive _ _ p Hc).
Qed.

Lemma final_motor_rate (fuel : nat) (dt : N) (w w' : World N) (p : v2 Z)
    (e' : Entity N) :
  gameUpdateAndRender fuel w dt = Ok w' ->
  entityAt (gameState w') p = Some e' ->
  kind e' = EntityKind.Motor ->
  currentRate e' = leftRate (gameState w') p EntityKind.Generator num_0_5.
Proof.
  intros Hr He' Hk.
  rewrite (final_rate fuel dt w w' p e' Hr He') by (rewrite Hk; discriminate).
  unfold ruleRate. rewrite Hk. reflexivity.
Qed.

Lemma final_producer_rate (fuel : nat) (dt : N) (w w' : World N) (p : v2 Z)
    (e' : Entity N) :
  gameUpdateAndRender fuel w dt = Ok w' ->
  entityAt (gameState w') p = Some e' ->
  kind e' = EntityKind.Producer ->
  currentRate e' = leftRate (gameState w') p EntityKind.Motor num_0_8.
Proof.
  intros Hr He' Hk.
  rewrite (final_rate fuel dt w w' p e' Hr He') by (rewrite Hk; discriminate).
  unfold ruleRate. rewrite Hk. reflexivity.
Qed.

(** The rate of a Motor or a Producer whose left neighbour is not its
    feeder. *)
Lemma leftRate_unfed (gs : GameState N) (p : v2 Z) (condition : Z) (efficiency : N) :
  x p = 0 \/ kindAt gs (mkV2 (x p - 1) (y p)) <> Some condition ->
  leftRate gs p condition efficiency = num_0.
Proof.
  intros H. unfold leftRate.
  destruct (entityAt gs (mkV2 (x p - 1) (y p))) as [l|] eqn:El; [|reflexivity].
  destruct (Z.eqb_spec (kind l) condition) as [Hk|Hk]; [|reflexivity].
  exfalso. destruct H as [H|H].
  - apply entityAt_Some_inBounds in El. unfold inBounds in El. cbn [x y] in El. lia.
  - apply H. unfold kindAt. rewrite El. cbn. now rewrite Hk.
Qed.

End FinalRates.

(** ** The values of the rates in binary64 *)

Lemma float_generator_rates (fuel : nat) (dt : float) (w w' : World float) (p : v2 Z)
    (e' : Entity float) :
  gameUpdateAndRender fuel w dt = Ok w' ->
  entityAt (gameState w') p = Some e' ->
  kind e' = EntityKind.Generator ->
  currentRate e' = 1%float \/ currentRate e' = 0%float.
Proof.
  intros Hr He' Hk. rewrite (final_generator_rate fuel dt w w' p e' Hr He' Hk).
  destruct (generatorActive (gameState w) p); [left|right]; reflexivity.
Qed.

Lemma float_motor_rates (fuel : nat) (dt : float) (w w' : World float) (p : v2 Z)
    (e' : Entity float) :
  gameUpdateAndRender fuel w dt = Ok w' ->
  entityAt (gameState w') p = Some e' ->
  kind e' = EntityKind.Motor ->
  currentRate e' = 0.5%float \/ currentRate e' = 0%float.
Proof.
  intros Hr He' Hk. rewrite (final_motor_rate fuel dt w w' p e' Hr He' Hk).
  unfold leftRate.
  destruct (entityAt (gameState w') (mkV2 (x p - 1) (y p))) as [l|] eqn:El;
    [|right; reflexivity].
  destruct (Z.eqb_spec (kind l) EntityKind.Generator) as [Kl|Kl]; [|right; reflexivity].
  destruct (float_generator_rates fuel dt w w' _ l Hr El Kl) as [-> | ->];
    [left|right]; reflexivity.
Qed.

Lemma float_producer_rates (fuel : nat) (dt : float) (w w' : World float) (p : v2 Z)
    (e' : Entity float) :
  gameUpdateAndRender fuel w dt = Ok w' ->
  entityAt (gameState w') p = Some e' ->
  kind e' = EntityKind.Producer ->
  currentRate e' = 0.4%float \/ currentRate e' = 0%float.
Proof.
  intros Hr He' Hk. rewrite (final_producer_rate fuel dt w w' p e' Hr He' Hk).
  unfold leftRate.
  destruct (entityAt (gameState w') (mkV2 (x p - 1) (y p))) as [l|] eqn:El;
    [|right; reflexivity].
  destruct (Z.eqb_spec (kind l) EntityKind.Motor) as [Kl|Kl]; [|right; reflexivity].
  destruct (float_motor_rates fuel dt w w' _ l Hr El Kl) as [-> | ->];
    [left|right]; reflexivity.
Qed.

(** ** Rates do not depend on the past *)

Section Inputs.
Context {N : Type} {num : Number N}.

Lemma sameInput_generatorActive (gs gs' : GameState N) (p : v2 Z) :
  sameInput gs gs' -> generatorActive gs' p = generatorActive gs p.
Proof.
  intros (H1 & H2 & H3). unfold generatorActive, isCursorOver. now rewrite H1, H2, H3.
Qed.

Lemma tick_sameGrid (fuel : nat) (dt : N) (w w' : World N) :
  gameUpdateAndRender fuel w dt = Ok w' -> sameGrid (gameState w) (gameState w').
Proof.
  intros Hr. destruct (tick_frame fuel dt w w' Hr) as (Hc & Hk & _).
  split; [now apply configOf_worldDim|exact Hk].
Qed.

Lemma tick_sameInput (fuel : nat) (dt : N) (w w' : World N) :
  gameUpdateAndRender fuel w dt = Ok w' -> sameInput (gameState w) (gameState w').
Proof.
  intros Hr. destruct (tick_frame fuel dt w w' Hr) as (Hc & _).
  unfold configOf in Hc. injection Hc as _ _ H3 _ H5 _ H7. now repeat split.
Qed.

Lemma sameGrid_entityAt (gs gs' : GameState N) (p : v2 Z) (e : Entity N) :
  sameGrid gs gs' -> entityAt gs p = Some e ->
  exists e', entityAt gs' p = Some e' /\ kind e' = kind e.
Proof.
  intros Hg He. pose proof (sameGrid_kindAt gs gs' p Hg) as Hk.
  unfold kindAt in Hk. rewrite He in Hk.
  destruct (entityAt gs' p) as [e'|]; [|discriminate].
  exists e'. split; [reflexivity|]. cbn in Hk. congruence.
Qed.

Section TwoTicks.
Variables (fuelA fuelB : nat) (dtA dtB : N) (wa wa' wb wb' : World N).
Hypothesis tickA : gameUpdateAndRender fuelA wa dtA = Ok wa'.
Hypothesis tickB : gameUpdateAndRender fuelB wb dtB = Ok wb'.
Hypothesis same_grid : sameGrid (gameState wa) (gameState wb).
Hypothesis same_input : sameInput (gameState wa) (gameState wb).

Lemma finals_sameGrid : sameGrid (gameState wa') (gameState wb').
Proof.
  apply sameGrid_trans with (gameState wa);
    [apply sameGrid_sym; now apply (tick_sameGrid fuelA dtA)|].
  apply sameGrid_trans with (gameState wb); [assumption|].
  now apply (tick_sameGrid fuelB dtB).
Qed.

Lemma generators_agree (p : v2 Z) (ea eb : Entity N) :
  entityAt (gameState wa') p = Some ea -> entityAt (gameState wb') p = Some eb ->
  kind ea = EntityKind.Generator -> currentRate ea = currentRate eb.
Proof.
  intros Ha Hb Ka.
  assert (Kb : kind eb = EntityKind.Generator).
  { destruct (sameGrid_entityAt _ _ p ea finals_sameGrid Ha) as (e & He & Hk). congruence. }
  rewrite (final_generator_rate _ _ _ _ p ea tickA Ha Ka).
  rewrite (final_generator_rate _ _ _ _ p eb tickB Hb Kb).
  now rewrite (sameInput_generatorActive _ _ p same_input).
Qed.

Lemma leftRates_agree (p : v2 Z) (condition : Z) (efficiency : N) :
  (forall q ea eb, entityAt (gameState wa') q = Some ea ->
     entityAt (gameState wb') q = Some eb -> kind ea = condition ->
     currentRate ea = currentRate eb) ->
  leftRate (gameState wa') p condition efficiency
  = leftRate (gameState wb') p condition efficiency.
Proof.
  intros Hfeed. unfold leftRate.
  destruct (entityAt (gameState wa') (mkV2 (x p - 1) (y p))) as [la|] eqn:Ea.
  - destruct (sameGrid_entityAt _ _ _ la finals_sameGrid Ea) as (lb & Eb & Hk).
    rewrite Eb, Hk.
    destruct (Z.eqb_spec (kind la) condition) as [K|K]; [|reflexivity].
    now rewrite (Hfeed _ la lb Ea Eb K).
  - destruct (entityAt (gameState wb') (mkV2 (x p - 1) (y p))) as [lb|] eqn:Eb;
      [|reflexivity].
    destruct (sameGrid_entityAt _ _ _ lb (sameGrid_sym _ _ finals_sameGrid) Eb)
      as (la & Ea' & _).
    congruence.
Qed.

Lemma motors_agree (p : v2 Z) (ea eb : Entity N) :
  entityAt (gameState wa') p = Some ea -> entityAt (gameState wb') p = Some eb ->
  kind ea = EntityKind.Motor -> currentRate ea = currentRate eb.
Proof.
  intros Ha Hb Ka.
  assert (Kb : kind eb = EntityKind.Motor).
  { destruct (sameGrid_entityAt _ _ p ea finals_sameGrid Ha) as (e & He & Hk). congruence. }
  rewrite (final_motor_rate _ _ _ _ p ea tickA Ha Ka).
  rewrite (final_motor_rate _ _ _ _ p eb tickB Hb Kb).
  apply leftRates_agree. intros q. apply generators_agree.
Qed.

Lemma producers_agree (p : v2 Z) (ea eb : Entity N) :
  entityAt (gameState wa') p = Some ea -> entityAt (gameState wb') p = Some eb ->
  kind ea = EntityKind.Producer -> currentRate ea = currentRate eb.
Proof.
  intros Ha Hb Ka.
  assert (Kb : kind eb = EntityKind.Producer).
  { destruct (sameGrid_entityAt _ _ p ea finals_sameGrid Ha) as (e & He & Hk). congruence. }
  rewrite (final_producer_rate _ _ _ _ p ea tickA Ha Ka).
  rewrite (final_producer_rate _ _ _ _ p eb tickB Hb Kb).
  apply leftRates_agree. intros q. apply motors_agree.
Qed.

Lemma final_rates_agree (p : v2 Z) (ea eb : Entity N) :
  entityAt (gameState wa') p = Some ea -> entityAt (gameState wb') p = Some eb ->
  isKnownKind (kind ea) = true -> currentRate ea = currentRate eb.
Proof.
  intros Ha Hb Hk. unfold isKnownKind in Hk. rewrite !orb_true_iff, !Z.eqb_eq in Hk.
  destruct Hk as [[K|K]|K].
  - now apply (producers_agree p).
  - now apply (motors_agree p).
  - now apply (generators_agree p).
Qed.

End TwoTicks.
End Inputs.

(** ** The running total over several ticks *)

Section Totals.
Context {N : Type} {num : Number N}.


Lemma occupiedPositions_sameGrid (gs gs' : GameState N) :
  sameGrid gs gs' -> occupiedPositions gs' = occupiedPositions gs.
Proof.
  intros Hg. unfold occupiedPositions, visited. destruct Hg as [Hd Hk]. rewrite Hd.
  apply filter_ext. intros q. apply sameGrid_isNonNull. now split.
Qed.

Lemma producers_sameGrid (gs gs' : GameState N) :
  sameGrid gs gs' -> producers gs' = producers gs.
Proof.
  intros Hg. unfold producers. rewrite (occupiedPositions_sameGrid gs gs' Hg).
  apply filter_ext. intros q. now apply sameGrid_isProducerAt.
Qed.

Lemma producers_entity (gs : GameState N) (q : v2 Z) :
  In q (producers gs) ->
  exists e, entityAt gs q = Some e /\ kind e = EntityKind.Producer.
Proof.
  intros Hq. unfold producers in Hq. apply filter_In in Hq. destruct Hq as [_ Hq].
  unfold isProducerAt, kindAt in Hq.
  destruct (entityAt gs q) as [e|]; [|discriminate].
  exists e. split; [reflexivity|]. cbn in Hq. now apply Z.eqb_eq.
Qed.

(** The rates of the Producers after two ticks from states with the same
    grid and the same input. *)
Lemma producer_rates_agree (fuelA fuelB : nat) (dtA dtB : N) (wa wa' wb wb' : World N)
    (q : v2 Z) :
  gameUpdateAndRender fuelA wa dtA = Ok wa' ->
  gameUpdateAndRender fuelB wb dtB = Ok wb' ->
  sameGrid (gameState wa) (gameState wb) ->
  sameInput (gameState wa) (gameState wb) ->
  In q (producers (gameState wa)) ->
  rateAt (gameState wa') q = rateAt (gameState wb') q.
Proof.
  intros Ha Hb Hg Hi Hq.
  destruct (producers_entity _ q Hq) as (e & He & Hk).
  destruct (sameGrid_entityAt _ _ q e (tick_sameGrid _ _ _ _ Ha) He) as (ea & Hea & Ka).
  destruct (sameGrid_entityAt _ _ q e Hg He) as (e0 & He0 & K0).
  destruct (sameGrid_entityAt _ _ q e0 (tick_sameGrid _ _ _ _ Hb) He0) as (eb & Heb & Kb).
  unfold rateAt. rewrite Hea, Heb.
  apply (final_rates_agree fuelA fuelB dtA dtB wa wa' wb wb' Ha Hb Hg Hi q); auto.
  unfold isKnownKind. rewrite Ka, Hk. reflexivity.
Qed.

End Totals.

(** ** Dimensions that are not positive *)

Section OffGrid.
Context {N : Type} {num : Number N}.

Lemma isNonNull_outOfBounds (gs : GameState N) (p : v2 Z) :
  ~ inBounds gs p -> isNonNull gs p = true.
Proof.
  intros Hb. unfold isNonNull, handleKindIsNone. now rewrite handle_outOfBounds.
Qed.

Lemma occupiedPositions_offGrid (gs : GameState N) :
  ~ (0 < x (worldDim gs) /\ 0 < y (worldDim gs)) ->
  occupiedPositions gs = pending (worldDim gs) (iterPos beginEntityIteration).
Proof.
  intros Hd. unfold occupiedPositions, visited.
  rewrite (filter_ext _ (fun _ => true)); [apply filter_true|].
  intros q. apply isNonNull_outOfBounds. unfold inBounds. lia.
Qed.

Lemma pending_begin_nil (dim : v2 Z) :
  pending dim (iterPos beginEntityIteration) = []
  <-> x dim <= 0 /\ y dim <= 1.
Proof.
  unfold pending, rowTail, rowsAfter. cbn [iterPos beginEntityIteration x y].
  split.
  - intros H. apply app_eq_nil in H. destruct H as [H1 H2].
    destruct (Z.to_nat (x dim - (-1 + 1))) as [|n] eqn:E1; [|discriminate].
    destruct (Z.to_nat (y dim - (0 + 1))) as [|m] eqn:E2; [|discriminate].
    lia.
  - intros [Hx Hy].
    replace (Z.to_nat (x dim - (-1 + 1))) with O by lia.
    replace (Z.to_nat (y dim - (0 + 1))) with O by lia. reflexivity.
Qed.

End OffGrid.

(** ** The grid that the init block builds *)

Section Init.
Context {N : Type} {num : Number N}.

Lemma v2_eqb_spec (p q : v2 Z) :
  reflect (q = p) ((x q =? x p) && (y q =? y p)).
Proof.
  destruct p as [px py], q as [qx qy]. cbn [x y].
  destruct (Z.eqb_spec qx px) as [->|Hx]; [destruct (Z.eqb_spec qy py) as [->|Hy]|];
    constructor; congruence.
Qed.

(** [placeEntity] on a grid sets the kind of the cell at [p], if there is
    one, and leaves every other cell and field as it is. *)
Lemma placeEntity_cells (gs : GameState N) (p : v2 Z) (k : Z) :
  isGrid gs ->
  exists gs', placeEntity gs p k = Ok gs' /\ isGrid gs' /\ configOf gs' = configOf gs /\
    forall q e, entityAt gs q = Some e ->
      entityAt gs' q
      = Some (if (x q =? x p) && (y q =? y p)
              then mkEntity k (currentRate e) (cycleProgress e) else e).
Proof.
  intros Hg. unfold placeEntity.
  destruct (inBounds_dec gs p) as [Hb|Hb].
  - rewrite (handle_inBounds gs p Hb). cbn [entity].
    destruct (nth_error (storage (entities gs)) (cellIndex gs p)) as [e0|] eqn:He0.
    + eexists. split; [reflexivity|]. split; [|split; [reflexivity|]].
      * unfold isGrid, setKind. cbn [storage entities withStorage worldDim].
        now rewrite length_updateAt.
      * intros q e He. pose proof (entityAt_Some_inBounds _ _ _ He) as Hq.
        rewrite entityAt_inBounds in He by assumption.
        rewrite entityAt_inBounds by exact Hq.
        unfold setKind, cellIndex. cbn [storage entities withStorage worldDim].
        fold (cellIndex gs q). fold (cellIndex gs p).
        destruct (v2_eqb_spec p q) as [->|Hne].
        -- now rewrite nth_error_updateAt_eq, He.
        -- rewrite nth_error_updateAt_ne; [exact He|].
           intros Hi. apply Hne. symmetry. now apply (cellIndex_inj gs).
    + exfalso. apply nth_error_None in He0. unfold isGrid in Hg.
      pose proof (cellIndex_bound gs p Hb) as Hlt. unfold inBounds in Hb.
      rewrite Hg, Z2Nat.inj_mul in He0 by lia. lia.
  - rewrite (handle_outOfBounds gs p Hb). cbn [entity].
    exists gs. split; [reflexivity|]. split; [assumption|]. split; [reflexivity|].
    intros q e He. destruct (v2_eqb_spec p q) as [->|Hne]; [|exact He].
    apply entityAt_Some_inBounds in He. contradiction.
Qed.

End Init.

(** ** The render half *)

Section RenderPass.
Context {N : Type} {num : Number N}.
Variables (sin cos : N -> N) (PI : N).

Lemma renderEntity_at (s : World N * list (CanvasCall N)) (q : v2 Z) :
  bodyAt (fun s => gameState (fst s)) (renderEntity sin cos PI) s q
  = match entityAt (gameState (fst s)) q with
    | Some e =>
      Ok (mkWorld (gameState (fst s))
            (console (fst s) ++ diagnostic (gameState (fst s)) q)%list,
          (snd s ++ drawAt sin cos PI (gameState (fst s)) q)%list)
    | None => TypeError
    end.
Proof.
  unfold bodyAt, renderEntity, iteratorAt, drawAt, diagnostic, kindAt. cbn [handle].
  fold (entityAt (gameState (fst s)) q).
  destruct (entityAt (gameState (fst s)) q) as [e|] eqn:He; [|reflexivity].
  rewrite (handle_inBounds _ q (entityAt_Some_inBounds _ _ _ He)). cbn [pos option_map].
  destruct (isKnownKind (kind e)); [now rewrite app_nil_r|reflexivity].
Qed.

Lemma renderEntity_sameGrid (s : World N * list (CanvasCall N)) (it : EntityIterator)
    (s' : World N * list (CanvasCall N)) :
  renderEntity sin cos PI s it = Ok s' -> gameState (fst s') = gameState (fst s).
Proof.
  unfold renderEntity. destruct (handle it) as [h|]; [|discriminate].
  destruct (deref _ _) as [e|]; [|discriminate].
  intros H. injection H as <-. reflexivity.
Qed.

(** The render loop over the positions [l]: it leaves the game state as it
    is, reports the unknown kinds and draws the cells, in the order of [l]. *)
Lemma render_fold (l : list (v2 Z)) : forall s s' : World N * list (CanvasCall N),
  foldOutcome (bodyAt (fun s => gameState (fst s)) (renderEntity sin cos PI)) l s = Ok s' ->
  gameState (fst s') = gameState (fst s) /\
  console (fst s') = (console (fst s) ++ diagnostics (gameState (fst s)) l)%list /\
  snd s' = (snd s ++ flat_map (drawAt sin cos PI (gameState (fst s))) l)%list.
Proof.
  induction l as [|q l IH]; intros s s' H; cbn [foldOutcome] in H.
  - injection H as <-. unfold diagnostics. cbn. now rewrite !app_nil_r.
  - rewrite renderEntity_at in H.
    destruct (entityAt (gameState (fst s)) q) as [e|]; [|discriminate].
    apply IH in H. cbn [fst snd gameState console] in H.
    destruct H as (H1 & H2 & H3). split; [exact H1|].
    unfold diagnostics in *. cbn [flat_map]. rewrite H2, H3, <- !app_assoc.
    split; reflexivity.
Qed.

Lemma renderEntities_fold (fuel : nat) (s : World N * list (CanvasCall N))
    (r : Outcome (World N * list (CanvasCall N))) :
  renderEntities sin cos PI fuel s = r -> r <> OutOfFuel ->
  r = foldOutcome (bodyAt (fun s => gameState (fst s)) (renderEntity sin cos PI))
        (occupiedPositions (gameState (fst s))) s.
Proof.
  unfold renderEntities, occupiedPositions. intros Hr Hne.
  apply (forEntities_sound nextNonNullEntity (fun s => gameState (fst s)) _ isNonNull)
    in Hr; auto.
  - intros f g it it' Hd H. now apply nextNonNullEntity_yields in H.
  - intros g g' q H. now apply sameGrid_isNonNull.
  - intros s0 it s1 H. apply renderEntity_sameGrid in H. cbn beta. rewrite H.
    apply sameGrid_refl.
Qed.



(** The render half, run to its end. *)
Lemma render_inv (fuel : nat) (w w' : World N) (calls : list (CanvasCall N)) :
  render sin cos PI fuel w = Ok (w', calls) ->
  exists grid,
    renderGrid fuel (gameState w) = Some grid /\
    gameState w' = gameState w /\
    console w'
    = (console w ++ diagnostics (gameState w) (occupiedPositions (gameState w)))%list /\
    calls
    = (renderClear (gameState w) ++ grid ++ renderMargins (gameState w)
       ++ renderNumber (gameState w)
       ++ flat_map (drawAt sin cos PI (gameState w)) (occupiedPositions (gameState w)))%list.
Proof.
  unfold render. destruct (renderGrid fuel (gameState w)) as [grid|]; [|discriminate].
  intros H. apply renderEntities_fold in H; [|discriminate]. symmetry in H.
  apply render_fold in H. cbn [fst snd] in H. destruct H as (H1 & H2 & H3).
  exists grid. split; [reflexivity|]. split; [exact H1|]. split; [exact H2|].
  rewrite H3, <- !app_assoc. reflexivity.
Qed.

End RenderPass.

(** ** The main loop *)

Section MainLoop.
Context {N : Type} {num : Number N}.
Variables (sin cos : N -> N) (PI : N).

Lemma sameLayout_refl (gs : GameState N) : sameLayout gs gs.
Proof. split; [apply sameGrid_refl|]. split; [reflexivity|auto]. Qed.

Lemma sameLayout_trans (a b c : GameState N) :
  sameLayout a b -> sameLayout b c -> sameLayout a c.
Proof.
  intros (G1 & C1 & N1) (G2 & C2 & N2).
  split; [eapply sameGrid_trans; eauto|]. split; [congruence|].
  intros j e He Hk. apply N2; [|assumption]. now apply N1.
Qed.

Lemma tick_sameLayout (fuel : nat) (dt : N) (w w' : World N) :
  gameUpdateAndRender fuel w dt = Ok w' -> sameLayout (gameState w) (gameState w').
Proof.
  intros Hr. destruct (tick_frame fuel dt w w' Hr) as (Hc & Hk & _ & Hn).
  split; [now apply (tick_sameGrid fuel dt)|]. split; [|exact Hn].
  unfold configOf in Hc. congruence.
Qed.

(** An animation frame after the first one. *)
Lemma frame_inv (fuel : nat) (pr pr' : Program (N := N)) (t0 t : N) :
  frameTimestamp pr = Some t0 ->
  handleEvent sin cos PI fuel pr (AnimationFrame t) = Ok pr' ->
  exists w1, gameUpdateAndRender fuel (world pr) (t - t0)%num = Ok w1 /\
             gameState (world pr') = gameState w1 /\
             frameTimestamp pr' = Some t.
Proof.
  intros Ht H. cbn [handleEvent] in H. rewrite Ht in H.
  unfold gameUpdateAndRenderWrapper, updateAndRender in H.
  destruct (gameUpdateAndRender fuel (world pr) (t - t0)%num) as [w1| |] eqn:Hu;
    try discriminate.
  cbn [bind] in H.
  destruct (render sin cos PI fuel w1) as [[w2 calls]| |] eqn:Hrender; try discriminate.
  cbn [bind fst snd] in H. injection H as <-.
  apply render_inv in Hrender. destruct Hrender as (grid & _ & Hs & _).
  exists w1. repeat split; auto.
Qed.

Lemma handleEvent_sameLayout (fuel : nat) (pr pr' : Program (N := N)) (ev : Event) :
  handleEvent sin cos PI fuel pr ev = Ok pr' ->
  sameLayout (gameState (world pr)) (gameState (world pr')).
Proof.
  destruct ev as [cx cy rl rt|b|b|t]; cbn [handleEvent]; intros H.
  - injection H as <-. split; [split; reflexivity|]. split; [reflexivity|auto].
  - injection H as <-. unfold onMouseDown.
    destruct (b =? 0); (split; [split; reflexivity|]; split; [reflexivity|auto]).
  - injection H as <-. unfold onMouseUp.
    destruct (b =? 0); (split; [split; reflexivity|]; split; [reflexivity|auto]).
  - destruct (frameTimestamp pr) as [t0|] eqn:Ht.
    + assert (H' : handleEvent sin cos PI fuel pr (AnimationFrame t) = Ok pr')
        by (cbn [handleEvent]; now rewrite Ht).
      destruct (frame_inv fuel pr pr' t0 t Ht H') as (w1 & Hu & Hs & _).
      rewrite Hs. now apply (tick_sameLayout fuel (t - t0)%num).
    + injection H as <-. apply sameLayout_refl.
Qed.

Lemma run_sameLayout (fuel : nat) (events : list Event) : forall pr pr' : Program (N := N),
  run sin cos PI fuel events pr = Ok pr' ->
  sameLayout (gameState (world pr)) (gameState (world pr')).
Proof.
  unfold run. induction events as [|ev events IH]; intros pr pr' H; cbn [foldOutcome] in H.
  - injection H as <-. apply sameLayout_refl.
  - destruct (handleEvent sin cos PI fuel pr ev) as [pr1| |] eqn:He; try discriminate.
    eapply sameLayout_trans; [now apply (handleEvent_sameLayout fuel pr pr1 ev)|].
    now apply IH.
Qed.

End MainLoop.

(** ** A frame returns *)

Section RenderReturns.
Context {N : Type} {num : Number N}.
Variables (sin cos : N -> N) (PI : N).

Lemma renderEntities_enough_fuel (fuel : nat) (s : World N * list (CanvasCall N)) :
  (S (length (pending (worldDim (gameState (fst s))) (iterPos beginEntityIteration)))
   < fuel)%nat ->
  renderEntities sin cos PI fuel s
  = foldOutcome (bodyAt (fun s => gameState (fst s)) (renderEntity sin cos PI))
      (occupiedPositions (gameState (fst s))) s.
Proof.
  intros Hl. unfold renderEntities, occupiedPositions.
  apply (forEntities_complete nextNonNullEntity (fun s => gameState (fst s)) _ isNonNull);
    auto.
  - intros f g it it' Hd H. now apply nextNonNullEntity_yields in H.
  - intros f g it Hd H. now apply nextNonNullEntity_fuel.
  - intros g g' q H. now apply sameGrid_isNonNull.
  - intros s0 it s1 H. apply (renderEntity_sameGrid sin cos PI) in H. cbn beta.
    rewrite H. apply sameGrid_refl.
Qed.

Lemma render_fold_returns (l : list (v2 Z)) : forall s : World N * list (CanvasCall N),
  (forall q, In q l -> entityAt (gameState (fst s)) q <> None) ->
  exists s', foldOutcome (bodyAt (fun s => gameState (fst s)) (renderEntity sin cos PI)) l s
             = Ok s'.
Proof.
  induction l as [|q l IH]; intros s H; cbn [foldOutcome]; [now exists s|].
  rewrite renderEntity_at.
  destruct (entityAt (gameState (fst s)) q) as [e|] eqn:He.
  - apply IH. cbn [fst gameState]. intros r Hr. apply H. now right.
  - exfalso. now apply (H q (or_introl eq_refl)).
Qed.

Lemma occupied_entities_on_grid (gs : GameState N) (q : v2 Z) :
  isGrid gs -> 0 < x (worldDim gs) -> 0 < y (worldDim gs) ->
  In q (occupiedPositions gs) -> entityAt gs q <> None.
Proof.
  intros Hg Hw Hh Hq. pose proof (occupiedPositions_inBounds gs q Hw Hh Hq) as Hb.
  destruct (handle_on_grid gs q Hg) as [[_ H] _].
  destruct (H Hb) as (i & e & Hr & He & _). unfold entityAt. rewrite Hr. cbn [deref].
  rewrite He. discriminate.
Qed.

End RenderReturns.

(** ** Construction *)

Section Construction.
Context {N : Type} {num : Number N}.

Lemma placeEntity_grid (gs : GameState N) (p : v2 Z) (k : Z) :
  isGrid gs ->
  exists gs', placeEntity gs p k = Ok gs' /\ isGrid gs' /\ configOf gs' = configOf gs.
Proof.
  intros Hg. unfold placeEntity.
  destruct (inBounds_dec gs p) as [Hb|Hb].
  - rewrite (handle_inBounds gs p Hb). cbn [entity].
    destruct (nth_error (storage (entities gs)) (cellIndex gs p)) as [e|] eqn:He.
    + eexists. split; [reflexivity|]. split; [|reflexivity].
      unfold isGrid, setKind. cbn [storage entities withStorage worldDim].
      now rewrite length_updateAt.
    + exfalso. apply nth_error_None in He. unfold isGrid in Hg.
      pose proof (cellIndex_bound gs p Hb) as Hlt. unfold inBounds in Hb.
      rewrite Hg, Z2Nat.inj_mul in He by lia. lia.
  - rewrite (handle_outOfBounds gs p Hb). cbn [entity].
    exists gs. repeat split; auto.
Qed.

Lemma initEntities_configured (width height : Z) (cycleDuration : N) :
  exists gs, initEntities (configured width height cycleDuration) = Ok gs /\
             worldDim gs = mkV2 width height /\
             referenceCycleDuration gs = cycleDuration /\
             length (storage (entities gs)) = Z.to_nat (width * height).
Proof.
  unfold initEntities.
  set (gs0 := withStorage _ _).
  assert (H0 : isGrid gs0).
  { unfold isGrid, gs0. cbn. now rewrite repeat_length. }
  destruct (placeEntity_grid gs0 (mkV2 0 5) EntityKind.Generator H0) as (gs1 & E1 & H1 & C1).
  destruct (placeEntity_grid gs1 (mkV2 1 5) EntityKind.Motor H1) as (gs2 & E2 & H2 & C2).
  destruct (placeEntity_grid gs2 (mkV2 2 5) EntityKind.Producer H2) as (gs3 & E3 & H3 & C3).
  exists gs3. rewrite E1. cbn [bind]. rewrite E2. cbn [bind]. rewrite E3.
  assert (Hc : configOf gs3 = configOf gs0) by congruence.
  unfold configOf in Hc. injection Hc as _ Hd _ Hr _ _ _.
  split; [reflexivity|]. split; [exact Hd|]. split; [exact Hr|].
  unfold isGrid in H3. rewrite H3, Hd. reflexivity.
Qed.

End Construction.


(** ** binary64 arithmetic *)

Section Binary64.
Import SpecFloat.

Lemma pow2_pos (n : Z) : 0 <= n -> 0 < pow2 n.
Proof. intros H. unfold pow2. apply Z.pow_pos_nonneg; lia. Qed.

Lemma pow2_add (a b : Z) : 0 <= a -> 0 <= b -> pow2 (a + b) = pow2 a * pow2 b.
Proof. intros Ha Hb. unfold pow2. apply Z.pow_add_r; assumption. Qed.

Lemma pow2_succ (n : Z) : 0 <= n -> pow2 (n + 1) = 2 * pow2 n.
Proof. intros H. rewrite pow2_add by lia. change (pow2 1) with 2. lia. Qed.

Lemma pow2_le (a b : Z) : 0 <= a <= b -> pow2 a <= pow2 b.
Proof. intros H. unfold pow2. apply Z.pow_le_mono_r; lia. Qed.

Lemma pow2_lt (a b : Z) : 0 <= a < b -> pow2 a < pow2 b.
Proof. intros H. unfold pow2. apply Z.pow_lt_mono_r; lia. Qed.

Lemma pow2_split (a b : Z) : 0 <= a <= b -> pow2 b = pow2 a * pow2 (b - a).
Proof. intros H. rewrite <- pow2_add by lia. f_equal. lia. Qed.

Lemma pow2_log2 (v : Z) : 0 < v -> pow2 (Z.log2 v) <= v < pow2 (Z.log2 v + 1).
Proof. intros H. unfold pow2. pose proof (Z.log2_spec v H). lia. Qed.

Lemma log2_unique (v k : Z) : 0 <= k -> pow2 k <= v < pow2 (k + 1) -> Z.log2 v = k.
Proof. intros Hk H. apply Z.log2_unique; [assumption|]. unfold pow2 in H. exact H. Qed.

Lemma digits2_pos_log2 (p : positive) : Zpos (digits2_pos p) = Z.log2 (Zpos p) + 1.
Proof.
  induction p as [p IH|p IH|]; cbn [digits2_pos].
  - rewrite Pos2Z.inj_succ, IH.
    assert (H : Z.log2 (Zpos p~1) = Z.log2 (Zpos p) + 1).
    { apply log2_unique.
      - pose proof (Z.log2_nonneg (Zpos p)). lia.
      - pose proof (pow2_log2 (Zpos p) ltac:(lia)) as L.
        pose proof (Z.log2_nonneg (Zpos p)) as N.
        rewrite !pow2_succ by lia. rewrite pow2_succ in L by lia. lia. }
    lia.
  - rewrite Pos2Z.inj_succ, IH.
    assert (H : Z.log2 (Zpos p~0) = Z.log2 (Zpos p) + 1).
    { apply log2_unique.
      - pose proof (Z.log2_nonneg (Zpos p)). lia.
      - pose proof (pow2_log2 (Zpos p) ltac:(lia)) as L.
        pose proof (Z.log2_nonneg (Zpos p)) as N.
        rewrite !pow2_succ by lia. rewrite pow2_succ in L by lia. lia. }
    lia.
  - reflexivity.
Qed.

Lemma log2_mul_pow2 (v k : Z) : 0 < v -> 0 <= k -> Z.log2 (v * pow2 k) = Z.log2 v + k.
Proof. intros Hv Hk. unfold pow2. rewrite Z.log2_mul_pow2 by assumption. lia. Qed.

(** What it is for a mantissa and an exponent to be a binary64 number. *)
Lemma bounded_spec (m : positive) (e : Z) :
  bounded prec emax m e = true <->
  -1074 <= e <= 971 /\ Zpos m < pow2 53 /\ (-1074 < e -> pow2 52 <= Zpos m).
Proof.
  unfold bounded, canonical_mantissa, fexp, SpecFloat.emin, prec, emax,
    FloatOps.prec, FloatOps.emax.
  rewrite andb_true_iff, Z.eqb_eq, Z.leb_le, digits2_pos_log2.
  pose proof (pow2_log2 (Zpos m) ltac:(lia)) as L.
  pose proof (Z.log2_nonneg (Zpos m)) as N.
  split.
  - intros [H1 H2]. split; [lia|].
    assert (D : Z.log2 (Zpos m) <= 52) by lia.
    split.
    + assert (pow2 (Z.log2 (Zpos m) + 1) <= pow2 53) by (apply pow2_le; lia). lia.
    + intros He. assert (Z.log2 (Zpos m) = 52) by lia. rewrite H in L. lia.
  - intros (He & Hm & Hn). split; [|lia].
    assert (D : Z.log2 (Zpos m) <= 52).
    { destruct (Z_le_gt_dec (Z.log2 (Zpos m)) 52) as [|G]; [assumption|].
      assert (pow2 53 <= pow2 (Z.log2 (Zpos m))) by (apply pow2_le; lia). lia. }
    destruct (Z.eq_dec e (-1074)) as [->|Hne]; [lia|].
    assert (Hp : pow2 52 <= Zpos m) by (apply Hn; lia).
    assert (D2 : 52 <= Z.log2 (Zpos m)).
    { destruct (Z_le_gt_dec 52 (Z.log2 (Zpos m))) as [|G]; [assumption|].
      assert (pow2 (Z.log2 (Zpos m) + 1) <= pow2 52) by (apply pow2_le; lia). lia. }
    lia.
Qed.

Lemma ulps_finite_pos (m : positive) (e : Z) :
  bounded prec emax m e = true ->
  0 < Zpos m * pow2 (e + 1074) < pow2 2098.
Proof.
  intros H. apply bounded_spec in H. destruct H as (He & Hm & _).
  pose proof (pow2_pos (e + 1074) ltac:(lia)) as P.
  split; [lia|].
  assert (pow2 (e + 1074) <= pow2 2045) by (apply pow2_le; lia).
  change (pow2 2098) with (pow2 (53 + 2045)). rewrite (pow2_add 53 2045) by lia.
  pose proof (pow2_pos 2045 ltac:(lia)).
  nia.
Qed.

(** A number with the lesser exponent is the lesser number. *)
Lemma ulps_exponent_lt (m1 m2 : positive) (e1 e2 : Z) :
  bounded prec emax m1 e1 = true -> bounded prec emax m2 e2 = true ->
  e1 < e2 ->
  Zpos m1 * pow2 (e1 + 1074) < Zpos m2 * pow2 (e2 + 1074).
Proof.
  intros H1 H2 Hlt.
  apply bounded_spec in H1. apply bounded_spec in H2.
  destruct H1 as (He1 & Hm1 & _). destruct H2 as (He2 & _ & Hn2).
  assert (Hp : pow2 52 <= Zpos m2) by (apply Hn2; lia).
  rewrite (pow2_split (e1 + 1074) (e2 + 1074)) by lia.
  pose proof (pow2_pos (e1 + 1074) ltac:(lia)) as P1.
  assert (P2 : 2 <= pow2 (e2 + 1074 - (e1 + 1074))).
  { change 2 with (pow2 1). apply pow2_le. lia. }
  change (pow2 53) with (2 * pow2 52) in Hm1.
  assert (A : pow2 52 > 0) by (pose proof (pow2_pos 52); lia).
  assert (S1 : Zpos m1 * pow2 (e1 + 1074) < 2 * pow2 52 * pow2 (e1 + 1074)).
  { apply Z.mul_lt_mono_pos_r; lia. }
  assert (S2 : 2 * pow2 52 <= Zpos m2 * pow2 (e2 + 1074 - (e1 + 1074))) by nia.
  assert (S3 : 2 * pow2 52 * pow2 (e1 + 1074)
               <= Zpos m2 * pow2 (e2 + 1074 - (e1 + 1074)) * pow2 (e1 + 1074)).
  { apply Z.mul_le_mono_nonneg_r; lia. }
  lia.
Qed.

Lemma uexp_finite (m : positive) (e : Z) :
  bounded prec emax m e = true -> uexp (Zpos m * pow2 (e + 1074)) = e + 1074.
Proof.
  intros H. apply bounded_spec in H. destruct H as (He & Hm & Hn).
  unfold uexp. rewrite log2_mul_pow2 by lia.
  pose proof (pow2_log2 (Zpos m) ltac:(lia)) as L.
  pose proof (Z.log2_nonneg (Zpos m)) as N.
  assert (D : Z.log2 (Zpos m) <= 52).
  { destruct (Z_le_gt_dec (Z.log2 (Zpos m)) 52) as [|G]; [assumption|].
    assert (pow2 53 <= pow2 (Z.log2 (Zpos m))) by (apply pow2_le; lia). lia. }
  destruct (Z.eq_dec e (-1074)) as [->|Hne]; [lia|].
  assert (Hp : pow2 52 <= Zpos m) by (apply Hn; lia).
  assert (D2 : 52 <= Z.log2 (Zpos m)).
  { destruct (Z_le_gt_dec 52 (Z.log2 (Zpos m))) as [|G]; [assumption|].
    assert (pow2 (Z.log2 (Zpos m) + 1) <= pow2 52) by (apply pow2_le; lia). lia. }
  lia.
Qed.

Lemma ulps_bound (f : spec_float) :
  valid_binary prec emax f = true -> - pow2 2098 <= ulps f <= pow2 2098.
Proof.
  pose proof (pow2_pos 2098 ltac:(lia)) as P.
  destruct f as [s|s| |s m e]; cbn [ulps valid_binary]; intros H.
  - lia.
  - destruct s; cbn [cond_Zopp]; lia.
  - lia.
  - pose proof (ulps_finite_pos m e H). destruct s; cbn [cond_Zopp]; lia.
Qed.

(** The order of the format is the order of the values. *)
Lemma SFcompare_ulps (f1 f2 : spec_float) :
  valid_binary prec emax f1 = true -> valid_binary prec emax f2 = true ->
  isNaN f1 = false -> isNaN f2 = false ->
  SFcompare f1 f2 = Some (ulps f1 ?= ulps f2).
Proof.
  pose proof (pow2_pos 2098 ltac:(lia)) as P.
  intros V1 V2 N1 N2.
  destruct f1 as [s1|s1| |s1 m1 e1]; try discriminate N1;
  destruct f2 as [s2|s2| |s2 m2 e2]; try discriminate N2;
  cbn [SFcompare ulps valid_binary] in *;
  try pose proof (ulps_finite_pos _ _ V1) as B1;
  try pose proof (ulps_finite_pos _ _ V2) as B2.
  1-8: try destruct s1; try destruct s2; cbn [cond_Zopp]; f_equal; symmetry;
    first [apply Z.compare_eq_iff; lia|apply Z.compare_lt_iff; lia
          |apply Z.compare_gt_iff; lia].
  f_equal.
    assert (Cm : Pos.compare_cont Eq m1 m2 = (Zpos m1 ?= Zpos m2)) by reflexivity.
    destruct s1, s2; cbn [cond_Zopp].
    + destruct (Z.compare_spec e1 e2) as [E|L|G].
      * subst e2. rewrite Cm. pose proof (pow2_pos (e1 + 1074)) as Q.
        apply bounded_spec in V1. specialize (Q ltac:(lia)).
        destruct (Z.compare_spec (Zpos m1) (Zpos m2)) as [E|L|G]; cbn [CompOpp]; symmetry.
        -- apply Z.compare_eq_iff. rewrite E. reflexivity.
        -- apply Z.compare_gt_iff. nia.
        -- apply Z.compare_lt_iff. nia.
      * pose proof (ulps_exponent_lt _ _ _ _ V1 V2 L). symmetry.
        apply Z.compare_gt_iff. lia.
      * pose proof (ulps_exponent_lt _ _ _ _ V2 V1 ltac:(lia)). symmetry.
        apply Z.compare_lt_iff. lia.
    + symmetry. apply Z.compare_lt_iff. lia.
    + symmetry. apply Z.compare_gt_iff. lia.
    + destruct (Z.compare_spec e1 e2) as [E|L|G].
      * subst e2. rewrite Cm. pose proof (pow2_pos (e1 + 1074)) as Q.
        apply bounded_spec in V1. specialize (Q ltac:(lia)).
        destruct (Z.compare_spec (Zpos m1) (Zpos m2)) as [E|L|G]; symmetry.
        -- apply Z.compare_eq_iff. rewrite E. reflexivity.
        -- apply Z.compare_lt_iff. nia.
        -- apply Z.compare_gt_iff. nia.
      * pose proof (ulps_exponent_lt _ _ _ _ V1 V2 L). symmetry.
        apply Z.compare_lt_iff. lia.
      * pose proof (ulps_exponent_lt _ _ _ _ V2 V1 ltac:(lia)). symmetry.
        apply Z.compare_gt_iff. lia.
Qed.

(** ** Rounding *)

Lemma iter_pos_nat {A : Type} (f : A -> A) (p : positive) (a : A) :
  iter_pos f p a = Nat.iter (Pos.to_nat p) f a.
Proof.
  revert a. induction p as [p IH|p IH|]; intros a; cbn [iter_pos].
  - rewrite !IH. rewrite Pos2Nat.inj_xI.
    replace (S (2 * Pos.to_nat p)) with (Pos.to_nat p + (Pos.to_nat p + 1))%nat by lia.
    rewrite !Nat.iter_add. reflexivity.
  - rewrite !IH. rewrite Pos2Nat.inj_xO.
    replace (2 * Pos.to_nat p)%nat with (Pos.to_nat p + Pos.to_nat p)%nat by lia.
    rewrite Nat.iter_add. reflexivity.
  - reflexivity.
Qed.

Lemma Pos_iter_xO (p sh : positive) :
  Zpos (Pos.iter xO p sh) = Zpos p * pow2 (Zpos sh).
Proof.
  rewrite Pos2Nat.inj_iter. rewrite <- (positive_nat_Z sh).
  induction (Pos.to_nat sh) as [|n IH].
  - cbn [Nat.iter nat_rect]. change (pow2 (Z.of_nat 0)) with 1. lia.
  - rewrite Nat2Z.inj_succ. unfold Z.succ. rewrite pow2_succ by lia.
    cbn [Nat.iter nat_rect]. rewrite Pos2Z.inj_xO.
    unfold Nat.iter in IH. rewrite IH. lia.
Qed.

Lemma shr_1_nonneg (m : Z) (r s : bool) :
  0 <= m ->
  shr_1 (Build_shr_record m r s) = Build_shr_record (m / 2) (Z.odd m) (r || s).
Proof.
  intros H. rewrite <- Z.div2_div.
  destruct m as [|[p|p|]|]; try reflexivity. lia.
Qed.

Lemma shr_iter (M : Z) (k : nat) :
  0 <= M ->
  exists r s,
    Nat.iter k shr_1 (Build_shr_record M false false)
    = Build_shr_record (M / pow2 (Z.of_nat k)) r s
    /\ (M mod pow2 (Z.of_nat k) = 0 -> r = false /\ s = false).
Proof.
  intros HM. induction k as [|k IH].
  - exists false, false. cbn [Nat.iter nat_rect]. change (pow2 (Z.of_nat 0)) with 1.
    rewrite Z.div_1_r. auto.
  - destruct IH as (r & s & E & Hrs).
    pose proof (pow2_pos (Z.of_nat k) ltac:(lia)) as P.
    assert (HS : pow2 (Z.of_nat (S k)) = pow2 (Z.of_nat k) * 2).
    { rewrite Nat2Z.inj_succ. unfold Z.succ. rewrite pow2_succ by lia. lia. }
    exists (Z.odd (M / pow2 (Z.of_nat k))), (r || s).
    change (Nat.iter (S k) shr_1 ?a) with (shr_1 (Nat.iter k shr_1 a)).
    rewrite E, shr_1_nonneg by (apply Z.div_pos; lia).
    rewrite HS. split.
    + rewrite Z.div_div by lia. reflexivity.
    + intros H0.
      apply Z.mod_divide in H0; [|lia]. destruct H0 as [j Hj].
      assert (Hk : M mod pow2 (Z.of_nat k) = 0).
      { apply Z.mod_divide; [lia|]. exists (j * 2). lia. }
      destruct (Hrs Hk) as [-> ->]. split; [|reflexivity].
      replace M with (2 * j * pow2 (Z.of_nat k)) by lia.
      rewrite Z.div_mul by lia. rewrite Z.odd_mul. reflexivity.
Qed.

Lemma shr_pos (M n e : Z) :
  0 <= M -> 0 < n ->
  exists r s,
    shr (Build_shr_record M false false) e n
    = (Build_shr_record (M / pow2 n) r s, e + n)
    /\ (M mod pow2 n = 0 -> r = false /\ s = false).
Proof.
  intros HM Hn. destruct n as [|q|q]; try lia.
  cbn [shr]. rewrite iter_pos_nat.
  destruct (shr_iter M (Pos.to_nat q) HM) as (r & s & E & H).
  rewrite positive_nat_Z in *. exists r, s. rewrite E. auto.
Qed.

Lemma shr_nonpos (mrs : shr_record) (n e : Z) : n <= 0 -> shr mrs e n = (mrs, e).
Proof. intros H. destruct n; try reflexivity. lia. Qed.

Lemma round_nearest_even_bounds (m : Z) (r s : bool) :
  m <= round_nearest_even m (loc_of_shr_record (Build_shr_record m r s)) <= m + 1
  /\ (r = false -> s = false ->
      round_nearest_even m (loc_of_shr_record (Build_shr_record m r s)) = m).
Proof.
  destruct r, s; cbn [loc_of_shr_record round_nearest_even];
    try destruct (Z.even m); split; try lia; intros; try discriminate; reflexivity.
Qed.

Lemma fexp_eq (z : Z) : fexp prec emax z = Z.max (z - 53) (-1074).
Proof. reflexivity. Qed.

Lemma Zdigits2_log2 (m : Z) : 0 < m -> Zdigits2 m = Z.log2 m + 1.
Proof. intros H. destruct m as [|p|p]; try lia. apply digits2_pos_log2. Qed.

Lemma uexp_pos_div (v : Z) : 0 < v -> 0 < uexp v -> pow2 52 <= v / pow2 (uexp v) < pow2 53.
Proof.
  intros Hv Hk. unfold uexp in *.
  assert (K : Z.max (Z.log2 v - 52) 0 = Z.log2 v - 52) by lia. rewrite K in *.
  pose proof (pow2_log2 v Hv) as L.
  pose proof (pow2_pos (Z.log2 v - 52) ltac:(lia)) as P.
  rewrite (pow2_split (Z.log2 v - 52) (Z.log2 v)) in L by lia.
  rewrite (pow2_split (Z.log2 v - 52) (Z.log2 v + 1)) in L by lia.
  replace (Z.log2 v - (Z.log2 v - 52)) with 52 in L by lia.
  replace (Z.log2 v + 1 - (Z.log2 v - 52)) with 53 in L by lia.
  split.
  - apply Z.div_le_lower_bound; lia.
  - apply Z.div_lt_upper_bound; lia.
Qed.

Lemma uexp_zero_small (v : Z) : 0 < v -> uexp v = 0 -> v < pow2 53.
Proof.
  intros Hv Hk. unfold uexp in Hk.
  pose proof (pow2_log2 v Hv) as L.
  pose proof (Z.log2_nonneg v) as N.
  assert (pow2 (Z.log2 v + 1) <= pow2 53) by (apply pow2_le; lia). lia.
Qed.

(** [binary_round] on a number of at least [2 ^ -1074]: the value, counted
    in units of [2 ^ uexp], is cut to an integer and may go up by one; it
    stays when the cut loses nothing. *)
Lemma binary_round_spec (s : bool) (p : positive) (e : Z) :
  -1074 <= e ->
  let v := Zpos p * pow2 (e + 1074) in
  exists m1 : Z,
    v / pow2 (uexp v) <= m1 <= v / pow2 (uexp v) + 1
    /\ (v mod pow2 (uexp v) = 0 -> m1 = v / pow2 (uexp v))
    /\ ((binary_round prec emax s p e = S754_infinity s
         /\ pow2 2098 <= m1 * pow2 (uexp v))
        \/ exists m' e',
             binary_round prec emax s p e = S754_finite s m' e'
             /\ bounded prec emax m' e' = true
             /\ Zpos m' * pow2 (e' + 1074) = m1 * pow2 (uexp v)).
Proof.
  intros He v.
  pose proof (pow2_pos (e + 1074) ltac:(lia)) as PE.
  pose proof (Z.log2_nonneg (Zpos p)) as LN.
  pose proof (pow2_log2 (Zpos p) ltac:(lia)) as LP.
  assert (Hv : 0 < v) by (unfold v; lia).
  assert (Hk : uexp v = Z.max (Z.log2 (Zpos p) + 1 + e - 53) (-1074) + 1074).
  { unfold uexp, v. rewrite log2_mul_pow2 by lia. lia. }
  set (t := Z.max (Z.log2 (Zpos p) + 1 + e - 53) (-1074)) in *.
  assert (Hinf : 971 < t -> pow2 2098 <= v).
  { intros Ht. unfold v.
    destruct (Z_le_gt_dec 2098 (e + 1074)) as [Big|Small].
    - assert (pow2 2098 <= pow2 (e + 1074)) by (apply pow2_le; lia). nia.
    - assert (pow2 (2098 - (e + 1074)) <= pow2 (Z.log2 (Zpos p))) by (apply pow2_le; lia).
      rewrite (pow2_split (e + 1074) 2098) by lia. nia. }
  remember (binary_round prec emax s p e) as R eqn:ER.
  unfold binary_round in ER. rewrite digits2_pos_log2, fexp_eq in ER. fold t in ER.
  unfold shl_align in ER.
  destruct (t - e) as [|sh|sh] eqn:Hsh.
  - (* the number is at its exponent already *)
    assert (Ht : t = e) by lia.
    unfold binary_round_aux, shr_fexp in ER. cbn [Zdigits2 shr_record_of_loc] in ER.
    rewrite digits2_pos_log2, fexp_eq in ER. fold t in ER.
    rewrite Hsh in ER. cbn [shr shr_m round_nearest_even loc_of_shr_record] in ER.
    cbn [Zdigits2 shr_record_of_loc] in ER.
    rewrite digits2_pos_log2, fexp_eq in ER. fold t in ER.
    rewrite Hsh in ER. cbn [shr shr_m] in ER.
    exists (Zpos p). rewrite Hk, Ht.
    assert (D : v / pow2 (e + 1074) = Zpos p) by (unfold v; apply Z.div_mul; lia).
    rewrite D. split; [lia|]. split; [reflexivity|].
    change (emax - prec) with 971 in ER.
    destruct (Z.leb_spec e 971) as [L|G].
    + right. exists p, e. split; [exact ER|]. split; [|reflexivity].
      apply bounded_spec. split; [lia|].
      assert (D52 : Z.log2 (Zpos p) <= 52) by (unfold t in Ht; lia).
      split.
      * assert (pow2 (Z.log2 (Zpos p) + 1) <= pow2 53) by (apply pow2_le; lia). lia.
      * intros Hgt. assert (E52 : Z.log2 (Zpos p) = 52) by (unfold t in Ht; lia).
        rewrite E52 in LP. lia.
    + left. split; [exact ER|]. apply Hinf. lia.
  - (* digits are cut *)
    assert (Hn : Zpos sh = Z.log2 (Zpos p) - 52) by lia.
    assert (Ht : t = e + Zpos sh) by lia.
    unfold binary_round_aux, shr_fexp in ER. cbn [Zdigits2 shr_record_of_loc] in ER.
    rewrite digits2_pos_log2, fexp_eq in ER. fold t in ER. rewrite Hsh in ER.
    destruct (shr_pos (Zpos p) (Zpos sh) e ltac:(lia) ltac:(lia)) as (r & s0 & E & Hrs).
    rewrite E in ER. cbn [shr_m] in ER.
    pose proof (pow2_pos (Zpos sh) ltac:(lia)) as PS.
    assert (Hkk : pow2 (uexp v) = pow2 (e + 1074) * pow2 (Zpos sh)).
    { rewrite Hk, <- pow2_add by lia. f_equal. lia. }
    assert (D : v / pow2 (uexp v) = Zpos p / pow2 (Zpos sh)).
    { rewrite Hkk. unfold v. rewrite (Z.mul_comm (Zpos p)).
      rewrite Z.div_mul_cancel_l by lia. reflexivity. }
    assert (Dm : v mod pow2 (uexp v) = 0 -> Zpos p mod pow2 (Zpos sh) = 0).
    { rewrite Hkk. unfold v. rewrite (Z.mul_comm (Zpos p)).
      rewrite Z.mul_mod_distr_l by lia. nia. }
    pose proof (uexp_pos_div v Hv ltac:(lia)) as Hq. rewrite D in Hq.
    set (q := Zpos p / pow2 (Zpos sh)) in *.
    destruct (round_nearest_even_bounds q r s0) as [Hb Hex].
    set (m1 := round_nearest_even q (loc_of_shr_record (Build_shr_record q r s0))) in *.
    exists m1. rewrite D. split; [exact Hb|]. split.
    { intros H0. destruct (Hrs (Dm H0)) as [-> ->]. apply Hex; reflexivity. }
    rewrite Hkk.
    assert (Hm1 : 0 < m1) by (pose proof (pow2_pos 52); lia).
    destruct (Z.eq_dec m1 (pow2 53)) as [C|C].
    + (* the mantissa went up to [2 ^ 53] *)
      rewrite C in *. change (pow2 53) with 9007199254740992 in ER.
      cbn [Zdigits2 digits2_pos Pos.succ shr_record_of_loc] in ER.
      rewrite fexp_eq in ER.
      replace (Z.max (54 + (e + Zpos sh) - 53) (-1074) - (e + Zpos sh)) with 1 in ER by lia.
      cbn [shr iter_pos shr_1 shr_m] in ER.
      change (emax - prec) with 971 in ER.
      destruct (Z.leb_spec (e + Z.pos sh + 1) 971) as [L|G].
      * right. exists 4503599627370496%positive, (e + Zpos sh + 1). split; [exact ER|].
        split; [apply bounded_spec; change (Zpos 4503599627370496) with (pow2 52);
                pose proof (pow2_lt 52 53 ltac:(lia)); lia|].
        replace (e + Zpos sh + 1 + 1074) with ((e + 1074) + Zpos sh + 1) by lia.
        rewrite pow2_succ, pow2_add by lia. change (pow2 53) with 9007199254740992. lia.
      * left. split; [exact ER|].
        assert (pow2 2045 <= pow2 (e + 1074 + Zpos sh)) by (apply pow2_le; lia).
        rewrite pow2_add in H by lia.
        change (pow2 2098) with (pow2 53 * pow2 2045).
        pose proof (pow2_pos 53 ltac:(lia)). nia.
    + assert (Hlt : m1 < pow2 53) by lia.
      destruct m1 as [|pm|pm] eqn:Em1; try lia.
      cbn [Zdigits2 shr_record_of_loc] in ER.
      assert (Hd : Zpos (digits2_pos pm) = 53).
      { rewrite digits2_pos_log2. rewrite (log2_unique (Zpos pm) 52); [lia|lia|].
        change (52 + 1) with 53. lia. }
      rewrite Hd, fexp_eq in ER.
      rewrite shr_nonpos in ER by lia. cbn [shr_m] in ER.
      change (emax - prec) with 971 in ER.
      destruct (Z.leb_spec (e + Z.pos sh) 971) as [L|G].
      * right. exists pm, (e + Zpos sh). split; [exact ER|].
        split; [apply bounded_spec; lia|].
        replace (e + Zpos sh + 1074) with ((e + 1074) + Zpos sh) by lia.
        rewrite pow2_add by lia. lia.
      * left. split; [exact ER|].
        assert (pow2 2046 <= pow2 (e + 1074 + Zpos sh)) by (apply pow2_le; lia).
        rewrite pow2_add in H by lia.
        change (pow2 2098) with (pow2 52 * pow2 2046).
        pose proof (pow2_pos 2046 ltac:(lia)). pose proof (pow2_pos 52 ltac:(lia)). nia.
  - (* the mantissa is shifted to the left *)
    assert (Ht : e = t + Zpos sh) by lia.
    pose proof (Pos_iter_xO p sh) as Hmz.
    set (mz := Pos.iter xO p sh) in *.
    assert (Lz : Z.log2 (Zpos mz) = Z.log2 (Zpos p) + Zpos sh).
    { rewrite Hmz. apply log2_mul_pow2; lia. }
    assert (Hz : fexp prec emax (Zpos (digits2_pos mz) + t) - t = 0).
    { rewrite digits2_pos_log2, fexp_eq, Lz. lia. }
    unfold binary_round_aux, shr_fexp in ER. cbn [Zdigits2 shr_record_of_loc] in ER.
    rewrite Hz in ER.
    cbn [shr shr_m round_nearest_even loc_of_shr_record] in ER.
    cbn [Zdigits2 shr_record_of_loc] in ER.
    rewrite Hz in ER. cbn [shr shr_m] in ER.
    pose proof (pow2_pos (Zpos sh) ltac:(lia)) as PS.
    assert (Hvv : v = Zpos mz * pow2 (uexp v)).
    { rewrite Hk, Hmz. unfold v. replace (e + 1074) with (Zpos sh + (t + 1074)) by lia.
      rewrite pow2_add by lia. lia. }
    pose proof (pow2_pos (uexp v) ltac:(lia)) as PK.
    assert (D : v / pow2 (uexp v) = Zpos mz).
    { rewrite Hvv at 1. apply Z.div_mul. lia. }
    exists (Zpos mz). rewrite D. split; [lia|]. split; [reflexivity|].
    change (emax - prec) with 971 in ER.
    destruct (Z.leb_spec t 971) as [L|G].
    + right. exists mz, t. split; [exact ER|]. split; [|rewrite Hk; reflexivity].
      pose proof (pow2_log2 (Zpos mz) ltac:(lia)) as LZ.
      pose proof Ht as Ht'. unfold t in Ht'.
      apply bounded_spec. split; [unfold t; lia|].
      assert (D52 : Z.log2 (Zpos mz) <= 52) by lia.
      split.
      * assert (pow2 (Z.log2 (Zpos mz) + 1) <= pow2 53) by (apply pow2_le; lia). lia.
      * intros Hgt. assert (E52 : Z.log2 (Zpos mz) = 52) by (unfold t in Hgt; lia).
        rewrite E52 in LZ. lia.
    + left. split; [exact ER|]. rewrite <- Hvv. apply Hinf. lia.
Qed.

Lemma uexp_nonneg (v : Z) : 0 <= uexp v.
Proof. unfold uexp. lia. Qed.

Lemma uexp_mono (v w : Z) : v <= w -> uexp v <= uexp w.
Proof. intros H. unfold uexp. pose proof (Z.log2_le_mono v w H). lia. Qed.

Lemma uexp_floor (v : Z) : 0 < v -> 0 < uexp v -> pow2 52 * pow2 (uexp v) <= v.
Proof.
  intros Hv Hk. pose proof (uexp_pos_div v Hv Hk) as [H _].
  pose proof (pow2_pos (uexp v) ltac:(lia)) as P.
  pose proof (Z.mul_div_le v (pow2 (uexp v)) P).
  nia.
Qed.

(** No number of the format lies between the cut value and the exact one. *)
Lemma round_below (v m1 a j : Z) :
  0 < v -> v / pow2 (uexp v) <= m1 ->
  0 <= j -> 0 < a <= pow2 53 ->
  a * pow2 j <= v -> a * pow2 j <= m1 * pow2 (uexp v).
Proof.
  intros Hv Hm Hj Ha Hle.
  pose proof (uexp_nonneg v) as Kn.
  pose proof (pow2_pos (uexp v) Kn) as PK.
  pose proof (pow2_pos j Hj) as PJ.
  assert (F : a * pow2 j <= v / pow2 (uexp v) * pow2 (uexp v)).
  { destruct (Z_le_gt_dec (uexp v) j) as [L|G].
    - rewrite (pow2_split (uexp v) j) in * by lia.
      pose proof (pow2_pos (j - uexp v) ltac:(lia)) as PD.
      assert (a * pow2 (j - uexp v) <= v / pow2 (uexp v)).
      { apply Z.div_le_lower_bound; lia. }
      nia.
    - pose proof (uexp_pos_div v Hv ltac:(lia)) as [Q _].
      assert (S1 : a * pow2 j <= pow2 53 * pow2 j) by (apply Z.mul_le_mono_nonneg_r; lia).
      assert (S2 : pow2 (j + 1) <= pow2 (uexp v)) by (apply pow2_le; lia).
      rewrite pow2_succ in S2 by lia.
      change (pow2 53) with (2 * pow2 52) in S1.
      pose proof (pow2_pos 52 ltac:(lia)) as P52.
      assert (S3 : pow2 52 * (2 * pow2 j) <= pow2 52 * pow2 (uexp v)).
      { apply Z.mul_le_mono_nonneg_l; lia. }
      assert (S4 : pow2 52 * pow2 (uexp v) <= v / pow2 (uexp v) * pow2 (uexp v)).
      { apply Z.mul_le_mono_nonneg_r; lia. }
      lia. }
  assert (v / pow2 (uexp v) * pow2 (uexp v) <= m1 * pow2 (uexp v)).
  { apply Z.mul_le_mono_nonneg_r; lia. }
  lia.
Qed.

Lemma round_above (v m1 a j : Z) :
  0 < v -> m1 <= v / pow2 (uexp v) + 1 ->
  (v mod pow2 (uexp v) = 0 -> m1 = v / pow2 (uexp v)) ->
  0 <= j -> 0 < a < pow2 53 ->
  v <= a * pow2 j -> m1 * pow2 (uexp v) <= a * pow2 j.
Proof.
  intros Hv Hm Hex Hj Ha Hle.
  pose proof (uexp_nonneg v) as Kn.
  pose proof (pow2_pos (uexp v) Kn) as PK.
  pose proof (pow2_pos j Hj) as PJ.
  pose proof (Z.div_mod v (pow2 (uexp v)) ltac:(lia)) as DM.
  pose proof (Z.mod_pos_bound v (pow2 (uexp v)) PK) as MB.
  destruct (Z_le_gt_dec (uexp v) j) as [L|G].
  - rewrite (pow2_split (uexp v) j) in * by lia.
    pose proof (pow2_pos (j - uexp v) ltac:(lia)) as PD.
    assert (m1 <= a * pow2 (j - uexp v)).
    { destruct (Z.eq_dec (v mod pow2 (uexp v)) 0) as [E0|N0].
      - rewrite (Hex E0). apply Z.div_le_upper_bound; lia.
      - assert (v / pow2 (uexp v) < a * pow2 (j - uexp v)); [|lia].
        destruct (Z_lt_ge_dec (v / pow2 (uexp v)) (a * pow2 (j - uexp v))) as [A|A];
          [exact A|].
        assert (pow2 (uexp v) * (a * pow2 (j - uexp v))
                <= pow2 (uexp v) * (v / pow2 (uexp v))).
        { apply Z.mul_le_mono_nonneg_l; lia. }
        lia. }
    nia.
  - pose proof (uexp_floor v Hv ltac:(lia)) as Q.
    assert (S1 : a * pow2 j < pow2 53 * pow2 j) by (apply Z.mul_lt_mono_pos_r; lia).
    assert (S2 : pow2 (j + 1) <= pow2 (uexp v)) by (apply pow2_le; lia).
    rewrite pow2_succ in S2 by lia.
    change (pow2 53) with (2 * pow2 52) in S1.
    pose proof (pow2_pos 52 ltac:(lia)) as P52.
    assert (S3 : pow2 52 * (2 * pow2 j) <= pow2 52 * pow2 (uexp v)).
    { apply Z.mul_le_mono_nonneg_l; lia. }
    lia.
Qed.

Lemma ulps_SFopp (f : spec_float) : ulps (SFopp f) = - ulps f.
Proof. destruct f as [s|s| |s m e]; cbn [ulps SFopp]; try destruct s; cbn [cond_Zopp negb]; lia. Qed.

Lemma valid_SFopp (f : spec_float) :
  valid_binary prec emax (SFopp f) = valid_binary prec emax f.
Proof. destruct f; reflexivity. Qed.

Lemma isNaN_SFopp (f : spec_float) : isNaN (SFopp f) = isNaN f.
Proof. destruct f; reflexivity. Qed.

Lemma nextTo_exact (f : spec_float) : isNaN f = false -> nextTo (ulps f) f.
Proof. intros H. split; [assumption|]. split; intros g _ _ L; exact L. Qed.

(** [binary_round] gives a number next to the exact value; the exact value
    itself when that is a number of the format. *)
Lemma binary_round_nextTo (s : bool) (p : positive) (e : Z) :
  -1074 <= e ->
  let v := Zpos p * pow2 (e + 1074) in
  valid_binary prec emax (binary_round prec emax s p e) = true
  /\ nextTo (cond_Zopp s v) (binary_round prec emax s p e)
  /\ (v mod pow2 (uexp v) = 0 -> v < pow2 2098 ->
      ulps (binary_round prec emax s p e) = cond_Zopp s v).
Proof.
  intros He v.
  pose proof (pow2_pos (e + 1074) ltac:(lia)) as PE.
  assert (Hv : 0 < v) by (unfold v; lia).
  pose proof (uexp_nonneg v) as Kn.
  pose proof (pow2_pos (uexp v) Kn) as PK.
  pose proof (pow2_pos 2098 ltac:(lia)) as P98.
  destruct (binary_round_spec s p e He) as (m1 & Hb & Hex & Hres). fold v in Hb, Hex, Hres.
  (* the positive part of the result *)
  assert (X : exists x, ulps (binary_round prec emax s p e) = cond_Zopp s x
                        /\ isNaN (binary_round prec emax s p e) = false
                        /\ x <= pow2 2098 /\ x <= m1 * pow2 (uexp v)
                        /\ (m1 * pow2 (uexp v) < pow2 2098 -> x = m1 * pow2 (uexp v))
                        /\ (pow2 2098 <= m1 * pow2 (uexp v) -> x = pow2 2098)).
  { destruct Hres as [[E Hbig]|(m' & e' & E & Hval & Hm')].
    - exists (pow2 2098). rewrite E. cbn [ulps isNaN]. repeat split; lia.
    - rewrite E.
      pose proof (ulps_finite_pos m' e' Hval) as B.
      exists (m1 * pow2 (uexp v)). cbn [ulps isNaN]. rewrite Hm'. repeat split; lia. }
  assert (Hval : valid_binary prec emax (binary_round prec emax s p e) = true).
  { destruct Hres as [[E _]|(m' & e' & E & Hval & _)]; rewrite E; [reflexivity|exact Hval]. }
  split; [exact Hval|].
  destruct X as (x & Ex & Nx & Bx & Lx & Fx & Ix).
  assert (Below : forall g, valid_binary prec emax g = true -> isNaN g = false ->
                            ulps g <= v -> ulps g <= x).
  { intros g Vg Ng Lg.
    assert (M1 : 0 < m1 * pow2 (uexp v)).
    { assert (1 <= v / pow2 (uexp v)).
      { apply Z.div_le_lower_bound; [lia|].
        unfold uexp. pose proof (pow2_log2 v Hv) as L2.
        destruct (Z.max_spec (Z.log2 v - 52) 0) as [[Hc ->]|[Hc ->]].
        - change (pow2 0) with 1. lia.
        - assert (pow2 (Z.log2 v - 52) <= pow2 (Z.log2 v)) by (apply pow2_le; lia). lia. }
      nia. }
    assert (Xp : 0 < x).
    { destruct (Z_lt_ge_dec (m1 * pow2 (uexp v)) (pow2 2098)) as [A|A].
      - rewrite (Fx A). exact M1.
      - rewrite (Ix ltac:(lia)). lia. }
    assert (G : forall a j, 0 <= j -> 0 < a <= pow2 53 -> a * pow2 j <= pow2 2098 ->
                            a * pow2 j <= v -> a * pow2 j <= x).
    { intros a j Hj Ha Hbnd Hle.
      pose proof (round_below v m1 a j Hv ltac:(lia) Hj Ha Hle) as RB.
      destruct (Z_lt_ge_dec (m1 * pow2 (uexp v)) (pow2 2098)) as [A|A].
      - rewrite (Fx A). exact RB.
      - rewrite (Ix ltac:(lia)). exact Hbnd. }
    destruct g as [sg|sg| |sg mg eg]; cbn [ulps] in *; try discriminate Ng.
    - lia.
    - destruct sg; cbn [cond_Zopp] in *; [lia|].
      assert (E98 : pow2 2098 = pow2 53 * pow2 2045) by reflexivity.
      pose proof (pow2_pos 53 ltac:(lia)).
      rewrite E98 in Lg |- *. apply G; lia.
    - cbn [valid_binary] in Vg. pose proof (ulps_finite_pos mg eg Vg) as B.
      apply bounded_spec in Vg.
      destruct sg; cbn [cond_Zopp] in *; [lia|].
      apply G; lia. }
  assert (Above : forall g, valid_binary prec emax g = true -> isNaN g = false ->
                            v <= ulps g -> x <= ulps g).
  { intros g Vg Ng Lg.
    destruct g as [sg|sg| |sg mg eg]; cbn [ulps] in *; try discriminate Ng.
    - lia.
    - destruct sg; cbn [cond_Zopp] in *; lia.
    - cbn [valid_binary] in Vg. pose proof (ulps_finite_pos mg eg Vg) as B.
      apply bounded_spec in Vg.
      destruct sg; cbn [cond_Zopp] in *; [lia|].
      pose proof (round_above v m1 (Zpos mg) (eg + 1074) Hv ltac:(lia) Hex
                    ltac:(lia) ltac:(lia) Lg).
      lia. }
  split.
  - split; [exact Nx|]. rewrite Ex. destruct s; cbn [cond_Zopp].
    + split; intros g Vg Ng Lg.
      * pose proof (Above (SFopp g)) as A. rewrite valid_SFopp, isNaN_SFopp, ulps_SFopp in A.
        specialize (A Vg Ng). lia.
      * pose proof (Below (SFopp g)) as A. rewrite valid_SFopp, isNaN_SFopp, ulps_SFopp in A.
        specialize (A Vg Ng). lia.
    + split; intros g Vg Ng Lg; [apply Below|apply Above]; assumption.
  - intros H0 Hsmall. rewrite Ex. f_equal.
    assert (Em : m1 * pow2 (uexp v) = v).
    { rewrite (Hex H0).
      pose proof (Z.div_mod v (pow2 (uexp v)) ltac:(lia)). lia. }
    rewrite Em in Fx. exact (Fx Hsmall).
Qed.

Lemma shl_align_fst (mx : positive) (ex ez : Z) :
  ez <= ex -> Zpos (fst (shl_align mx ex ez)) = Zpos mx * pow2 (ex - ez).
Proof.
  intros H. unfold shl_align. destruct (ez - ex) as [|d|d] eqn:E; cbn [fst].
  - replace (ex - ez) with 0 by lia. change (pow2 0) with 1. lia.
  - lia.
  - rewrite Pos_iter_xO. f_equal. f_equal. lia.
Qed.

Lemma binary_normalize_nextTo (m e : Z) :
  -1074 <= e ->
  let v := m * pow2 (e + 1074) in
  valid_binary prec emax (binary_normalize prec emax m e false) = true
  /\ nextTo v (binary_normalize prec emax m e false)
  /\ (Z.abs v mod pow2 (uexp (Z.abs v)) = 0 -> Z.abs v < pow2 2098 ->
      ulps (binary_normalize prec emax m e false) = v).
Proof.
  intros He v. pose proof (pow2_pos (e + 1074) ltac:(lia)) as PE.
  destruct m as [|p|p]; cbn [binary_normalize] in *.
  - unfold v. rewrite Z.mul_0_l. split; [reflexivity|].
    split; [apply (nextTo_exact (S754_zero false))|]; reflexivity.
  - pose proof (binary_round_nextTo false p e He) as (H0 & H1 & H2). cbn [cond_Zopp] in *.
    fold v in H1, H2. split; [exact H0|]. split; [exact H1|].
    rewrite Z.abs_eq by (unfold v; lia). exact H2.
  - pose proof (binary_round_nextTo true p e He) as (H0 & H1 & H2). cbn [cond_Zopp] in *.
    assert (Ev : v = - (Zpos p * pow2 (e + 1074))) by (unfold v; lia).
    rewrite Ev. split; [exact H0|]. split; [exact H1|].
    rewrite Z.abs_opp, Z.abs_eq by lia. exact H2.
Qed.

Lemma finite_exponent (s : bool) (m : positive) (e : Z) :
  valid_binary prec emax (S754_finite s m e) = true -> -1074 <= e <= 971.
Proof. cbn [valid_binary]. intros H. apply bounded_spec in H. lia. Qed.

(** The sum of two finite numbers is next to the exact sum, and is the
    exact sum when that is a number of the format. *)
Lemma SFadd_nextTo (f g : spec_float) :
  valid_binary prec emax f = true -> valid_binary prec emax g = true ->
  isFinite f = true -> isFinite g = true ->
  let v := ulps f + ulps g in
  nextTo v (SFadd prec emax f g)
  /\ (Z.abs v mod pow2 (uexp (Z.abs v)) = 0 -> Z.abs v < pow2 2098 ->
      ulps (SFadd prec emax f g) = v).
Proof.
  intros Vf Vg Ff Fg v.
  destruct f as [sf|sf| |sf mf ef]; try discriminate Ff;
  destruct g as [sg|sg| |sg mg eg]; try discriminate Fg.
  - assert (E : ulps (SFadd prec emax (S754_zero sf) (S754_zero sg)) = v)
      by (destruct sf, sg; reflexivity).
    rewrite <- E. split; [apply nextTo_exact; destruct sf, sg|]; reflexivity.
  - split; [apply (nextTo_exact (S754_finite sg mg eg))|]; reflexivity.
  - unfold v. cbn [ulps SFadd]. rewrite Z.add_0_r.
    split; [apply (nextTo_exact (S754_finite sf mf ef))|]; reflexivity.
  - pose proof (finite_exponent _ _ _ Vf) as Ef. pose proof (finite_exponent _ _ _ Vg) as Eg.
    cbn [SFadd] in *.
    pose proof (binary_normalize_nextTo
                  (cond_Zopp sf (Zpos (fst (shl_align mf ef (Z.min ef eg))))
                   + cond_Zopp sg (Zpos (fst (shl_align mg eg (Z.min ef eg)))))
                  (Z.min ef eg) ltac:(lia)) as H.
    cbv zeta in H. destruct H as [_ H].
    assert (Ev : (cond_Zopp sf (Zpos (fst (shl_align mf ef (Z.min ef eg))))
                  + cond_Zopp sg (Zpos (fst (shl_align mg eg (Z.min ef eg)))))
                 * pow2 (Z.min ef eg + 1074) = v).
    { rewrite !shl_align_fst by lia. unfold v. cbn [ulps].
      rewrite (pow2_split (Z.min ef eg + 1074) (ef + 1074)) by lia.
      rewrite (pow2_split (Z.min ef eg + 1074) (eg + 1074)) by lia.
      replace (ef + 1074 - (Z.min ef eg + 1074)) with (ef - Z.min ef eg) by lia.
      replace (eg + 1074 - (Z.min ef eg + 1074)) with (eg - Z.min ef eg) by lia.
      destruct sf, sg; cbn [cond_Zopp]; lia. }
    rewrite Ev in H. exact H.
Qed.

Lemma SFsub_nextTo (f g : spec_float) :
  valid_binary prec emax f = true -> valid_binary prec emax g = true ->
  isFinite f = true -> isFinite g = true ->
  let v := ulps f - ulps g in
  nextTo v (SFsub prec emax f g)
  /\ (Z.abs v mod pow2 (uexp (Z.abs v)) = 0 -> Z.abs v < pow2 2098 ->
      ulps (SFsub prec emax f g) = v).
Proof.
  intros Vf Vg Ff Fg v.
  destruct f as [sf|sf| |sf mf ef]; try discriminate Ff;
  destruct g as [sg|sg| |sg mg eg]; try discriminate Fg.
  - assert (E : ulps (SFsub prec emax (S754_zero sf) (S754_zero sg)) = v)
      by (destruct sf, sg; reflexivity).
    rewrite <- E. split; [apply nextTo_exact; destruct sf, sg|]; reflexivity.
  - assert (E : ulps (SFsub prec emax (S754_zero sf) (S754_finite sg mg eg)) = v).
    { unfold v. cbn [ulps SFsub]. destruct sg; cbn [cond_Zopp negb]; lia. }
    rewrite <- E. split; [apply nextTo_exact|]; reflexivity.
  - unfold v. cbn [ulps SFsub]. rewrite Z.sub_0_r.
    split; [apply (nextTo_exact (S754_finite sf mf ef))|]; reflexivity.
  - pose proof (finite_exponent _ _ _ Vf) as Ef. pose proof (finite_exponent _ _ _ Vg) as Eg.
    cbn [SFsub] in *.
    pose proof (binary_normalize_nextTo
                  (cond_Zopp sf (Zpos (fst (shl_align mf ef (Z.min ef eg))))
                   - cond_Zopp sg (Zpos (fst (shl_align mg eg (Z.min ef eg)))))
                  (Z.min ef eg) ltac:(lia)) as H.
    cbv zeta in H. destruct H as [_ H].
    assert (Ev : (cond_Zopp sf (Zpos (fst (shl_align mf ef (Z.min ef eg))))
                  - cond_Zopp sg (Zpos (fst (shl_align mg eg (Z.min ef eg)))))
                 * pow2 (Z.min ef eg + 1074) = v).
    { rewrite !shl_align_fst by lia. unfold v. cbn [ulps].
      rewrite (pow2_split (Z.min ef eg + 1074) (ef + 1074)) by lia.
      rewrite (pow2_split (Z.min ef eg + 1074) (eg + 1074)) by lia.
      replace (ef + 1074 - (Z.min ef eg + 1074)) with (ef - Z.min ef eg) by lia.
      replace (eg + 1074 - (Z.min ef eg + 1074)) with (eg - Z.min ef eg) by lia.
      destruct sf, sg; cbn [cond_Zopp]; lia. }
    rewrite Ev in H. exact H.
Qed.

(** ** The numbers of the program *)

Lemma float_valid (a : float) : valid_binary prec emax (FloatOps.Prim2SF a) = true.
Proof. exact (FloatAxioms.Prim2SF_valid a). Qed.

Lemma leb_units (a b : float) :
  isNaN (FloatOps.Prim2SF a) = false -> isNaN (FloatOps.Prim2SF b) = false ->
  PrimFloat.leb a b = (units a <=? units b).
Proof.
  intros Na Nb. rewrite FloatAxioms.leb_spec. unfold SFleb.
  change FloatOps.prec with prec. change FloatOps.emax with emax.
  rewrite (SFcompare_ulps _ _ (float_valid a) (float_valid b) Na Nb).
  unfold units, Z.leb. destruct (ulps _ ?= ulps _); reflexivity.
Qed.

Lemma ltb_units (a b : float) :
  isNaN (FloatOps.Prim2SF a) = false -> isNaN (FloatOps.Prim2SF b) = false ->
  PrimFloat.ltb a b = (units a <? units b).
Proof.
  intros Na Nb. rewrite FloatAxioms.ltb_spec. unfold SFltb.
  rewrite (SFcompare_ulps _ _ (float_valid a) (float_valid b) Na Nb).
  unfold units, Z.ltb. destruct (ulps _ ?= ulps _); reflexivity.
Qed.

Lemma leb_true (a b : float) :
  PrimFloat.leb a b = true ->
  isNaN (FloatOps.Prim2SF a) = false /\ isNaN (FloatOps.Prim2SF b) = false
  /\ units a <= units b.
Proof.
  intros H.
  assert (N : isNaN (FloatOps.Prim2SF a) = false /\ isNaN (FloatOps.Prim2SF b) = false).
  { rewrite FloatAxioms.leb_spec in H. unfold SFleb in H.
    destruct (FloatOps.Prim2SF a), (FloatOps.Prim2SF b); cbn in H |- *;
      try discriminate H; auto. }
  destruct N as [Na Nb]. rewrite (leb_units a b Na Nb) in H.
  apply Z.leb_le in H. auto.
Qed.

Lemma ltb_true (a b : float) :
  PrimFloat.ltb a b = true ->
  isNaN (FloatOps.Prim2SF a) = false /\ isNaN (FloatOps.Prim2SF b) = false
  /\ units a < units b.
Proof.
  intros H.
  assert (N : isNaN (FloatOps.Prim2SF a) = false /\ isNaN (FloatOps.Prim2SF b) = false).
  { rewrite FloatAxioms.ltb_spec in H. unfold SFltb in H.
    destruct (FloatOps.Prim2SF a), (FloatOps.Prim2SF b); cbn in H |- *;
      try discriminate H; auto. }
  destruct N as [Na Nb]. rewrite (ltb_units a b Na Nb) in H.
  apply Z.ltb_lt in H. auto.
Qed.

Lemma leb_NaN_l (a b : float) : isNaN (FloatOps.Prim2SF a) = true -> PrimFloat.leb a b = false.
Proof.
  intros H. rewrite FloatAxioms.leb_spec. destruct (FloatOps.Prim2SF a); try discriminate H.
  reflexivity.
Qed.

Lemma leb_NaN_r (a b : float) : isNaN (FloatOps.Prim2SF b) = true -> PrimFloat.leb a b = false.
Proof.
  intros H. rewrite FloatAxioms.leb_spec. destruct (FloatOps.Prim2SF b); try discriminate H.
  destruct (FloatOps.Prim2SF a); reflexivity.
Qed.

Lemma add_nextTo (a b : float) :
  isFinite (FloatOps.Prim2SF a) = true -> isFinite (FloatOps.Prim2SF b) = true ->
  let v := units a + units b in
  nextTo v (FloatOps.Prim2SF (a + b))
  /\ (Z.abs v mod pow2 (uexp (Z.abs v)) = 0 -> Z.abs v < pow2 2098 -> units (a + b) = v).
Proof.
  intros Fa Fb. unfold units.
  rewrite FloatAxioms.add_spec.
  exact (SFadd_nextTo _ _ (float_valid a) (float_valid b) Fa Fb).
Qed.

Lemma sub_nextTo (a b : float) :
  isFinite (FloatOps.Prim2SF a) = true -> isFinite (FloatOps.Prim2SF b) = true ->
  let v := units a - units b in
  nextTo v (FloatOps.Prim2SF (a - b))
  /\ (Z.abs v mod pow2 (uexp (Z.abs v)) = 0 -> Z.abs v < pow2 2098 -> units (a - b) = v).
Proof.
  intros Fa Fb. unfold units.
  rewrite FloatAxioms.sub_spec.
  exact (SFsub_nextTo _ _ (float_valid a) (float_valid b) Fa Fb).
Qed.

Lemma Prim2SF_float_of_Z (z : Z) :
  FloatOps.Prim2SF (float_of_Z z) = binary_normalize prec emax z 0 false.
Proof.
  unfold float_of_Z. apply FloatAxioms.Prim2SF_SF2Prim.
  exact (proj1 (binary_normalize_nextTo z 0 ltac:(lia))).
Qed.

Lemma exact_multiple (v j : Z) :
  0 < v -> 0 <= j -> v mod pow2 j = 0 -> uexp v <= j -> v mod pow2 (uexp v) = 0.
Proof.
  intros Hv Hj Hm Hk. pose proof (uexp_nonneg v) as Kn.
  pose proof (pow2_pos (uexp v) Kn) as PK. pose proof (pow2_pos j Hj) as PJ.
  apply Z.mod_divide in Hm; [|lia]. destruct Hm as [q Hq].
  apply Z.mod_divide; [lia|].
  exists (q * pow2 (j - uexp v)). rewrite (pow2_split (uexp v) j) in Hq by lia. lia.
Qed.

(** An integer below [2 ^ 53] in absolute value is a number of the format. *)
Lemma units_float_of_Z (z : Z) : Z.abs z <= pow2 53 -> units (float_of_Z z) = z * pow2 1074.
Proof.
  intros Hz. unfold units. rewrite Prim2SF_float_of_Z.
  destruct (binary_normalize_nextTo z 0 ltac:(lia)) as (_ & _ & H).
  change (0 + 1074) with 1074 in H. apply H.
  - pose proof (pow2_pos 1074 ltac:(lia)) as P.
    rewrite Z.abs_mul, (Z.abs_eq (pow2 1074)) by lia.
    destruct (Z.eq_dec z 0) as [->|Hne]; [reflexivity|].
    destruct (Z.eq_dec (Z.abs z) (pow2 53)) as [E|NE].
    + rewrite E, <- pow2_add by lia.
      assert (U : uexp (pow2 (53 + 1074)) = 1075).
      { unfold uexp. rewrite (log2_unique (pow2 (53 + 1074)) (53 + 1074)); [lia|lia|].
        split; [lia|]. apply pow2_lt. lia. }
      rewrite U. apply Z.mod_divide; [pose proof (pow2_pos 1075); lia|].
      exists (pow2 52). rewrite <- pow2_add by lia. reflexivity.
    + apply (exact_multiple _ 1074); [lia|lia|apply Z.mod_mul; lia|].
      unfold uexp. rewrite log2_mul_pow2 by lia.
      assert (Z.log2 (Z.abs z) < 53); [|lia].
      apply Z.log2_lt_pow2; [lia|]. fold (pow2 53). lia.
  - pose proof (pow2_pos 1074 ltac:(lia)) as P.
    rewrite Z.abs_mul, (Z.abs_eq (pow2 1074)) by lia.
    change (pow2 2098) with (pow2 1024 * pow2 1074).
    assert (pow2 53 < pow2 1024) by (apply pow2_lt; lia). nia.
Qed.

Lemma units_one : units 1%float = pow2 1074.
Proof. reflexivity. Qed.

End Binary64.

(** ** The numbers of the program: order and sign *)

Section Binary64Order.
Import SpecFloat.

(** Two numbers with the same value, other than 0, are the same number. *)
Lemma ulps_inj (f g : spec_float) :
  valid_binary prec emax f = true -> valid_binary prec emax g = true ->
  isNaN f = false -> isNaN g = false ->
  ulps f = ulps g -> ulps f <> 0 -> f = g.
Proof.
  pose proof (pow2_pos 2098 ltac:(lia)) as P.
  intros Vf Vg Nf Ng E Hne.
  destruct f as [sf|sf| |sf mf ef]; try discriminate Nf;
  destruct g as [sg|sg| |sg mg eg]; try discriminate Ng;
  cbn [ulps valid_binary] in *;
  try pose proof (ulps_finite_pos _ _ Vf) as Bf;
  try pose proof (ulps_finite_pos _ _ Vg) as Bg;
  try (exfalso; lia).
  - destruct sf, sg; cbn [cond_Zopp] in *; try reflexivity; exfalso; lia.
  - destruct sf, sg; cbn [cond_Zopp] in *; exfalso; lia.
  - destruct sf, sg; cbn [cond_Zopp] in *; exfalso; lia.
  - assert (Es : sf = sg) by (destruct sf, sg; cbn [cond_Zopp] in *; try reflexivity; lia).
    subst sg.
    assert (Em : Zpos mf * pow2 (ef + 1074) = Zpos mg * pow2 (eg + 1074))
      by (destruct sf; cbn [cond_Zopp] in *; lia).
    assert (Ee : ef = eg).
    { destruct (Z.lt_trichotomy ef eg) as [L|[Q|G]]; [exfalso|exact Q|exfalso].
      - pose proof (ulps_exponent_lt _ _ _ _ Vf Vg L). lia.
      - pose proof (ulps_exponent_lt _ _ _ _ Vg Vf G). lia. }
    subst eg. apply bounded_spec in Vf.
    pose proof (pow2_pos (ef + 1074) ltac:(lia)) as Q.
    assert (Zpos mf = Zpos mg) by nia. congruence.
Qed.

Lemma units_inj (a b : float) :
  isNaN (FloatOps.Prim2SF a) = false -> isNaN (FloatOps.Prim2SF b) = false ->
  units a = units b -> units a <> 0 -> a = b.
Proof.
  intros Na Nb E Hne. apply FloatAxioms.Prim2SF_inj.
  apply ulps_inj; auto using float_valid.
Qed.

Lemma SFcompare_refl (f : spec_float) : isNaN f = false -> SFcompare f f = Some Eq.
Proof.
  intros H. destruct f as [s|s| |s m e]; try discriminate H; cbn [SFcompare].
  - reflexivity.
  - destruct s; reflexivity.
  - rewrite Z.compare_refl. change (Pos.compare_cont Eq m m) with (Pos.compare m m).
    rewrite Pos.compare_refl. destruct s; reflexivity.
Qed.

Lemma is_finite_spec (a : float) :
  PrimFloat.is_finite a = isFinite (FloatOps.Prim2SF a).
Proof.
  unfold PrimFloat.is_finite, PrimFloat.is_nan, PrimFloat.is_infinity.
  rewrite !FloatAxioms.eqb_spec, FloatAxioms.abs_spec.
  change (FloatOps.Prim2SF infinity) with (S754_infinity false).
  unfold SFeqb.
  destruct (FloatOps.Prim2SF a) as [s|s| |s m e] eqn:E.
  - reflexivity.
  - destruct s; reflexivity.
  - reflexivity.
  - rewrite SFcompare_refl by reflexivity. reflexivity.
Qed.

Lemma isFinite_notNaN (f : spec_float) : isFinite f = true -> isNaN f = false.
Proof. destruct f; intros H; try discriminate H; reflexivity. Qed.

Lemma isFinite_units (a : float) :
  isNaN (FloatOps.Prim2SF a) = false ->
  - pow2 2098 < units a < pow2 2098 -> isFinite (FloatOps.Prim2SF a) = true.
Proof.
  unfold units. intros N B.
  destruct (FloatOps.Prim2SF a) as [s|s| |s m e]; try discriminate N; try reflexivity.
  destruct s; cbn [ulps cond_Zopp] in B; lia.
Qed.

Lemma units_finite_bound (a : float) :
  isFinite (FloatOps.Prim2SF a) = true -> - pow2 2098 < units a < pow2 2098.
Proof.
  unfold units. intros F. pose proof (float_valid a) as V.
  pose proof (pow2_pos 2098 ltac:(lia)) as P.
  destruct (FloatOps.Prim2SF a) as [s|s| |s m e]; try discriminate F; cbn [ulps].
  - lia.
  - cbn [valid_binary] in V. pose proof (ulps_finite_pos m e V).
    destruct s; cbn [cond_Zopp]; lia.
Qed.

Lemma leb_trans (a b c : float) :
  PrimFloat.leb a b = true -> PrimFloat.leb b c = true -> PrimFloat.leb a c = true.
Proof.
  intros H1 H2. apply leb_true in H1. apply leb_true in H2.
  destruct H1 as (Na & Nb & L1). destruct H2 as (_ & Nc & L2).
  rewrite (leb_units a c Na Nc). apply Z.leb_le. lia.
Qed.

Lemma leb_false (a b : float) :
  PrimFloat.leb a b = false ->
  isNaN (FloatOps.Prim2SF a) = true \/ isNaN (FloatOps.Prim2SF b) = true
  \/ units b < units a.
Proof.
  intros H.
  destruct (isNaN (FloatOps.Prim2SF a)) eqn:Na; [now left|].
  destruct (isNaN (FloatOps.Prim2SF b)) eqn:Nb; [now right; left|].
  right. right. rewrite (leb_units a b Na Nb) in H. apply Z.leb_gt in H. exact H.
Qed.

(** ** Signs of products and quotients *)

Lemma shr_1_m_nonneg (mrs : shr_record) : 0 <= shr_m mrs -> 0 <= shr_m (shr_1 mrs).
Proof.
  destruct mrs as [m r s]. cbn [shr_m]. intros H.
  rewrite shr_1_nonneg by exact H. cbn [shr_m]. apply Z.div_pos; lia.
Qed.

Lemma shr_m_nonneg (mrs : shr_record) (e n : Z) :
  0 <= shr_m mrs -> 0 <= shr_m (fst (shr mrs e n)).
Proof.
  intros H. destruct n as [|p|p]; cbn [shr fst]; try exact H.
  rewrite iter_pos_nat. induction (Pos.to_nat p) as [|k IH]; [exact H|].
  change (Nat.iter (S k) shr_1 mrs) with (shr_1 (Nat.iter k shr_1 mrs)).
  now apply shr_1_m_nonneg.
Qed.

Lemma shr_record_of_loc_m (m : Z) (l : location) : shr_m (shr_record_of_loc m l) = m.
Proof. destruct l as [|[| |]]; reflexivity. Qed.

Lemma round_nearest_even_nonneg (m : Z) (l : location) :
  0 <= m -> 0 <= round_nearest_even m l.
Proof.
  intros H. destruct l as [|[| |]]; cbn [round_nearest_even]; try lia.
  destruct (Z.even m); lia.
Qed.

(** [binary_round_aux] on a mantissa that is not negative gives a number
    with the sign it is asked for: no NaN. *)
Lemma binary_round_aux_nonneg (m e : Z) (l : location) :
  0 <= m ->
  isNaN (binary_round_aux prec emax false m e l) = false
  /\ 0 <= ulps (binary_round_aux prec emax false m e l).
Proof.
  intros H. unfold binary_round_aux, shr_fexp.
  destruct (shr (shr_record_of_loc m l) e _) as [mrs' e'] eqn:E1.
  assert (H1 : 0 <= shr_m mrs').
  { change mrs' with (fst (mrs', e')). rewrite <- E1. apply shr_m_nonneg.
    now rewrite shr_record_of_loc_m. }
  destruct (shr (shr_record_of_loc _ loc_Exact) e' _) as [mrs'' e''] eqn:E2.
  assert (H2 : 0 <= shr_m mrs'').
  { change mrs'' with (fst (mrs'', e'')). rewrite <- E2. apply shr_m_nonneg.
    rewrite shr_record_of_loc_m. now apply round_nearest_even_nonneg. }
  destruct (shr_m mrs'') as [|p|p]; [split; [reflexivity|cbn; lia]| |lia].
  destruct (e'' <=? emax - prec); cbn [isNaN ulps cond_Zopp]; split; try reflexivity.
  - destruct (Z_le_gt_dec 0 (e'' + 1074)) as [A|A].
    + pose proof (pow2_pos _ A). lia.
    + unfold pow2. rewrite Z.pow_neg_r by lia. lia.
  - pose proof (pow2_pos 2098 ltac:(lia)). lia.
Qed.

(** A finite number that is not negative: [+0], [-0] or a mantissa with
    the sign [+]. *)
Lemma nonneg_cases (f : spec_float) :
  valid_binary prec emax f = true -> isNaN f = false -> 0 <= ulps f ->
  (exists s, f = S754_zero s) \/ f = S754_infinity false
  \/ exists m e, f = S754_finite false m e.
Proof.
  pose proof (pow2_pos 2098 ltac:(lia)) as P.
  intros V N H. destruct f as [s|s| |s m e]; try discriminate N.
  - left. now exists s.
  - right. left. destruct s; [cbn in H; lia|reflexivity].
  - right. right. cbn [valid_binary] in V. pose proof (ulps_finite_pos m e V).
    destruct s; [cbn [ulps cond_Zopp] in H; lia|]. now exists m, e.
Qed.

Lemma SFmul_nonneg (f g : spec_float) :
  valid_binary prec emax f = true -> valid_binary prec emax g = true ->
  isFinite f = true -> isFinite g = true ->
  0 <= ulps f -> 0 <= ulps g ->
  isNaN (SFmul prec emax f g) = false /\ 0 <= ulps (SFmul prec emax f g).
Proof.
  intros Vf Vg Ff Fg Hf Hg.
  destruct (nonneg_cases f Vf (isFinite_notNaN f Ff) Hf) as [[sf ->]|[->|(mf & ef & ->)]];
    try discriminate Ff;
  destruct (nonneg_cases g Vg (isFinite_notNaN g Fg) Hg) as [[sg ->]|[->|(mg & eg & ->)]];
    try discriminate Fg; cbn [SFmul]; try (split; [reflexivity|cbn; lia]).
  cbn [xorb]. apply binary_round_aux_nonneg. lia.
Qed.

Lemma SFdiv_nonneg (f g : spec_float) :
  valid_binary prec emax f = true -> valid_binary prec emax g = true ->
  isNaN f = false -> isFinite g = true ->
  0 <= ulps f -> 0 < ulps g ->
  isNaN (SFdiv prec emax f g) = false /\ 0 <= ulps (SFdiv prec emax f g).
Proof.
  pose proof (pow2_pos 2098 ltac:(lia)) as P.
  intros Vf Vg Nf Fg Hf Hg.
  destruct (nonneg_cases g Vg (isFinite_notNaN g Fg) ltac:(lia)) as [[sg ->]|[->|(mg & eg & ->)]];
    try discriminate Fg; [cbn in Hg; lia|].
  destruct (nonneg_cases f Vf Nf Hf) as [[sf ->]|[->|(mf & ef & ->)]]; cbn [SFdiv xorb].
  - split; [reflexivity|cbn; lia].
  - split; [reflexivity|cbn; lia].
  - unfold SFdiv_core_binary.
    set (m' := match _ with Zpos _ => _ | Z0 => _ | Zneg _ => _ end).
    assert (Hm' : 0 <= m').
    { unfold m'. destruct (_ - _ - _) as [|q|q]; try lia.
      apply Z.shiftl_nonneg. lia. }
    pose proof (Z_div_mod m' (Zpos mg) ltac:(lia)) as DM.
    destruct (Z.div_eucl m' (Zpos mg)) as [q r]. destruct DM as [DM1 DM2].
    apply binary_round_aux_nonneg. nia.
Qed.

End Binary64Order.

Lemma leb_zero (a : float) :
  PrimFloat.leb 0 a = true <-> isNaN (FloatOps.Prim2SF a) = false /\ 0 <= units a.
Proof.
  split.
  - intros H. apply leb_true in H. destruct H as (_ & N & L). split; [exact N|exact L].
  - intros [N L]. rewrite (leb_units 0 a eq_refl N). now apply Z.leb_le.
Qed.

Lemma ltb_zero (a : float) :
  PrimFloat.ltb 0 a = true <-> isNaN (FloatOps.Prim2SF a) = false /\ 0 < units a.
Proof.
  split.
  - intros H. apply ltb_true in H. destruct H as (_ & N & L). split; [exact N|exact L].
  - intros [N L]. rewrite (ltb_units 0 a eq_refl N). now apply Z.ltb_lt.
Qed.

(** A product of two finite numbers that are not negative is not negative. *)
Lemma mul_nonneg (a b : float) :
  PrimFloat.is_finite a = true -> PrimFloat.is_finite b = true ->
  PrimFloat.leb 0 a = true -> PrimFloat.leb 0 b = true ->
  PrimFloat.leb 0 (a * b) = true.
Proof.
  rewrite !is_finite_spec, !leb_zero. intros Fa Fb [_ Ha] [_ Hb].
  unfold units. rewrite FloatAxioms.mul_spec.
  exact (SFmul_nonneg _ _ (float_valid a) (float_valid b) Fa Fb Ha Hb).
Qed.

(** A quotient of a number that is not negative by a finite positive one is
    not negative. *)
Lemma div_nonneg (a b : float) :
  PrimFloat.leb 0 a = true -> PrimFloat.ltb 0 b = true -> PrimFloat.is_finite b = true ->
  PrimFloat.leb 0 (a / b) = true.
Proof.
  rewrite is_finite_spec, !leb_zero, ltb_zero. intros [Na Ha] [_ Hb] Fb.
  unfold units. rewrite FloatAxioms.div_spec.
  exact (SFdiv_nonneg _ _ (float_valid a) (float_valid b) Na Fb Ha Hb).
Qed.

(** Adding a number that is not negative does not take a number down. *)
Lemma add_nondecreasing (t a : float) :
  PrimFloat.ltb neg_infinity t = true -> PrimFloat.leb 0 a = true ->
  PrimFloat.leb t (t + a) = true.
Proof.
  intros Ht Ha. apply ltb_true in Ht. destruct Ht as (_ & Nt & Lt).
  apply leb_zero in Ha. destruct Ha as [Na La].
  pose proof (pow2_pos 2098 ltac:(lia)) as P.
  change (units neg_infinity) with (- pow2 2098) in Lt.
  pose proof (ulps_bound _ (float_valid t)) as Bt. fold (units t) in Bt.
  pose proof (ulps_bound _ (float_valid a)) as Ba. fold (units a) in Ba.
  destruct (Z.eq_dec (units a) (pow2 2098)) as [Ia|Fa].
  - (* a is +Infinity *)
    assert (Ea : FloatOps.Prim2SF a = SpecFloat.S754_infinity false).
    { apply (ulps_inj _ (SpecFloat.S754_infinity false) (float_valid a) eq_refl Na eq_refl Ia).
      fold (units a). lia. }
    assert (Er : FloatOps.Prim2SF (t + a) = SpecFloat.S754_infinity false).
    { rewrite FloatAxioms.add_spec, Ea. unfold units in Lt.
      destruct (FloatOps.Prim2SF t) as [s|s| |s m e]; try discriminate Nt; try reflexivity.
      destruct s; [cbn in Lt; lia|reflexivity]. }
    rewrite leb_units by (try assumption; now rewrite Er).
    apply Z.leb_le. unfold units at 2. rewrite Er. exact (proj2 Bt).
  - destruct (Z.eq_dec (units t) (pow2 2098)) as [It|Ft].
    + (* t is +Infinity *)
      assert (Et : FloatOps.Prim2SF t = SpecFloat.S754_infinity false).
      { apply (ulps_inj _ (SpecFloat.S754_infinity false) (float_valid t) eq_refl Nt eq_refl It).
        fold (units t). lia. }
      assert (Er : FloatOps.Prim2SF (t + a) = SpecFloat.S754_infinity false).
      { rewrite FloatAxioms.add_spec, Et. unfold units in La, Fa.
        destruct (FloatOps.Prim2SF a) as [s|s| |s m e]; try discriminate Na; try reflexivity.
        destruct s; [cbn in La; lia|reflexivity]. }
      rewrite leb_units by (try assumption; now rewrite Er).
      apply Z.leb_le. unfold units. rewrite Er, Et. lia.
    + assert (Fint : isFinite (FloatOps.Prim2SF t) = true) by (apply isFinite_units; [assumption|lia]).
      assert (Fina : isFinite (FloatOps.Prim2SF a) = true) by (apply isFinite_units; [assumption|lia]).
      destruct (add_nextTo t a Fint Fina) as [(Nr & Below & _) _].
      rewrite leb_units by assumption. apply Z.leb_le.
      apply (Below (FloatOps.Prim2SF t) (float_valid t) Nt). fold (units t). lia.
Qed.

(** ** The wrap loop in binary64 *)

Lemma wrap_float_step (n : nat) (c : float) :
  wrapCycleProgress (S n) c
  = if PrimFloat.leb 1 c then wrapCycleProgress n (c - 1)%float else Some c.
Proof. reflexivity. Qed.

Lemma units_wrapLimit : units wrapLimit = 9007199254740996 * pow2 1074.
Proof. reflexivity. Qed.

Lemma positive_form (c : float) :
  isNaN (FloatOps.Prim2SF c) = false -> 0 < units c < pow2 2098 ->
  exists m e, FloatOps.Prim2SF c = SpecFloat.S754_finite false m e
              /\ SpecFloat.bounded prec emax m e = true
              /\ units c = Zpos m * pow2 (e + 1074).
Proof.
  intros N B. pose proof (float_valid c) as V. unfold units in *.
  destruct (nonneg_cases _ V N ltac:(lia)) as [[s E]|[E|(m & e & E)]]; rewrite E in *.
  - cbn in B. lia.
  - cbn in B. lia.
  - exists m, e. split; [reflexivity|]. split; [exact V|reflexivity].
Qed.

(** Subtracting 1 from a number from 1 to below [2 ^ 53] is exact. *)
Lemma sub_one_exact (c : float) :
  isNaN (FloatOps.Prim2SF c) = false ->
  pow2 1074 <= units c < pow2 1127 ->
  isNaN (FloatOps.Prim2SF (c - 1)) = false /\ units (c - 1) = units c - pow2 1074.
Proof.
  intros N B.
  pose proof (pow2_pos 1074 ltac:(lia)) as P74.
  assert (P27 : pow2 1127 < pow2 2098) by (apply pow2_lt; lia).
  destruct (positive_form c N ltac:(lia)) as (m & e & E & Vm & U).
  assert (Fc : isFinite (FloatOps.Prim2SF c) = true) by (now rewrite E).
  destruct (sub_nextTo c 1 Fc eq_refl) as [(Nr & _) Hex].
  split; [exact Nr|]. rewrite units_one in Hex.
  pose proof (uexp_finite m e Vm) as Ue. rewrite <- U in Ue.
  apply bounded_spec in Vm. destruct Vm as (He & Hm & Hn).
  assert (He0 : e <= 0).
  { destruct (Z_le_gt_dec e 0) as [A|A]; [exact A|exfalso].
    assert (pow2 52 <= Zpos m) by (apply Hn; lia).
    assert (pow2 1075 <= pow2 (e + 1074)) by (apply pow2_le; lia).
    change (pow2 1127) with (pow2 52 * pow2 1075) in B.
    pose proof (pow2_pos 52 ltac:(lia)). pose proof (pow2_pos 1075 ltac:(lia)). nia. }
  rewrite Z.abs_eq in Hex by lia. apply Hex; [|lia].
  destruct (Z.eq_dec (units c - pow2 1074) 0) as [Z0|NZ]; [rewrite Z0; reflexivity|].
  apply (exact_multiple _ (e + 1074)); [lia|lia| |].
  - rewrite U, (pow2_split (e + 1074) 1074) by lia.
    pose proof (pow2_pos (e + 1074) ltac:(lia)).
    apply Z.mod_divide; [lia|].
    exists (Zpos m - pow2 (1074 - (e + 1074))). ring.
  - rewrite <- Ue. apply uexp_mono. lia.
Qed.

(** Below [2 ^ 53] the wrap loop ends, after as many iterations as the
    integer part of the value. *)
Lemma wrap_small (n : nat) : forall c : float,
  isNaN (FloatOps.Prim2SF c) = true
  \/ (units c < (Z.of_nat n + 1) * pow2 1074 /\ units c < pow2 1127) ->
  exists c', wrapCycleProgress (S n) c = Some c'.
Proof.
  pose proof (pow2_pos 1074 ltac:(lia)) as P74.
  induction n as [|n IH]; intros c H; rewrite wrap_float_step.
  - destruct (PrimFloat.leb 1 c) eqn:L; [exfalso|now exists c].
    apply leb_true in L. destruct L as (_ & N & L). rewrite units_one in L.
    destruct H as [H|[H _]]; [congruence|]. lia.
  - destruct (PrimFloat.leb 1 c) eqn:L; [|now exists c].
    apply leb_true in L. destruct L as (_ & N & L). rewrite units_one in L.
    destruct H as [H|[H1 H2]]; [congruence|].
    destruct (sub_one_exact c N ltac:(lia)) as [Nr Ur].
    apply IH. right. rewrite Ur. rewrite Nat2Z.inj_succ in H1. lia.
Qed.

Lemma wrap_below_2_53 (c : float) :
  isNaN (FloatOps.Prim2SF c) = true \/ units c < pow2 1127 ->
  exists n c', wrapCycleProgress n c = Some c'.
Proof.
  pose proof (pow2_pos 1074 ltac:(lia)) as P74.
  intros H. exists (S (Z.to_nat (units c / pow2 1074))).
  apply wrap_small. destruct H as [H|H]; [now left|right]. split; [|exact H].
  destruct (Z_lt_ge_dec (units c) 0) as [Neg|Pos]; [nia|].
  rewrite Z2Nat.id by (apply Z.div_pos; lia).
  pose proof (Z.div_mod (units c) (pow2 1074) ltac:(lia)).
  pose proof (Z.mod_pos_bound (units c) (pow2 1074) P74). lia.
Qed.

(** The wrap loop ends on every value below [2 ^ 53 + 4] and on NaN. *)
Lemma wrap_terminates (c : float) :
  PrimFloat.leb wrapLimit c = false -> exists n c', wrapCycleProgress n c = Some c'.
Proof.
  intros H. apply leb_false in H. destruct H as [H|[H|H]]; [discriminate H| |].
  - apply wrap_below_2_53. now left.
  - destruct (isNaN (FloatOps.Prim2SF c)) eqn:N; [apply wrap_below_2_53; now left|].
    destruct (Z_lt_ge_dec (units c) (pow2 1127)) as [S|B];
      [apply wrap_below_2_53; now right|].
    rewrite units_wrapLimit in H.
    pose proof (pow2_pos 1074 ltac:(lia)) as P74.
    pose proof (pow2_pos 1127 ltac:(lia)) as P27.
    assert (P98 : pow2 1128 < pow2 2098) by (apply pow2_lt; lia).
    assert (E28 : pow2 1128 = 18014398509481984 * pow2 1074) by reflexivity.
    destruct (positive_form c N ltac:(lia)) as (m & e & E & Vm & U).
    pose proof Vm as Vm'. apply bounded_spec in Vm'. destruct Vm' as (He & Hm & Hn).
    (* the exponent is 1 *)
    assert (He1 : e = 1).
    { destruct (Z.lt_trichotomy e 1) as [A|[A|A]]; [exfalso|exact A|exfalso].
      - assert (pow2 (e + 1074) <= pow2 1074) by (apply pow2_le; lia).
        change (pow2 1127) with (pow2 53 * pow2 1074) in B.
        pose proof (pow2_pos (e + 1074) ltac:(lia)). nia.
      - assert (pow2 52 <= Zpos m) by (apply Hn; lia).
        assert (pow2 1076 <= pow2 (e + 1074)) by (apply pow2_le; lia).
        assert (E76 : pow2 1076 = 4 * pow2 1074) by reflexivity.
        change (pow2 52) with 4503599627370496 in *. nia. }
    subst e. change (pow2 (1 + 1074)) with (2 * pow2 1074) in U.
    change (pow2 1127) with (9007199254740992 * pow2 1074) in B.
    assert (Hmm : Zpos m = 4503599627370496 \/ Zpos m = 4503599627370497) by nia.
    assert (Ec : c = 9007199254740992%float \/ c = 9007199254740994%float).
    { destruct Hmm as [Hmm|Hmm]; injection Hmm as ->; [left|right];
        apply FloatAxioms.Prim2SF_inj; rewrite E; reflexivity. }
    destruct Ec as [-> | ->].
    + destruct (wrap_below_2_53 9007199254740991%float) as (n & c' & Hn');
        [right; change (units 9007199254740991) with (9007199254740991 * pow2 1074);
         change (pow2 1127) with (9007199254740992 * pow2 1074); lia|].
      exists (S n), c'. rewrite wrap_float_step. exact Hn'.
    + destruct (wrap_below_2_53 9007199254740991%float) as (n & c' & Hn');
        [right; change (units 9007199254740991) with (9007199254740991 * pow2 1074);
         change (pow2 1127) with (9007199254740992 * pow2 1074); lia|].
      exists (S (S n)), c'. rewrite !wrap_float_step. exact Hn'.
Qed.

(** From [2 ^ 53 + 4] on, subtracting 1 does not lead below [2 ^ 53 + 4]. *)
Lemma sub_one_stuck (c : float) :
  PrimFloat.leb wrapLimit c = true -> PrimFloat.leb wrapLimit (c - 1) = true.
Proof.
  intros H. apply leb_true in H. destruct H as (_ & N & L).
  rewrite units_wrapLimit in L.
  pose proof (pow2_pos 1074 ltac:(lia)) as P74.
  pose proof (ulps_bound _ (float_valid c)) as Bc. fold (units c) in Bc.
  destruct (Z.eq_dec (units c) (pow2 2098)) as [I|F].
  - (* +Infinity *)
    assert (Ec : c = infinity).
    { apply units_inj; [exact N|reflexivity|exact I|].
      pose proof (pow2_pos 2098 ltac:(lia)). lia. }
    subst c. reflexivity.
  - destruct (Z.eq_dec (units c) (9007199254740996 * pow2 1074)) as [Q|NQ].
    + assert (Ec : c = wrapLimit).
      { apply units_inj; [exact N|reflexivity|now rewrite units_wrapLimit|lia]. }
      subst c. reflexivity.
    + destruct (positive_form c N ltac:(lia)) as (m & e & E & Vm & U).
      pose proof Vm as Vm'. apply bounded_spec in Vm'. destruct Vm' as (He & Hm & Hn).
      assert (Hbig : 9007199254740998 * pow2 1074 <= units c).
      { destruct (Z.lt_trichotomy e 1) as [A|[A|A]].
        - exfalso. assert (pow2 (e + 1074) <= pow2 1074) by (apply pow2_le; lia).
          pose proof (pow2_pos (e + 1074) ltac:(lia)).
          change (pow2 53) with 9007199254740992 in Hm. nia.
        - subst e. change (pow2 (1 + 1074)) with (2 * pow2 1074) in U.
          assert (M1 : 4503599627370498 <= Zpos m).
          { destruct (Z_le_gt_dec 4503599627370498 (Zpos m)) as [A|A]; [exact A|exfalso].
            assert (Zpos m * (2 * pow2 1074) <= 4503599627370497 * (2 * pow2 1074))
              by (apply Z.mul_le_mono_nonneg_r; lia).
            lia. }
          assert (M2 : Zpos m <> 4503599627370498) by (intros M2; rewrite M2 in U; lia).
          assert (4503599627370499 * (2 * pow2 1074) <= Zpos m * (2 * pow2 1074))
            by (apply Z.mul_le_mono_nonneg_r; lia).
          lia.
        - assert (pow2 52 <= Zpos m) by (apply Hn; lia).
          assert (pow2 1076 <= pow2 (e + 1074)) by (apply pow2_le; lia).
          assert (E76 : pow2 1076 = 4 * pow2 1074) by reflexivity.
          change (pow2 52) with 4503599627370496 in *. nia. }
      assert (Fc : isFinite (FloatOps.Prim2SF c) = true) by (now rewrite E).
      destruct (sub_nextTo c 1 Fc eq_refl) as [(Nr & Below & _) _].
      rewrite units_one in Below.
      rewrite leb_units by (try exact Nr; reflexivity). apply Z.leb_le.
      rewrite units_wrapLimit.
      pose proof (Below (FloatOps.Prim2SF wrapLimit) (float_valid _) eq_refl) as D.
      fold (units wrapLimit) in D. rewrite units_wrapLimit in D. apply D. lia.
Qed.

Lemma wrap_stuck (n : nat) : forall c : float,
  PrimFloat.leb wrapLimit c = true -> wrapCycleProgress n c = None.
Proof.
  induction n as [|n IH]; intros c H; [reflexivity|].
  rewrite wrap_float_step.
  assert (L1 : PrimFloat.leb 1 c = true) by (apply (leb_trans 1 wrapLimit c); [reflexivity|exact H]).
  rewrite L1. apply IH. now apply sub_one_stuck.
Qed.

(** The wrap loop ends exactly on the values that are not [2 ^ 53 + 4] or
    more. *)
Lemma wrap_terminates_iff (c : float) :
  (exists n c', wrapCycleProgress n c = Some c') <-> PrimFloat.leb wrapLimit c = false.
Proof.
  split.
  - intros (n & c' & H). destruct (PrimFloat.leb wrapLimit c) eqn:L; [|reflexivity].
    rewrite (wrap_stuck n c L) in H. discriminate H.
  - apply wrap_terminates.
Qed.

Lemma binary_round_not_zero (s s' : bool) (p : positive) (e : Z) :
  -1074 <= e -> SpecFloat.binary_round prec emax s p e <> SpecFloat.S754_zero s'.
Proof.
  intros He H.
  destruct (binary_round_spec s p e He) as (m1 & _ & _ & [[E _]|(m' & e' & E & _)]);
    rewrite E in H; discriminate H.
Qed.

(** A difference of two finite numbers other than 0 is not [-0]. *)
Lemma SFsub_not_negzero (s1 s2 : bool) (m1 m2 : positive) (e1 e2 : Z) :
  SpecFloat.valid_binary prec emax (SpecFloat.S754_finite s1 m1 e1) = true ->
  SpecFloat.valid_binary prec emax (SpecFloat.S754_finite s2 m2 e2) = true ->
  SpecFloat.SFsub prec emax (SpecFloat.S754_finite s1 m1 e1) (SpecFloat.S754_finite s2 m2 e2)
  <> SpecFloat.S754_zero true.
Proof.
  intros V1 V2. pose proof (finite_exponent _ _ _ V1). pose proof (finite_exponent _ _ _ V2).
  cbn [SpecFloat.SFsub]. unfold SpecFloat.binary_normalize.
  destruct (_ - _) as [|p|p]; [discriminate| |]; apply binary_round_not_zero; lia.
Qed.

(** One iteration of the wrap loop: what is left is not negative, and is
    not [-0]. *)
Lemma sub_one_nonneg (c : float) :
  PrimFloat.leb 1 c = true ->
  PrimFloat.leb 0 (c - 1) = true
  /\ FloatOps.Prim2SF (c - 1) <> SpecFloat.S754_zero true.
Proof.
  intros H. apply leb_true in H. destruct H as (_ & N & L). rewrite units_one in L.
  pose proof (pow2_pos 1074 ltac:(lia)) as P74.
  pose proof (pow2_pos 2098 ltac:(lia)) as P98.
  pose proof (ulps_bound _ (float_valid c)) as Bc. fold (units c) in Bc.
  destruct (Z.eq_dec (units c) (pow2 2098)) as [I|F].
  - assert (Ec : c = infinity) by (apply units_inj; [exact N|reflexivity|exact I|lia]).
    subst c. split; [reflexivity|]. discriminate.
  - destruct (positive_form c N ltac:(lia)) as (m & e & E & Vm & U).
    assert (Fc : isFinite (FloatOps.Prim2SF c) = true) by (now rewrite E).
    destruct (sub_nextTo c 1 Fc eq_refl) as [(Nr & Below & _) _].
    rewrite units_one in Below. split.
    + apply leb_zero. split; [exact Nr|].
      apply (Below (SpecFloat.S754_zero false) eq_refl eq_refl). cbn [ulps]. lia.
    + rewrite FloatAxioms.sub_spec, E.
      change (FloatOps.Prim2SF 1) with (SpecFloat.S754_finite false 4503599627370496 (-52)).
      apply SFsub_not_negzero; [exact Vm|reflexivity].
Qed.

(** The wrap loop keeps a value that is not negative not negative. *)
Lemma wrap_nonneg (n : nat) : forall c c' : float,
  wrapCycleProgress n c = Some c' -> PrimFloat.leb 0 c = true -> PrimFloat.leb 0 c' = true.
Proof.
  induction n as [|n IH]; intros c c' H H0; [discriminate H|].
  rewrite wrap_float_step in H. destruct (PrimFloat.leb 1 c) eqn:L.
  - apply (IH _ _ H). now apply sub_one_nonneg.
  - now injection H as <-.
Qed.


(** What the wrap loop leaves is below 1, unless it is NaN. *)
Lemma wrap_below_one (n : nat) (c c' : float) :
  wrapCycleProgress n c = Some c' -> isNaN (FloatOps.Prim2SF c') = false ->
  PrimFloat.ltb c' 1 = true.
Proof.
  intros H N. apply wrapCycleProgress_below in H.
  change ((c' >=? num_1)%num) with (PrimFloat.leb 1 c') in H.
  apply leb_false in H. destruct H as [H|[H|H]]; [discriminate H|congruence|].
  rewrite ltb_units by (try exact N; reflexivity). now apply Z.ltb_lt.
Qed.

(** On a value from 0 to below [2 ^ 53] the wrap loop leaves the fractional
    part, exactly. *)
Lemma wrap_fraction (n : nat) : forall c c' : float,
  wrapCycleProgress n c = Some c' ->
  PrimFloat.leb 0 c = true -> units c < pow2 1127 ->
  units c' = units c mod pow2 1074.
Proof.
  pose proof (pow2_pos 1074 ltac:(lia)) as P74.
  induction n as [|n IH]; intros c c' H H0 Hb; [discriminate H|].
  rewrite wrap_float_step in H. apply leb_zero in H0. destruct H0 as [N U0].
  destruct (PrimFloat.leb 1 c) eqn:L.
  - apply leb_true in L. destruct L as (_ & _ & L). rewrite units_one in L.
    destruct (sub_one_exact c N ltac:(lia)) as [Nr Ur].
    rewrite (IH _ _ H) by (try (apply leb_zero; split; [exact Nr|]); lia).
    rewrite Ur. replace (units c) with (units c - pow2 1074 + 1 * pow2 1074) at 2 by ring.
    now rewrite Z.mod_add by lia.
  - injection H as <-. apply leb_false in L.
    destruct L as [L|[L|L]]; [discriminate L|congruence|].
    rewrite units_one in L. now rewrite Z.mod_small by lia.
Qed.


(** ** Integers in binary64 *)

Section Integers.
Import SpecFloat.

(** An integer up to [2 ^ 53] in absolute value is a count of units that
    rounding leaves as it is. *)
Lemma int_exact (z : Z) :
  Z.abs z <= pow2 53 ->
  Z.abs (z * pow2 1074) mod pow2 (uexp (Z.abs (z * pow2 1074))) = 0
  /\ Z.abs (z * pow2 1074) < pow2 2098.
Proof.
  intros Hz. pose proof (pow2_pos 1074 ltac:(lia)) as P.
  rewrite Z.abs_mul, (Z.abs_eq (pow2 1074)) by lia. split.
  - destruct (Z.eq_dec z 0) as [->|Hne]; [reflexivity|].
    destruct (Z.eq_dec (Z.abs z) (pow2 53)) as [E|NE].
    + rewrite E, <- pow2_add by lia.
      assert (U : uexp (pow2 (53 + 1074)) = 1075).
      { unfold uexp. rewrite (log2_unique (pow2 (53 + 1074)) (53 + 1074)); [lia|lia|].
        split; [lia|]. apply pow2_lt. lia. }
      rewrite U. apply Z.mod_divide; [pose proof (pow2_pos 1075); lia|].
      exists (pow2 52). rewrite <- pow2_add by lia. reflexivity.
    + apply (exact_multiple _ 1074); [lia|lia|apply Z.mod_mul; lia|].
      unfold uexp. rewrite log2_mul_pow2 by lia.
      assert (Z.log2 (Z.abs z) < 53); [|lia].
      apply Z.log2_lt_pow2; [lia|]. fold (pow2 53). lia.
  - change (pow2 2098) with (pow2 1024 * pow2 1074).
    assert (pow2 53 < pow2 1024) by (apply pow2_lt; lia). nia.
Qed.

Lemma float_of_Z_notNaN (z : Z) : isNaN (FloatOps.Prim2SF (float_of_Z z)) = false.
Proof.
  rewrite Prim2SF_float_of_Z.
  destruct (binary_normalize_nextTo z 0 ltac:(lia)) as (_ & (N & _) & _). exact N.
Qed.

Lemma float_of_Z_finite (z : Z) :
  Z.abs z <= pow2 53 -> isFinite (FloatOps.Prim2SF (float_of_Z z)) = true.
Proof.
  intros Hz. apply isFinite_units; [apply float_of_Z_notNaN|].
  rewrite units_float_of_Z by exact Hz.
  destruct (int_exact z Hz) as [_ B]. lia.
Qed.

(** A number whose value is an integer other than 0, up to [2 ^ 53], is
    that integer. *)
Lemma float_of_Z_unique (a : float) (z : Z) :
  isNaN (FloatOps.Prim2SF a) = false ->
  Z.abs z <= pow2 53 -> z <> 0 -> units a = z * pow2 1074 -> a = float_of_Z z.
Proof.
  intros N Hz Hne U. pose proof (pow2_pos 1074 ltac:(lia)) as P.
  apply units_inj; [exact N|apply float_of_Z_notNaN| |].
  - now rewrite units_float_of_Z.
  - rewrite U. nia.
Qed.

Lemma float_of_Z_leb (a b : Z) :
  Z.abs a <= pow2 53 -> Z.abs b <= pow2 53 ->
  PrimFloat.leb (float_of_Z a) (float_of_Z b) = (a <=? b).
Proof.
  intros Ha Hb. pose proof (pow2_pos 1074 ltac:(lia)) as P.
  rewrite leb_units by apply float_of_Z_notNaN.
  rewrite !units_float_of_Z by assumption.
  destruct (Z.leb_spec a b); [apply Z.leb_le|apply Z.leb_gt]; nia.
Qed.

(** Sums and products of integers that are not negative are exact up to
    [2 ^ 53]. *)
Lemma float_of_Z_add (a b : Z) :
  0 <= a -> 0 <= b -> a + b <= pow2 53 ->
  (float_of_Z a + float_of_Z b)%float = float_of_Z (a + b).
Proof.
  intros Ha Hb Hs. pose proof (pow2_pos 1074 ltac:(lia)) as P.
  destruct (Z.eq_dec a 0) as [->|Na].
  { apply FloatAxioms.Prim2SF_inj. rewrite FloatAxioms.add_spec.
    pose proof (float_of_Z_finite b ltac:(lia)) as Fb.
    change (FloatOps.Prim2SF (float_of_Z 0)) with (S754_zero false).
    rewrite Z.add_0_l.
    destruct (FloatOps.Prim2SF (float_of_Z b)) as [s|s| |s m e] eqn:E;
      try discriminate Fb; [|reflexivity].
    rewrite Prim2SF_float_of_Z in E. destruct b as [|p|p]; cbn in E.
    - injection E as <-. reflexivity.
    - exfalso. revert E. apply binary_round_not_zero. lia.
    - lia. }
  destruct (Z.eq_dec b 0) as [->|Nb].
  { apply FloatAxioms.Prim2SF_inj. rewrite FloatAxioms.add_spec.
    pose proof (float_of_Z_finite a ltac:(lia)) as Fa.
    change (FloatOps.Prim2SF (float_of_Z 0)) with (S754_zero false).
    rewrite Z.add_0_r.
    destruct (FloatOps.Prim2SF (float_of_Z a)) as [s|s| |s m e] eqn:E;
      try discriminate Fa; [|reflexivity].
    rewrite Prim2SF_float_of_Z in E. destruct a as [|p|p]; cbn in E.
    - lia.
    - exfalso. revert E. apply binary_round_not_zero. lia.
    - lia. }
  destruct (add_nextTo (float_of_Z a) (float_of_Z b)) as [(N & _) Hex];
    try (apply float_of_Z_finite; lia).
  rewrite !units_float_of_Z in Hex by lia.
  apply float_of_Z_unique; [exact N|lia|lia|].
  replace ((a + b) * pow2 1074) with (a * pow2 1074 + b * pow2 1074) by ring.
  apply Hex; replace (a * pow2 1074 + b * pow2 1074) with ((a + b) * pow2 1074) by ring;
    apply int_exact; lia.
Qed.

Lemma binary_round_is_aux (s : bool) (p : positive) (e : Z) :
  e <= fexp prec emax (Zpos (digits2_pos p) + e) ->
  binary_round prec emax s p e = binary_round_aux prec emax s (Zpos p) e loc_Exact.
Proof.
  intros H. unfold binary_round, shl_align.
  destruct (fexp prec emax (Zpos (digits2_pos p) + e) - e) as [|d|d] eqn:E;
    try reflexivity. lia.
Qed.

(** The form of a positive integer up to [2 ^ 53]: a mantissa of 53 bits. *)
Lemma float_of_Z_form (z : Z) :
  0 < z <= pow2 53 ->
  exists m e, FloatOps.Prim2SF (float_of_Z z) = S754_finite false m e
              /\ bounded prec emax m e = true
              /\ Zpos m * pow2 (e + 1074) = z * pow2 1074
              /\ -52 <= e /\ pow2 52 <= Zpos m.
Proof.
  intros Hz. pose proof (pow2_pos 1074 ltac:(lia)) as P.
  pose proof (units_float_of_Z z ltac:(lia)) as U.
  destruct (int_exact z ltac:(lia)) as [_ B]. rewrite Z.abs_eq in B by nia.
  destruct (positive_form (float_of_Z z) (float_of_Z_notNaN z) ltac:(nia))
    as (m & e & E & V & U').
  exists m, e. split; [exact E|]. split; [exact V|]. split; [congruence|].
  pose proof V as V'. apply bounded_spec in V'. destruct V' as (He & Hm & Hn).
  assert (He52 : -52 <= e).
  { destruct (Z_le_gt_dec (-52) e) as [A|A]; [exact A|exfalso].
    assert (pow2 (e + 1074) <= pow2 1021) by (apply pow2_le; lia).
    assert (E74 : pow2 1074 = pow2 53 * pow2 1021) by reflexivity.
    pose proof (pow2_pos 1021 ltac:(lia)). pose proof (pow2_pos (e + 1074) ltac:(lia)).
    rewrite U, E74 in U'.
    assert (Zpos m * pow2 (e + 1074) < pow2 53 * pow2 1021) by nia.
    nia. }
  split; [exact He52|]. apply Hn. lia.
Qed.

Lemma float_of_Z_mul (a b : Z) :
  0 <= a <= pow2 53 -> 0 <= b <= pow2 53 -> a * b <= pow2 53 ->
  (float_of_Z a * float_of_Z b)%float = float_of_Z (a * b).
Proof.
  intros [Ha Ha53] [Hb Hb53] Hs. pose proof (pow2_pos 1074 ltac:(lia)) as P.
  pose proof (pow2_pos 53 ltac:(lia)) as P53.
  destruct (Z.eq_dec a 0) as [->|Na].
  { apply FloatAxioms.Prim2SF_inj. rewrite FloatAxioms.mul_spec. rewrite Z.mul_0_l.
    change (FloatOps.Prim2SF (float_of_Z 0)) with (S754_zero false).
    destruct (Z.eq_dec b 0) as [->|Nb]; [reflexivity|].
    destruct (float_of_Z_form b ltac:(lia)) as (m & e & E & _). rewrite E. reflexivity. }
  destruct (Z.eq_dec b 0) as [->|Nb].
  { apply FloatAxioms.Prim2SF_inj. rewrite FloatAxioms.mul_spec. rewrite Z.mul_0_r.
    change (FloatOps.Prim2SF (float_of_Z 0)) with (S754_zero false).
    destruct (float_of_Z_form a ltac:(lia)) as (m & e & E & _). rewrite E. reflexivity. }
  destruct (float_of_Z_form a ltac:(lia)) as (ma & ea & Ea & Va & Ua & Hea & Hma).
  destruct (float_of_Z_form b ltac:(lia)) as (mb & eb & Eb & Vb & Ub & Heb & Hmb).
  pose proof (pow2_pos 52 ltac:(lia)) as P52.
  (* the product of the mantissas has 105 bits at least *)
  assert (Hd : 104 <= Z.log2 (Zpos (ma * mb))).
  { apply Z.log2_le_pow2; [lia|]. fold (pow2 104).
    change (pow2 104) with (pow2 52 * pow2 52). rewrite Pos2Z.inj_mul. nia. }
  assert (Hr : FloatOps.Prim2SF (float_of_Z a * float_of_Z b)
               = binary_round prec emax false (ma * mb) (ea + eb)).
  { rewrite FloatAxioms.mul_spec, Ea, Eb. cbn [FloatAxioms.SF64mul SFmul xorb].
    symmetry. apply binary_round_is_aux. rewrite digits2_pos_log2, fexp_eq. lia. }
  destruct (binary_round_nextTo false (ma * mb) (ea + eb) ltac:(lia)) as (_ & (N & _) & Hex).
  cbn [cond_Zopp] in Hex.
  apply bounded_spec in Va. apply bounded_spec in Vb.
  assert (Ev : Zpos (ma * mb) * pow2 (ea + eb + 1074) = a * b * pow2 1074).
  { pose proof (pow2_pos (ea + 1074) ltac:(lia)). pose proof (pow2_pos (eb + 1074) ltac:(lia)).
    assert (E2 : pow2 (ea + eb + 1074) * pow2 1074 = pow2 (ea + 1074) * pow2 (eb + 1074)).
    { rewrite <- !pow2_add by lia. f_equal. lia. }
    rewrite Pos2Z.inj_mul.
    apply (Z.mul_cancel_r _ _ (pow2 1074)); [lia|].
    replace (Zpos ma * Zpos mb * pow2 (ea + eb + 1074) * pow2 1074)
      with (Zpos ma * Zpos mb * (pow2 (ea + eb + 1074) * pow2 1074)) by ring.
    rewrite E2.
    replace (Zpos ma * Zpos mb * (pow2 (ea + 1074) * pow2 (eb + 1074)))
      with ((Zpos ma * pow2 (ea + 1074)) * (Zpos mb * pow2 (eb + 1074))) by ring.
    rewrite Ua, Ub. ring. }
  rewrite Ev in Hex. destruct (int_exact (a * b) ltac:(lia)) as [X1 X2].
  rewrite Z.abs_eq in X1, X2 by nia.
  apply float_of_Z_unique; [now rewrite Hr|lia|nia|].
  unfold units. rewrite Hr. now apply Hex.
Qed.

End Integers.

(** ** A tick in binary64 *)

Section TickAt.
Context {N : Type} {num : Number N}.

(** What a tick does to an occupied entity: the kind stays, the wrap loop
    runs on the cycle progress the entity came with, and what it leaves gets
    [elapsedTime / referenceCycleDuration * currentRate] added, with the rate
    of this tick. *)
Lemma tick_at (fuel : nat) (dt : N) (w w' : World N) (p : v2 Z) (e : Entity N) :
  gameUpdateAndRender fuel w dt = Ok w' ->
  inBounds (gameState w) p ->
  entityAt (gameState w) p = Some e ->
  kind e <> EntityKind.None ->
  exists (e' : Entity N) (c : N),
    entityAt (gameState w') p = Some e' /\
    kind e' = kind e /\
    wrapCycleProgress fuel (cycleProgress e) = Some c /\
    cycleProgress e'
    = (c + dt / referenceCycleDuration (gameState w) * currentRate e')%num.
Proof.
  intros Hr Hb He Hk. unfold gameUpdateAndRender in Hr.
  assert (Hw : 0 < x (worldDim (gameState w)) /\ 0 < y (worldDim (gameState w)))
    by (unfold inBounds in Hb; lia).
  apply updateEntities_steps in Hr; try tauto.
  rewrite entityAt_inBounds in He by assumption.
  destruct (pass_at _ _ _ _ _ _ Hb He Hk Hr) as (w1 & c & Hc1 & _ & _ & Hc & Hfin).
  destruct (fold_frame _ _ _ _ _ Hr) as [Hc' _].
  eexists. exists c. split; [|split; [|split; [exact Hc|]]].
  - rewrite entityAt_inBounds by (now apply (configOf_inBounds _ _ p Hc')).
    rewrite (configOf_cellIndex _ _ p Hc'). exact Hfin.
  - reflexivity.
  - reflexivity.
Qed.

(** The filter of the iterator and the filter of the specification agree
    within bounds. *)
Lemma handleKindIsNone_stored (gs : GameState N) (p : v2 Z) :
  inBounds gs p ->
  handleKindIsNone gs (Some (getEntityHandleAtPos gs p)) = storedKindIsNone gs p.
Proof.
  intros Hb. unfold handleKindIsNone, storedKindIsNone.
  fold (entityAt gs p). rewrite entityAt_inBounds by assumption. reflexivity.
Qed.

End TickAt.

(** The tick returns when every occupied entity has a cycle progress that
    is not [2 ^ 53 + 4] or more. *)
Lemma float_tick_returns (dt : float) (w : World float) :
  (forall e, In e (storage (entities (gameState w))) -> kind e <> EntityKind.None ->
     PrimFloat.leb wrapLimit (cycleProgress e) = false) ->
  exists fuel, forall fuel', (fuel <= fuel')%nat ->
    gameUpdateAndRender fuel' w dt <> OutOfFuel /\
    (isGrid (gameState w) ->
     0 < x (worldDim (gameState w)) -> 0 < y (worldDim (gameState w)) ->
     exists w', gameUpdateAndRender fuel' w dt = Ok w').
Proof.
  intros Hcp.
  destruct (tick_terminates dt w) as [fuel Hfuel].
  { intros e He Hk. apply wrap_terminates. now apply Hcp. }
  exists fuel. intros fuel' Hle. split; [now apply Hfuel|].
  intros Hg Hw Hh.
  pose proof (Hfuel fuel' Hle) as Hoof.
  pose proof (tick_no_TypeError fuel' dt w Hg Hw Hh) as Hte.
  destruct (gameUpdateAndRender fuel' w dt) as [w'| |]; [now exists w'| |]; contradiction.
Qed.


Lemma above_neg_infinity (a b : float) :
  PrimFloat.ltb neg_infinity a = true -> PrimFloat.leb a b = true ->
  PrimFloat.ltb neg_infinity b = true.
Proof.
  intros H1 H2. apply ltb_true in H1. apply leb_true in H2.
  destruct H1 as (_ & _ & L1). destruct H2 as (_ & Nb & L2).
  rewrite ltb_units by (try exact Nb; reflexivity). apply Z.ltb_lt. lia.
Qed.

Lemma nonneg_above_neg_infinity (a : float) :
  PrimFloat.leb 0 a = true -> PrimFloat.ltb neg_infinity a = true.
Proof. apply (above_neg_infinity 0 a). reflexivity. Qed.


(** * The claims *)

(** ** Runs used as concrete inputs *)

Lemma heldWorld_tick : gameUpdateAndRender 200 heldWorld 500%float = Ok heldWorldAfter.
Proof. vm_compute. reflexivity. Qed.

Lemma wrapWorld_tick : gameUpdateAndRender 200 wrapWorld 500%float = Ok wrapWorldAfter.
Proof. vm_compute. reflexivity. Qed.

(** ** Rates *)

(** C1.  A Generator at [(cx, cy)], a Motor at [(cx + 1, cy)] and a Producer
    at [(cx + 2, cy)]: after one tick the Generator has rate 1 if it is
    active and 0 if not, the Motor has 0.5 times and the Producer 0.4 times
    the rate the Generator got in this tick, whatever rates the three came
    with. *)
Theorem same_tick_rate_cascade (fuel : nat) (dt : float) (w w' : World float)
    (cx cy : Z) (g m pr : Entity float) :
  gameUpdateAndRender fuel w dt = Ok w' ->
  0 <= cx -> cx + 2 < x (worldDim (gameState w)) ->
  0 <= cy < y (worldDim (gameState w)) ->
  entityAt (gameState w) (mkV2 cx cy) = Some g -> kind g = EntityKind.Generator ->
  entityAt (gameState w) (mkV2 (cx + 1) cy) = Some m -> kind m = EntityKind.Motor ->
  entityAt (gameState w) (mkV2 (cx + 2) cy) = Some pr -> kind pr = EntityKind.Producer ->
  exists g' m' pr' : Entity float,
    entityAt (gameState w') (mkV2 cx cy) = Some g' /\
    entityAt (gameState w') (mkV2 (cx + 1) cy) = Some m' /\
    entityAt (gameState w') (mkV2 (cx + 2) cy) = Some pr' /\
    currentRate g' = (if generatorActive (gameState w) (mkV2 cx cy) then 1 else 0)%float /\
    currentRate m' = (0.5 * currentRate g')%float /\
    currentRate pr' = (0.4 * currentRate g')%float /\
    (generatorActive (gameState w) (mkV2 cx cy) = true ->
     currentRate m' = 0.5%float /\ currentRate pr' = 0.4%float) /\
    (generatorActive (gameState w) (mkV2 cx cy) = false ->
     currentRate m' = 0%float /\ currentRate pr' = 0%float).
Proof.
  intros Hr Hx0 Hx2 Hy Hg Kg Hm Km Hp Kp.
  destruct (rate_cascade fuel dt w w' cx cy g m pr Hr Hx0 Hx2 Hy Hg Kg Hm Km Hp Kp)
    as (g' & m' & pr' & Hg' & Hm' & Hp' & Rg & Rm & Rp).
  exists g', m', pr'. repeat (split; [assumption|]).
  rewrite Rp, Rm, Rg.
  destruct (generatorActive (gameState w) (mkV2 cx cy)).
  - repeat split; try reflexivity; discriminate.
  - repeat split; try reflexivity; discriminate.
Qed.

Lemma same_tick_rate_cascade_witness :
  exists g' m' pr' : Entity float,
    entityAt (gameState heldWorldAfter) (mkV2 0 5) = Some g' /\
    entityAt (gameState heldWorldAfter) (mkV2 (0 + 1) 5) = Some m' /\
    entityAt (gameState heldWorldAfter) (mkV2 (0 + 2) 5) = Some pr' /\
    currentRate g' = (if generatorActive (gameState heldWorld) (mkV2 0 5)
                      then 1%float else 0%float) /\
    currentRate m' = (0.5 * currentRate g')%float /\
    currentRate pr' = (0.4 * currentRate g')%float /\
    (generatorActive (gameState heldWorld) (mkV2 0 5) = true ->
     currentRate m' = 0.5%float /\ currentRate pr' = 0.4%float) /\
    (generatorActive (gameState heldWorld) (mkV2 0 5) = false ->
     currentRate m' = 0%float /\ currentRate pr' = 0%float).
Proof.
  apply (same_tick_rate_cascade 200 500%float heldWorld heldWorldAfter 0 5
           (mkEntity 1 0 0)%float (mkEntity 2 0 0)%float (mkEntity 3 0 0)%float).
  all: try (vm_compute; reflexivity).
  all: try lia.
  vm_compute. split; [discriminate|reflexivity].
Defined.

(** No carry-over: a Motor and a Producer that come with the rates 0.9 and
    0.7 next to a Generator that is not active leave the tick with rate 0. *)
Lemma stale_rates_are_dropped :
  exists w' : World float,
    gameUpdateAndRender 10 staleWorld 16%float = Ok w' /\
    map currentRate (storage (entities (gameState staleWorld)))
    = [0%float; 0.9%float; 0.7%float] /\
    map currentRate (storage (entities (gameState w'))) = [0%float; 0%float; 0%float].
Proof.
  eexists. split; [vm_compute; reflexivity|].
  split; vm_compute; reflexivity.
Qed.

(** ** Cycle progress *)

(** C2, as the code has it.  After a tick an occupied entity that came with
    a cycle progress that is not negative holds what the wrap loop left, a
    value from 0 to below 1, plus what the tick added after the wrap,
    [elapsedTime / referenceCycleDuration * currentRate]: with an elapsed
    time that is not negative, a reference cycle duration that is positive
    and finite, a finite quotient of the two and a rate that is finite and
    not negative, its cycle progress is not negative.  Nothing keeps it
    below 1. *)
Theorem cycle_progress_range (fuel : nat) (dt : float) (w w' : World float) (p : v2 Z)
    (e : Entity float) :
  gameUpdateAndRender fuel w dt = Ok w' ->
  inBounds (gameState w) p ->
  entityAt (gameState w) p = Some e ->
  kind e <> EntityKind.None ->
  PrimFloat.leb 0 (cycleProgress e) = true ->
  exists (e' : Entity float) (c : float),
    entityAt (gameState w') p = Some e' /\
    wrapCycleProgress fuel (cycleProgress e) = Some c /\
    PrimFloat.leb 0 c = true /\ PrimFloat.ltb c 1 = true /\
    cycleProgress e'
    = (c + dt / referenceCycleDuration (gameState w) * currentRate e')%float /\
    (PrimFloat.leb 0 dt = true ->
     PrimFloat.ltb 0 (referenceCycleDuration (gameState w)) = true ->
     PrimFloat.is_finite (referenceCycleDuration (gameState w)) = true ->
     PrimFloat.is_finite (dt / referenceCycleDuration (gameState w)) = true ->
     PrimFloat.leb 0 (currentRate e') = true ->
     PrimFloat.is_finite (currentRate e') = true ->
     PrimFloat.leb 0 (cycleProgress e') = true).
Proof.
  intros Hr Hb He Hk Hcp.
  destruct (tick_at fuel dt w w' p e Hr Hb He Hk) as (e' & c & He' & _ & Hc & Hfin).
  pose proof (wrap_nonneg _ _ _ Hc Hcp) as Hc0.
  exists e', c. split; [exact He'|]. split; [exact Hc|]. split; [exact Hc0|].
  split; [|split; [exact Hfin|]].
  - apply (wrap_below_one _ _ _ Hc). apply leb_zero in Hc0. tauto.
  - intros Hdt Hrcd Frcd Fq Hrate Frate. rewrite Hfin.
    apply (leb_trans 0 c); [exact Hc0|].
    apply add_nondecreasing; [now apply nonneg_above_neg_infinity|].
    apply mul_nonneg; try assumption. now apply div_nonneg.
Qed.

Lemma cycle_progress_range_witness :
  exists (e' : Entity float) (c : float),
    entityAt (gameState wrapWorldAfter) (mkV2 0 5) = Some e' /\
    wrapCycleProgress 200 (cycleProgress (mkEntity 1 0%float 2.5%float)) = Some c /\
    PrimFloat.leb 0 c = true /\ PrimFloat.ltb c 1 = true /\
    cycleProgress e'
    = (c + 500 / referenceCycleDuration (gameState wrapWorld) * currentRate e')%float /\
    (PrimFloat.leb 0 500 = true ->
     PrimFloat.ltb 0 (referenceCycleDuration (gameState wrapWorld)) = true ->
     PrimFloat.is_finite (referenceCycleDuration (gameState wrapWorld)) = true ->
     PrimFloat.is_finite (500 / referenceCycleDuration (gameState wrapWorld)) = true ->
     PrimFloat.leb 0 (currentRate e') = true ->
     PrimFloat.is_finite (currentRate e') = true ->
     PrimFloat.leb 0 (cycleProgress e') = true).
Proof.
  apply (cycle_progress_range 200 500%float wrapWorld wrapWorldAfter (mkV2 0 5)
           (mkEntity 1 0%float 2.5%float)).
  - vm_compute. reflexivity.
  - vm_compute. repeat split; discriminate.
  - vm_compute. reflexivity.
  - vm_compute. discriminate.
  - vm_compute. reflexivity.
Defined.

(** C2 fails as stated: on the world of [main], with the Generator active,
    a tick of 1500 ms ends with the Generator at rate 1 and cycle progress
    1.5, the Motor at 0.75. *)
Lemma cycle_progress_reaches_one :
  exists (w' : World float) (g' m' : Entity float),
    gameUpdateAndRender 200 heldWorld 1500%float = Ok w' /\
    entityAt (gameState heldWorld) (mkV2 0 5)
    = Some (mkEntity EntityKind.Generator 0%float 0%float) /\
    entityAt (gameState w') (mkV2 0 5) = Some g' /\
    currentRate g' = 1%float /\
    cycleProgress g' = 1.5%float /\
    (cycleProgress g' >=? num_1)%num = true /\
    entityAt (gameState w') (mkV2 1 5) = Some m' /\
    currentRate m' = 0.5%float /\
    cycleProgress m' = 0.75%float.
Proof.
  eexists. eexists. eexists.
  split; [vm_compute; reflexivity|].
  repeat split; vm_compute; reflexivity.
Qed.

(** The same with a tick of 500 ms from a cycle progress of 0.75: the wrap
    loop leaves 0.75, the tick adds 0.5 and the Generator ends at 1.25. *)
Lemma progress_exceeds_one_from_below :
  exists (w' : World float) (g' : Entity float),
    gameUpdateAndRender 200
      (mkWorld (setCycleProgress heldOverGenerator 50 0.75%float) []) 500%float = Ok w' /\
    entityAt (gameState w') (mkV2 0 5) = Some g' /\
    currentRate g' = 1%float /\
    cycleProgress g' = 1.25%float.
Proof.
  eexists. eexists.
  split; [vm_compute; reflexivity|].
  repeat split; vm_compute; reflexivity.
Qed.



(** The tick of 500 ms on [wrapWorld], where nothing works: the cycle
    progress 2.5 of the Generator has become 0.5, the 3 of the Motor 0, and
    the 0.75 of the Producer is as it was. *)
Lemma wrapWorld_progress :
  map cycleProgress
    (firstn 3 (skipn 50 (storage (entities (gameState wrapWorld)))))
  = [2.5%float; 3%float; 0.75%float] /\
  map currentRate
    (firstn 3 (skipn 50 (storage (entities (gameState wrapWorldAfter)))))
  = [0%float; 0%float; 0%float] /\
  map cycleProgress
    (firstn 3 (skipn 50 (storage (entities (gameState wrapWorldAfter)))))
  = [0.5%float; 0%float; 0.75%float].
Proof. repeat split; vm_compute; reflexivity. Qed.


(** ** The running total *)



(** The tick of 500 ms on the world of [main] with the Generator active
    finds the one Producer at the rate 0.4 and adds 0.2 to the total. *)
Lemma heldWorld_total :
  producers (gameState heldWorld) = [mkV2 2 5] /\
  rateAt (gameState heldWorldAfter) (mkV2 2 5) = 0.4%float /\
  currentNumber (gameState heldWorld) = 0%float /\
  currentNumber (gameState heldWorldAfter) = 0.2%float.
Proof. repeat split; vm_compute; reflexivity. Qed.


(** ** The grid and the iterator *)

(** C5.  On every grid, resolving a position gives a reference to a stored
    entity exactly when the position is within bounds, and the [null]
    handle, never an error, when it is not. *)
Theorem getEntityHandleAtPos_resolves {N : Type} (gs : GameState N) (p : v2 Z) :
  isGrid gs ->
  ((exists i e, entity (getEntityHandleAtPos gs p) = ref i /\
                nth_error (storage (entities gs)) i = Some e /\
                Z.of_nat i = y p * x (worldDim gs) + x p /\
                pos (getEntityHandleAtPos gs p) = p)
   <-> 0 <= x p < x (worldDim gs) /\ 0 <= y p < y (worldDim gs)) /\
  (~ (0 <= x p < x (worldDim gs) /\ 0 <= y p < y (worldDim gs)) ->
   entity (getEntityHandleAtPos gs p) = null /\ entityAt gs p = None).
Proof. apply handle_on_grid. Qed.

Lemma getEntityHandleAtPos_resolves_witness :
  isGrid (gameState heldWorld) /\
  ((exists i e, entity (getEntityHandleAtPos (gameState heldWorld) (mkV2 0 5)) = ref i /\
                nth_error (storage (entities (gameState heldWorld))) i = Some e /\
                Z.of_nat i = y (mkV2 0 5) * x (worldDim (gameState heldWorld)) + x (mkV2 0 5) /\
                pos (getEntityHandleAtPos (gameState heldWorld) (mkV2 0 5)) = mkV2 0 5)
   <-> 0 <= x (mkV2 0 5) < x (worldDim (gameState heldWorld)) /\
       0 <= y (mkV2 0 5) < y (worldDim (gameState heldWorld))) /\
  (~ (0 <= x (mkV2 0 5) < x (worldDim (gameState heldWorld)) /\
      0 <= y (mkV2 0 5) < y (worldDim (gameState heldWorld))) ->
   entity (getEntityHandleAtPos (gameState heldWorld) (mkV2 0 5)) = null /\
   entityAt (gameState heldWorld) (mkV2 0 5) = None).
Proof.
  assert (H : isGrid (gameState heldWorld)) by (vm_compute; reflexivity).
  split; [exact H|].
  apply (getEntityHandleAtPos_resolves (gameState heldWorld) (mkV2 0 5) H).
Defined.


(** C6.  On a grid of positive width and height the iterator, run from its
    initial state to completion, yields the handles of the positions within
    bounds in row-major order ([x] from 0 to [width - 1] fastest, then [y]
    from 0 to [height - 1]), and the filtered iterator yields the handles of
    the same sequence of positions without those whose stored entity has
    kind [None]. *)
Theorem iteration_is_row_major {N : Type} (fuel : nat) (gs : GameState N) :
  0 < x (worldDim gs) -> 0 < y (worldDim gs) ->
  (Z.to_nat (x (worldDim gs) * y (worldDim gs)) + 1 < fuel)%nat ->
  exists hs hs' : list EntityHandle,
    allEntities fuel gs = Ok hs /\
    map pos hs = rowMajor (x (worldDim gs)) (y (worldDim gs)) /\
    hs = map (getEntityHandleAtPos gs) (rowMajor (x (worldDim gs)) (y (worldDim gs))) /\
    (forall p, In p (map pos hs) <-> inBounds gs p) /\
    nonNullEntities fuel gs = Ok hs' /\
    map pos hs'
    = filter (fun p => negb (storedKindIsNone gs p))
             (rowMajor (x (worldDim gs)) (y (worldDim gs))) /\
    hs' = map (getEntityHandleAtPos gs) (map pos hs').
Proof.
  intros Hw Hh Hfuel.
  destruct (iterators_on_grid fuel gs Hw Hh Hfuel) as (hs & Hall & Hpos & Hhs & Hin & Hnn).
  exists hs, (filter (fun hd => negb (handleKindIsNone gs (Some hd))) hs).
  repeat (split; [assumption|]).
  assert (Hf : filter (fun hd => negb (handleKindIsNone gs (Some hd))) hs
               = map (getEntityHandleAtPos gs)
                   (filter (fun p => negb (storedKindIsNone gs p))
                      (rowMajor (x (worldDim gs)) (y (worldDim gs))))).
  { rewrite Hhs at 1. rewrite filter_map_swap. f_equal.
    apply filter_ext_in. intros p Hp. apply In_rowMajor in Hp.
    now rewrite handleKindIsNone_stored. }
  assert (Hp : map pos (filter (fun hd => negb (handleKindIsNone gs (Some hd))) hs)
               = filter (fun p => negb (storedKindIsNone gs p))
                   (rowMajor (x (worldDim gs)) (y (worldDim gs)))).
  { rewrite Hf, map_map. rewrite <- (map_id (filter _ (rowMajor _ _))) at 2.
    apply map_ext_in. intros p Hp. apply filter_In in Hp. destruct Hp as [Hp _].
    apply In_rowMajor in Hp.
    now rewrite handle_inBounds. }
  split; [exact Hp|]. rewrite Hp. exact Hf.
Qed.

Lemma iteration_is_row_major_witness :
  exists hs hs' : list EntityHandle,
    allEntities 200 (gameState heldWorld) = Ok hs /\
    map pos hs = rowMajor (x (worldDim (gameState heldWorld)))
                          (y (worldDim (gameState heldWorld))) /\
    hs = map (getEntityHandleAtPos (gameState heldWorld))
             (rowMajor (x (worldDim (gameState heldWorld)))
                       (y (worldDim (gameState heldWorld)))) /\
    (forall p, In p (map pos hs) <-> inBounds (gameState heldWorld) p) /\
    nonNullEntities 200 (gameState heldWorld) = Ok hs' /\
    map pos hs'
    = filter (fun p => negb (storedKindIsNone (gameState heldWorld) p))
             (rowMajor (x (worldDim (gameState heldWorld)))
                       (y (worldDim (gameState heldWorld)))) /\
    hs' = map (getEntityHandleAtPos (gameState heldWorld)) (map pos hs').
Proof.
  apply (iteration_is_row_major 200 (gameState heldWorld)).
  - vm_compute. reflexivity.
  - vm_compute. reflexivity.
  - vm_compute. lia.
Defined.

(** On the grid of [main] the iterator yields the 100 positions, the first
    row first, and the filtered iterator the three occupied ones. *)
Lemma main_grid_iteration :
  (exists hs, allEntities 200 (mainState (N := float)) = Ok hs /\
              length hs = 100%nat /\
              map pos (firstn 12 hs)
              = [mkV2 0 0; mkV2 1 0; mkV2 2 0; mkV2 3 0; mkV2 4 0; mkV2 5 0; mkV2 6 0;
                 mkV2 7 0; mkV2 8 0; mkV2 9 0; mkV2 0 1; mkV2 1 1]) /\
  (exists hs', nonNullEntities 200 (mainState (N := float)) = Ok hs' /\
               map pos hs' = [mkV2 0 5; mkV2 1 5; mkV2 2 5] /\
               map index hs' = [50; 51; 52]).
Proof.
  split; eexists; (split; [vm_compute; reflexivity|]); split; vm_compute; reflexivity.
Qed.


(** ** Termination of the tick *)

Lemma wrapCycleProgress_stuck (fuel : nat) : wrapCycleProgress fuel twoTo54 = None.
Proof. apply wrap_stuck. reflexivity. Qed.

(** C7 fails as stated: with the finite cycle progress 2^54 in an occupied
    entity the wrap loop never ends, and no amount of fuel lets the tick
    return. *)
Lemma tick_diverges :
  entityAt (gameState stuckWorld) (mkV2 0 5)
  = Some (mkEntity EntityKind.Generator 0%float twoTo54) /\
  num_floor twoTo54 = Some (2 ^ 54) /\
  (twoTo54 - num_1)%num = twoTo54 /\
  (forall fuel, wrapCycleProgress fuel twoTo54 = None) /\
  forall fuel, gameUpdateAndRender fuel stuckWorld 16%float = OutOfFuel.
Proof.
  split; [vm_compute; reflexivity|].
  split; [vm_compute; reflexivity|].
  split; [reflexivity|].
  split; [exact wrapCycleProgress_stuck|].
  intros fuel.
  apply (tick_stuck fuel 16%float stuckWorld (mkV2 0 5)
           (mkEntity EntityKind.Generator 0%float twoTo54)).
  - vm_compute. reflexivity.
  - vm_compute. repeat split; discriminate.
  - vm_compute. reflexivity.
  - vm_compute. discriminate.
  - exact wrapCycleProgress_stuck.
Qed.

(** C7, as the code has it.  The wrap loop ends exactly on the values that
    are not [2 ^ 53 + 4] or more: on every number below [2 ^ 53 + 4], and
    on NaN.  So for every state in which no occupied entity holds such a
    value, and for every elapsed time, the tick returns: some amount of
    fuel, and every larger one, lets it return, and on a grid it returns a
    state.  On a grid in which an occupied entity holds such a value, the
    tick does not return. *)
Theorem update_pass_terminates :
  (forall (dt : float) (w : World float),
     (forall e, In e (storage (entities (gameState w))) -> kind e <> EntityKind.None ->
        PrimFloat.leb wrapLimit (cycleProgress e) = false) ->
     exists fuel, forall fuel', (fuel <= fuel')%nat ->
       gameUpdateAndRender fuel' w dt <> OutOfFuel /\
       (isGrid (gameState w) ->
        0 < x (worldDim (gameState w)) -> 0 < y (worldDim (gameState w)) ->
        exists w', gameUpdateAndRender fuel' w dt = Ok w')) /\
  (forall (fuel : nat) (dt : float) (w : World float) (p : v2 Z) (e : Entity float),
     isGrid (gameState w) -> inBounds (gameState w) p ->
     entityAt (gameState w) p = Some e -> kind e <> EntityKind.None ->
     PrimFloat.leb wrapLimit (cycleProgress e) = true ->
     gameUpdateAndRender fuel w dt = OutOfFuel) /\
  (forall c : float,
     (exists n c', wrapCycleProgress n c = Some c') <-> PrimFloat.leb wrapLimit c = false).
Proof.
  split; [exact float_tick_returns|]. split; [|exact wrap_terminates_iff].
  intros fuel dt w p e Hg Hb He Hk Hc.
  apply (tick_stuck fuel dt w p e Hg Hb He Hk). intros n. now apply wrap_stuck.
Qed.

Lemma update_pass_terminates_witness :
  exists fuel, forall fuel', (fuel <= fuel')%nat ->
    gameUpdateAndRender fuel' belowLimitWorld 500%float <> OutOfFuel /\
    (isGrid (gameState belowLimitWorld) ->
     0 < x (worldDim (gameState belowLimitWorld)) ->
     0 < y (worldDim (gameState belowLimitWorld)) ->
     exists w', gameUpdateAndRender fuel' belowLimitWorld 500%float = Ok w').
Proof.
  destruct update_pass_terminates as [Hterm _].
  apply (Hterm 500%float belowLimitWorld).
  intros e He _.
  assert (Hall : forallb (fun a => negb (PrimFloat.leb wrapLimit (cycleProgress a)))
                   (storage (entities (gameState belowLimitWorld))) = true)
    by (vm_compute; reflexivity).
  rewrite forallb_forall in Hall. specialize (Hall e He).
  now apply negb_true_iff in Hall.
Defined.

(** The bound is the least one: at [2 ^ 53 + 2] the Generator of
    [belowLimitWorld] is occupied and the tick returns, at [2 ^ 53 + 4] the
    tick on [limitWorld] does not; nor does it at [+Infinity]. *)
Lemma wrap_limit_is_sharp :
  entityAt (gameState belowLimitWorld) (mkV2 0 5)
  = Some (mkEntity EntityKind.Generator 0%float 9007199254740994%float) /\
  (9007199254740994 - 1 = 9007199254740992)%float /\
  (wrapLimit - 1 = wrapLimit)%float /\
  (forall fuel, gameUpdateAndRender fuel limitWorld 16%float = OutOfFuel) /\
  (forall fuel, wrapCycleProgress fuel PrimFloat.infinity = None).
Proof.
  split; [vm_compute; reflexivity|]. split; [reflexivity|]. split; [reflexivity|].
  split.
  - intros fuel.
    apply (tick_stuck fuel 16%float limitWorld (mkV2 0 5)
             (mkEntity EntityKind.Generator 0%float wrapLimit)).
    + vm_compute. reflexivity.
    + vm_compute. repeat split; discriminate.
    + vm_compute. reflexivity.
    + vm_compute. discriminate.
    + intros n. apply wrap_stuck. reflexivity.
  - intros fuel. apply wrap_stuck. reflexivity.
Qed.

(** NaN is not at least 1: the wrap loop leaves it as it is. *)
Lemma wrapCycleProgress_nan : wrapCycleProgress 1 PrimFloat.nan = Some PrimFloat.nan.
Proof. reflexivity. Qed.

(** ** Unknown kinds *)

(** C8.  An occupied entity whose kind is none of Generator, Motor and
    Producer: the tick does not stop with a [TypeError]; when it ends, the
    entity has the rate it came with, the console has got the diagnostic of
    every entity of unknown kind, this one included, in the order of the
    pass, and every occupied entity, before or after this one, has the rate
    of the rules. *)
Theorem unknown_kind_is_reported {N : Type} {num : Number N} (fuel : nat) (dt : N)
    (w : World N) (p : v2 Z) (e : Entity N) :
  isGrid (gameState w) ->
  inBounds (gameState w) p ->
  entityAt (gameState w) p = Some e ->
  kind e <> EntityKind.None ->
  kind e <> EntityKind.Generator ->
  kind e <> EntityKind.Motor ->
  kind e <> EntityKind.Producer ->
  gameUpdateAndRender fuel w dt <> TypeError /\
  forall w' : World N, gameUpdateAndRender fuel w dt = Ok w' ->
    (exists e', entityAt (gameState w') p = Some e' /\
                kind e' = kind e /\ currentRate e' = currentRate e) /\
    console w'
    = (console w ++ diagnostics (gameState w) (occupiedPositions (gameState w)))%list /\
    In (unknownEntityMessage (kind e))
       (diagnostics (gameState w) (occupiedPositions (gameState w))) /\
    (forall q eq, inBounds (gameState w) q -> entityAt (gameState w) q = Some eq ->
       kind eq <> EntityKind.None ->
       exists eq', entityAt (gameState w') q = Some eq' /\
         currentRate eq'
         = ruleRate (gameState w') q
             (mkEntity (kind eq) (currentRate eq) (cycleProgress eq'))).
Proof.
  intros Hg Hb He Hk Hkg Hkm Hkp.
  assert (Hw : 0 < x (worldDim (gameState w)) /\ 0 < y (worldDim (gameState w)))
    by (unfold inBounds in Hb; lia).
  assert (Hunk : isKnownKind (kind e) = false).
  { unfold isKnownKind. rewrite !orb_false_iff, !Z.eqb_neq. tauto. }
  split; [apply tick_no_TypeError; tauto|].
  intros w' Hr. split; [|split; [|split]].
  - destruct (rates_follow_rules fuel dt w w' p e Hr Hb He Hk) as (e' & He' & Hk' & Hrate).
    exists e'. split; [assumption|]. split; [assumption|].
    rewrite Hrate. unfold ruleRate. cbn [kind currentRate].
    apply Z.eqb_neq in Hkg, Hkm, Hkp. now rewrite Hkp, Hkm, Hkg.
  - unfold gameUpdateAndRender in Hr. apply updateEntities_steps in Hr; try tauto.
    apply (fold_console _ _ _ _ _) in Hr; [assumption|].
    intros q Hq. apply occupiedPositions_inBounds; tauto.
  - unfold diagnostics. apply in_flat_map. exists p. split.
    + rewrite occupiedPositions_rowMajor by tauto. apply filter_In. split.
      * now apply In_rowMajor.
      * rewrite entityAt_inBounds in He by assumption.
        rewrite (isNonNull_inBounds _ p e Hb He).
        apply negb_true_iff. now apply Z.eqb_neq.
    + unfold diagnostic, kindAt. rewrite He. cbn [option_map]. rewrite Hunk.
      now left.
  - intros q eq Hq Heq Hkq.
    destruct (rates_follow_rules fuel dt w w' q eq Hr Hq Heq Hkq) as (eq' & H1 & _ & H2).
    now exists eq'.
Qed.

Lemma unknown_kind_is_reported_witness :
  gameUpdateAndRender 10 oddWorld 16%float <> TypeError /\
  gameUpdateAndRender 10 oddWorld 16%float = Ok oddWorldAfter /\
  (exists e', entityAt (gameState oddWorldAfter) (mkV2 0 0) = Some e' /\
              kind e' = 7 /\ currentRate e' = 0.25%float) /\
  console oddWorldAfter
  = (console oddWorld
     ++ diagnostics (gameState oddWorld) (occupiedPositions (gameState oddWorld)))%list /\
  In (unknownEntityMessage 7)
     (diagnostics (gameState oddWorld) (occupiedPositions (gameState oddWorld))) /\
  (forall q eq, inBounds (gameState oddWorld) q ->
     entityAt (gameState oddWorld) q = Some eq ->
     kind eq <> EntityKind.None ->
     exists eq', entityAt (gameState oddWorldAfter) q = Some eq' /\
       currentRate eq'
       = ruleRate (gameState oddWorldAfter) q
           (mkEntity (kind eq) (currentRate eq) (cycleProgress eq'))).
Proof.
  destruct (unknown_kind_is_reported 10 16%float oddWorld (mkV2 0 0)
              (mkEntity 7 0.25%float 0%float)) as [Hno Hrun].
  - vm_compute. reflexivity.
  - vm_compute. repeat split; discriminate.
  - vm_compute. reflexivity.
  - vm_compute. discriminate.
  - vm_compute. discriminate.
  - vm_compute. discriminate.
  - vm_compute. discriminate.
  - assert (Hok : gameUpdateAndRender 10 oddWorld 16%float = Ok oddWorldAfter)
      by (vm_compute; reflexivity).
    split; [exact Hno|]. split; [exact Hok|]. exact (Hrun oddWorldAfter Hok).
Defined.

(** What the run of [oddWorld] leaves on the console. *)
Lemma oddWorld_console : console oddWorldAfter = ["unknown entity type: '7'"%string].
Proof. vm_compute. reflexivity. Qed.

(** The text of a kind is the text of a number: the exponent form from
    [10 ^ 21] on, the shortest digits that denote the number above
    [2 ^ 53]. *)
Lemma unknownEntityMessage_texts :
  unknownEntityMessage 7 = "unknown entity type: '7'"%string /\
  unknownEntityMessage (-4) = "unknown entity type: '-4'"%string /\
  unknownEntityMessage (10 ^ 21) = "unknown entity type: '1e+21'"%string /\
  unknownEntityMessage (2 ^ 64) = "unknown entity type: '18446744073709552000'"%string /\
  unknownEntityMessage (2 ^ 70) = "unknown entity type: '1.1805916207174113e+21'"%string.
Proof. repeat split; vm_compute; reflexivity. Qed.

(** ** Construction *)

(** [main] itself: the 10 x 10 grid with the three test entities. *)
Lemma main_builds_the_grid :
  main (N := float) = Ok mainState /\
  isGrid (mainState (N := float)) /\
  occupiedPositions (mainState (N := float)) = [mkV2 0 5; mkV2 1 5; mkV2 2 5] /\
  map (kindAt (mainState (N := float))) [mkV2 0 5; mkV2 1 5; mkV2 2 5]
  = [Some EntityKind.Generator; Some EntityKind.Motor; Some EntityKind.Producer].
Proof. repeat split; vm_compute; reflexivity. Qed.

(** ** What a tick leaves alone *)

(** C10.  A tick leaves the dimensions and every configuration constant,
    the cursor, the kind of every entity and every field of every entity of
    kind [None] as they were: it writes nothing but the rate and the cycle
    progress of entities of another kind, and the running total. *)
Theorem update_frame {N : Type} {num : Number N} (fuel : nat) (dt : N) (w w' : World N) :
  gameUpdateAndRender fuel w dt = Ok w' ->
  configOf (gameState w') = configOf (gameState w) /\
  map kind (storage (entities (gameState w')))
  = map kind (storage (entities (gameState w))) /\
  length (storage (entities (gameState w'))) = length (storage (entities (gameState w))) /\
  forall j e, nth_error (storage (entities (gameState w))) j = Some e ->
              kind e = EntityKind.None ->
              nth_error (storage (entities (gameState w'))) j = Some e.
Proof. apply tick_frame. Qed.

Lemma update_frame_witness :
  configOf (gameState heldWorldAfter) = configOf (gameState heldWorld) /\
  map kind (storage (entities (gameState heldWorldAfter)))
  = map kind (storage (entities (gameState heldWorld))) /\
  length (storage (entities (gameState heldWorldAfter)))
  = length (storage (entities (gameState heldWorld))) /\
  forall j e, nth_error (storage (entities (gameState heldWorld))) j = Some e ->
              kind e = EntityKind.None ->
              nth_error (storage (entities (gameState heldWorldAfter))) j = Some e.
Proof.
  apply (update_frame 200 500%float heldWorld heldWorldAfter).
  vm_compute. reflexivity.
Defined.


(** * Further properties *)

(** X2.  No rate crosses the edge of a row: after a tick a Motor (a
    Producer) that stands in column 0, or whose left neighbour is not a
    Generator (a Motor), has rate 0, whatever the cell before it in storage
    holds. *)
Theorem unfed_entity_is_idle {N : Type} {num : Number N} (fuel : nat) (dt : N)
    (w w' : World N) (p : v2 Z) (e' : Entity N) (feeder : Z) :
  gameUpdateAndRender fuel w dt = Ok w' ->
  entityAt (gameState w') p = Some e' ->
  (kind e' = EntityKind.Motor /\ feeder = EntityKind.Generator) \/
  (kind e' = EntityKind.Producer /\ feeder = EntityKind.Motor) ->
  x p = 0 \/ kindAt (gameState w') (mkV2 (x p - 1) (y p)) <> Some feeder ->
  currentRate e' = num_0.
Proof.
  intros Hr He' [[Hk ->]|[Hk ->]] Hun.
  - rewrite (final_motor_rate fuel dt w w' p e' Hr He' Hk). now apply leftRate_unfed.
  - rewrite (final_producer_rate fuel dt w w' p e' Hr He' Hk). now apply leftRate_unfed.
Qed.

Lemma twoRowsWorld_tick :
  gameUpdateAndRender 10 twoRowsWorld 16%float = Ok twoRowsWorldAfter.
Proof. vm_compute. reflexivity. Qed.

Lemma unfed_entity_is_idle_witness :
  currentRate (mkEntity EntityKind.Motor 0%float 0%float) = num_0.
Proof.
  apply (unfed_entity_is_idle 10 16%float twoRowsWorld twoRowsWorldAfter (mkV2 0 1)
           (mkEntity EntityKind.Motor 0%float 0%float) EntityKind.Generator).
  - exact twoRowsWorld_tick.
  - vm_compute. reflexivity.
  - left. split; reflexivity.
  - left. reflexivity.
Defined.

(** The Generator in the cell before the Motor in storage is at work, and
    the Motor and the Producer of the next row are not. *)
Lemma twoRowsWorld_rates :
  map currentRate (storage (entities (gameState twoRowsWorldAfter)))
  = [0%float; 1%float; 0%float; 0%float].
Proof. vm_compute. reflexivity. Qed.

(** X3.  At most one Generator works: a Generator that leaves a tick with
    a rate other than 0 has rate 1, the left button is down and the pointer
    is over its cell; two such Generators are the same one. *)
Theorem one_generator_at_work {N : Type} {num : Number N} (fuel : nat) (dt : N)
    (w w' : World N) (p q : v2 Z) (ep eq : Entity N) :
  gameUpdateAndRender fuel w dt = Ok w' ->
  entityAt (gameState w') p = Some ep -> kind ep = EntityKind.Generator ->
  currentRate ep <> num_0 ->
  currentRate ep = num_1 /\
  Cursor.leftButtonDown (cursor (gameState w)) = true /\
  isCursorOver (gameState w) p = true /\
  (entityAt (gameState w') q = Some eq -> kind eq = EntityKind.Generator ->
   currentRate eq <> num_0 -> q = p).
Proof.
  intros Hr Hp Kp Rp.
  assert (Hact : forall r e, entityAt (gameState w') r = Some e ->
            kind e = EntityKind.Generator -> currentRate e <> num_0 ->
            currentRate e = num_1 /\ generatorActive (gameState w) r = true).
  { intros r e He Ke Re. pose proof (final_generator_rate fuel dt w w' r e Hr He Ke) as H.
    destruct (generatorActive (gameState w) r); [now split|contradiction]. }
  destruct (Hact p ep Hp Kp Rp) as [H1 Ha].
  unfold generatorActive in Ha. apply andb_true_iff in Ha. destruct Ha as [Hover Hdown].
  split; [exact H1|]. split; [exact Hdown|]. split; [exact Hover|].
  intros Hq Kq Rq. destruct (Hact q eq Hq Kq Rq) as [_ Hb].
  unfold generatorActive in Hb. apply andb_true_iff in Hb. destruct Hb as [Hover' _].
  unfold isCursorOver, floorIs in Hover, Hover'.
  apply andb_true_iff in Hover, Hover'.
  destruct Hover as [Hx Hy], Hover' as [Hx' Hy'].
  destruct (num_floor _) as [fx|]; [|discriminate].
  destruct (num_floor _) as [fy|]; [|discriminate].
  apply Z.eqb_eq in Hx, Hy, Hx', Hy'.
  destruct p as [px py], q as [qx qy]. cbn [x y] in *. congruence.
Qed.

Lemma one_generator_at_work_witness :
  currentRate (mkEntity EntityKind.Generator 1%float 0.016%float) = num_1 /\
  Cursor.leftButtonDown (cursor (gameState twoRowsWorld)) = true /\
  isCursorOver (gameState twoRowsWorld) (mkV2 1 0) = true /\
  (entityAt (gameState twoRowsWorldAfter) (mkV2 1 0)
   = Some (mkEntity EntityKind.Generator 1%float 0.016%float) ->
   kind (mkEntity EntityKind.Generator 1%float 0.016%float) = EntityKind.Generator ->
   currentRate (mkEntity EntityKind.Generator 1%float 0.016%float) <> num_0 ->
   mkV2 1 0 = mkV2 1 0).
Proof.
  apply (one_generator_at_work 10 16%float twoRowsWorld twoRowsWorldAfter (mkV2 1 0) (mkV2 1 0)
           (mkEntity EntityKind.Generator 1%float 0.016%float)
           (mkEntity EntityKind.Generator 1%float 0.016%float)).
  - exact twoRowsWorld_tick.
  - vm_compute. reflexivity.
  - reflexivity.
  - intros H. apply (f_equal (fun v => PrimFloat.ltb v 0.5%float)) in H.
    vm_compute in H. discriminate.
Defined.

(** X4.  The rates a tick leaves, in binary64: a Generator has rate 1 or
    0, a Motor 0.5 or 0, a Producer 0.4 or 0, whatever the rates before the
    tick were; so the rate of every entity of these kinds is between 0
    and 1. *)
Theorem rates_after_a_tick (fuel : nat) (dt : float) (w w' : World float) (p : v2 Z)
    (e' : Entity float) :
  gameUpdateAndRender fuel w dt = Ok w' ->
  entityAt (gameState w') p = Some e' ->
  (kind e' = EntityKind.Generator -> currentRate e' = 1%float \/ currentRate e' = 0%float) /\
  (kind e' = EntityKind.Motor -> currentRate e' = 0.5%float \/ currentRate e' = 0%float) /\
  (kind e' = EntityKind.Producer -> currentRate e' = 0.4%float \/ currentRate e' = 0%float) /\
  (isKnownKind (kind e') = true ->
   (0 <=? currentRate e')%float = true /\ (currentRate e' <=? 1)%float = true).
Proof.
  intros Hr He'.
  pose proof (float_generator_rates fuel dt w w' p e' Hr He') as Hg.
  pose proof (float_motor_rates fuel dt w w' p e' Hr He') as Hm.
  pose proof (float_producer_rates fuel dt w w' p e' Hr He') as Hp.
  split; [exact Hg|]. split; [exact Hm|]. split; [exact Hp|].
  unfold isKnownKind. rewrite !orb_true_iff, !Z.eqb_eq.
  intros [[K|K]|K];
    [destruct (Hp K) as [-> | ->]|destruct (Hm K) as [-> | ->]
    |destruct (Hg K) as [-> | ->]]; split; reflexivity.
Qed.

Lemma rates_after_a_tick_witness :
  (kind (mkEntity EntityKind.Producer 0.4%float 0.2%float) = EntityKind.Generator ->
   currentRate (mkEntity EntityKind.Producer 0.4%float 0.2%float) = 1%float \/
   currentRate (mkEntity EntityKind.Producer 0.4%float 0.2%float) = 0%float) /\
  (kind (mkEntity EntityKind.Producer 0.4%float 0.2%float) = EntityKind.Motor ->
   currentRate (mkEntity EntityKind.Producer 0.4%float 0.2%float) = 0.5%float \/
   currentRate (mkEntity EntityKind.Producer 0.4%float 0.2%float) = 0%float) /\
  (kind (mkEntity EntityKind.Producer 0.4%float 0.2%float) = EntityKind.Producer ->
   currentRate (mkEntity EntityKind.Producer 0.4%float 0.2%float) = 0.4%float \/
   currentRate (mkEntity EntityKind.Producer 0.4%float 0.2%float) = 0%float) /\
  (isKnownKind (kind (mkEntity EntityKind.Producer 0.4%float 0.2%float)) = true ->
   (0 <=? currentRate (mkEntity EntityKind.Producer 0.4%float 0.2%float))%float = true /\
   (currentRate (mkEntity EntityKind.Producer 0.4%float 0.2%float) <=? 1)%float = true).
Proof.
  apply (rates_after_a_tick 200 500%float heldWorld heldWorldAfter (mkV2 2 5)
           (mkEntity EntityKind.Producer 0.4%float 0.2%float)).
  - vm_compute. reflexivity.
  - vm_compute. reflexivity.
Defined.

(** X5.  With the left button released nothing works: the tick after a
    [mouseup] of the left button leaves every Generator, Motor and Producer
    with rate 0, in binary64, whatever their rates were. *)
Theorem released_button_stops_the_grid (fuel : nat) (dt : float) (gs : GameState float)
    (out : list string) (w' : World float) (p : v2 Z) (e' : Entity float) :
  gameUpdateAndRender fuel (mkWorld (onMouseUp gs 0) out) dt = Ok w' ->
  entityAt (gameState w') p = Some e' ->
  isKnownKind (kind e') = true ->
  currentRate e' = 0%float.
Proof.
  intros Hr.
  assert (Hg : forall r e, entityAt (gameState w') r = Some e ->
            kind e = EntityKind.Generator -> currentRate e = 0%float).
  { intros r e He Ke. rewrite (final_generator_rate fuel dt _ w' r e Hr He Ke).
    unfold generatorActive. cbn. now rewrite andb_false_r. }
  assert (Hm : forall r e, entityAt (gameState w') r = Some e ->
            kind e = EntityKind.Motor -> currentRate e = 0%float).
  { intros r e He Ke. rewrite (final_motor_rate fuel dt _ w' r e Hr He Ke).
    unfold leftRate.
    destruct (entityAt (gameState w') (mkV2 (x r - 1) (y r))) as [l|] eqn:El;
      [|reflexivity].
    destruct (Z.eqb_spec (kind l) EntityKind.Generator) as [Kl|Kl]; [|reflexivity].
    now rewrite (Hg _ l El Kl). }
  intros He' Hk. unfold isKnownKind in Hk. rewrite !orb_true_iff, !Z.eqb_eq in Hk.
  destruct Hk as [[K|K]|K]; [|now apply (Hm p)|now apply (Hg p)].
  rewrite (final_producer_rate fuel dt _ w' p e' Hr He' K).
  unfold leftRate.
  destruct (entityAt (gameState w') (mkV2 (x p - 1) (y p))) as [l|] eqn:El;
    [|reflexivity].
  destruct (Z.eqb_spec (kind l) EntityKind.Motor) as [Kl|Kl]; [|reflexivity].
  now rewrite (Hm _ l El Kl).
Qed.

Lemma released_button_stops_the_grid_witness :
  currentRate (mkEntity EntityKind.Producer 0%float 0.2%float) = 0%float.
Proof.
  apply (released_button_stops_the_grid 200 500%float (gameState heldWorldAfter) []
           releasedWorldAfter (mkV2 2 5) (mkEntity EntityKind.Producer 0%float 0.2%float)).
  - vm_compute. reflexivity.
  - vm_compute. reflexivity.
  - reflexivity.
Defined.

(** The rates before and after that tick. *)
Lemma releasedWorld_rates :
  map (rateAt (gameState heldWorldAfter)) [mkV2 0 5; mkV2 1 5; mkV2 2 5]
  = [1%float; 0.5%float; 0.4%float] /\
  map (rateAt (gameState releasedWorldAfter)) [mkV2 0 5; mkV2 1 5; mkV2 2 5]
  = [0%float; 0%float; 0%float].
Proof. split; vm_compute; reflexivity. Qed.

(** X6.  The rates a tick leaves depend on the input and on the kinds
    alone, not on the past: two ticks, of any elapsed times, from two states
    with the same dimensions, the same kind in every cell and the same
    cursor, cell size and margins give every Generator, Motor and Producer
    the same rate, whatever rates the two states came with. *)
Theorem rates_depend_on_input_only {N : Type} {num : Number N} (fuelA fuelB : nat)
    (dtA dtB : N) (wa wa' wb wb' : World N) (p : v2 Z) (ea eb : Entity N) :
  gameUpdateAndRender fuelA wa dtA = Ok wa' ->
  gameUpdateAndRender fuelB wb dtB = Ok wb' ->
  sameGrid (gameState wa) (gameState wb) ->
  sameInput (gameState wa) (gameState wb) ->
  entityAt (gameState wa') p = Some ea ->
  entityAt (gameState wb') p = Some eb ->
  isKnownKind (kind ea) = true ->
  currentRate ea = currentRate eb.
Proof.
  intros Ha Hb Hg Hi. now apply (final_rates_agree fuelA fuelB dtA dtB wa wa' wb wb').
Qed.

Lemma rates_depend_on_input_only_witness :
  currentRate (mkEntity EntityKind.Producer 0.4%float 0.2%float)
  = currentRate (mkEntity EntityKind.Producer 0.4%float 0.30000000000000004%float).
Proof.
  apply (rates_depend_on_input_only 200 200 500%float 250%float
           heldWorld heldWorldAfter heldWorldAfter heldWorldAfter2 (mkV2 2 5)).
  - vm_compute. reflexivity.
  - vm_compute. reflexivity.
  - split; vm_compute; reflexivity.
  - repeat split; vm_compute; reflexivity.
  - vm_compute. reflexivity.
  - vm_compute. reflexivity.
  - reflexivity.
Defined.

(** X10.  Dimensions that are not both positive: the update pass never
    reaches an entity.  With a width of at most 0 and a height of at most 1
    the iterator yields nothing and the tick returns the state as it is; in
    every other case (a positive width with a height of at most 0, a width
    of at most 0 with a height of at least 2) the iterator yields a handle
    without an entity and the tick stops with a [TypeError]. *)
Theorem tick_off_the_grid {N : Type} {num : Number N} (dt : N) (w : World N) :
  ~ (0 < x (worldDim (gameState w)) /\ 0 < y (worldDim (gameState w))) ->
  exists fuel0, forall fuel, (fuel0 <= fuel)%nat ->
    gameUpdateAndRender fuel w dt
    = if (x (worldDim (gameState w)) <=? 0) && (y (worldDim (gameState w)) <=? 1)
      then Ok w else TypeError.
Proof.
  intros Hd.
  exists (S (S (length (pending (worldDim (gameState w)) (iterPos beginEntityIteration))))).
  intros fuel Hfuel. unfold gameUpdateAndRender.
  rewrite updateEntities_enough_fuel by lia.
  rewrite fold_degenerate by assumption.
  rewrite (occupiedPositions_offGrid _ Hd).
  pose proof (pending_begin_nil (worldDim (gameState w))) as Hnil.
  destruct (pending (worldDim (gameState w)) (iterPos beginEntityIteration)) as [|q l].
  - destruct (proj1 Hnil eq_refl) as [Hx Hy].
    now rewrite (proj2 (Z.leb_le _ _) Hx), (proj2 (Z.leb_le _ _) Hy).
  - destruct (Z.leb_spec (x (worldDim (gameState w))) 0) as [Hx|Hx]; [|reflexivity].
    destruct (Z.leb_spec (y (worldDim (gameState w))) 1) as [Hy|Hy]; [|reflexivity].
    destruct Hnil as [_ Hnil]. discriminate Hnil. now split.
Qed.

Lemma tick_off_the_grid_witness :
  exists fuel0, forall fuel, (fuel0 <= fuel)%nat ->
    gameUpdateAndRender fuel flatWorld 16%float
    = if (x (worldDim (gameState flatWorld)) <=? 0)
         && (y (worldDim (gameState flatWorld)) <=? 1)
      then Ok flatWorld else TypeError.
Proof.
  apply (tick_off_the_grid 16%float flatWorld).
  vm_compute. intros [_ H]. discriminate H.
Defined.

(** On [flatWorld] the tick stops with a [TypeError]. *)
Lemma flatWorld_tick : gameUpdateAndRender 10 flatWorld 16%float = TypeError.
Proof. vm_compute. reflexivity. Qed.

(** X11.  The grid that the init block of [main] builds, for every width,
    height and reference cycle duration: every cell within bounds holds an
    entity with rate 0 and cycle progress 0, of kind Generator at [(0, 5)],
    Motor at [(1, 5)], Producer at [(2, 5)] and [None] everywhere else; a
    grid too small to have one of the three cells is built without it. *)
Theorem init_layout {N : Type} {num : Number N} (width height : Z) (cycleDuration : N) :
  exists gs, initEntities (configured width height cycleDuration) = Ok gs /\
    worldDim gs = mkV2 width height /\
    forall p, 0 <= x p < width /\ 0 <= y p < height ->
      entityAt gs p = Some (mkEntity (initialKindAt p) num_0 num_0).
Proof.
  unfold initEntities.
  set (gs0 := withStorage _ _).
  assert (H0 : isGrid gs0).
  { unfold isGrid, gs0. cbn. now rewrite repeat_length. }
  assert (E0 : forall p, inBounds gs0 p -> entityAt gs0 p = Some blankEntity).
  { intros p Hp. rewrite entityAt_inBounds by assumption.
    pose proof (cellIndex_bound gs0 p Hp) as Hlt. unfold inBounds in Hp.
    change (worldDim gs0) with (mkV2 width height) in Hlt, Hp. cbn [x y] in Hlt, Hp.
    unfold gs0 at 1. cbn [withStorage storage entities app].
    apply nth_error_repeat. cbn [configured worldDim x y].
    rewrite Z2Nat.inj_mul, Nat.mul_comm by lia. exact Hlt. }
  destruct (placeEntity_cells gs0 (mkV2 0 5) EntityKind.Generator H0)
    as (gs1 & P1 & H1 & C1 & E1).
  destruct (placeEntity_cells gs1 (mkV2 1 5) EntityKind.Motor H1)
    as (gs2 & P2 & H2 & C2 & E2).
  destruct (placeEntity_cells gs2 (mkV2 2 5) EntityKind.Producer H2)
    as (gs3 & P3 & H3 & C3 & E3).
  exists gs3. rewrite P1. cbn [bind]. rewrite P2. cbn [bind]. rewrite P3.
  assert (Hc : configOf gs3 = configOf gs0) by congruence.
  assert (Hd : worldDim gs3 = mkV2 width height) by (now rewrite (configOf_worldDim _ _ Hc)).
  split; [reflexivity|]. split; [exact Hd|].
  intros p Hp.
  assert (Hb : inBounds gs0 p) by exact Hp.
  rewrite (E3 p _ (E2 p _ (E1 p _ (E0 p Hb)))).
  unfold initialKindAt, blankEntity. cbn [x y].
  destruct (Z.eqb_spec (x p) 0) as [Hx0|Hx0];
    destruct (Z.eqb_spec (x p) 1) as [Hx1|Hx1];
    destruct (Z.eqb_spec (x p) 2) as [Hx2|Hx2]; try lia;
    destruct (Z.eqb_spec (y p) 5) as [Hy|Hy]; reflexivity.
Qed.

(** ** The wrap loop *)

(** X12.  The wrap loop is idempotent: on a value that a wrap loop has
    left it changes nothing and ends at its first test. *)
Theorem wrap_is_idempotent {N : Type} {num : Number N} (fuel fuel' : nat) (c c' : N) :
  wrapCycleProgress fuel c = Some c' ->
  wrapCycleProgress (S fuel') c' = Some c'.
Proof.
  intros H. apply wrapCycleProgress_below in H. cbn [wrapCycleProgress]. now rewrite H.
Qed.

Lemma wrap_is_idempotent_witness :
  wrapCycleProgress 1 0.5%float = Some 0.5%float.
Proof.
  apply (wrap_is_idempotent 5 0 2.5%float 0.5%float). vm_compute. reflexivity.
Defined.

(** ** [startWorkingConditionally] *)

(** X14.  What [startWorkingConditionally] does to the entity at [p]: the
    entity gets the rate of its left neighbour times the efficiency when
    that neighbour exists and has the kind asked for, and rate 0 when not
    (no left neighbour, another kind); its own former rate plays no part;
    every other cell, the configuration and the running total stay as they
    are.  On the handle of a position out of bounds the function does
    nothing, and where the storage has no entity for a position within
    bounds it stops with a [TypeError]. *)
Theorem startWorkingConditionally_sets_the_rate {N : Type} {num : Number N}
    (gs : GameState N) (p : v2 Z) (condition : Z) (efficiency : N) :
  (forall e, entityAt gs p = Some e ->
     exists gs',
       startWorkingConditionally gs (getEntityHandleAtPos gs p) condition efficiency
       = Ok gs' /\
       entityAt gs' p
       = Some (mkEntity (kind e) (leftRate gs p condition efficiency) (cycleProgress e)) /\
       (forall q, q <> p -> entityAt gs' q = entityAt gs q) /\
       configOf gs' = configOf gs /\
       currentNumber gs' = currentNumber gs) /\
  (~ inBounds gs p ->
   startWorkingConditionally gs (getEntityHandleAtPos gs p) condition efficiency = Ok gs) /\
  (inBounds gs p -> entityAt gs p = None ->
   startWorkingConditionally gs (getEntityHandleAtPos gs p) condition efficiency = TypeError).
Proof.
  split; [|split].
  - intros e He. pose proof (entityAt_Some_inBounds _ _ _ He) as Hb.
    rewrite entityAt_inBounds in He by assumption.
    rewrite (startWorkingConditionally_inBounds gs p e condition efficiency Hb He).
    eexists. split; [reflexivity|].
    set (gs' := setCurrentRate gs _ _).
    assert (Hc : configOf gs' = configOf gs) by reflexivity.
    split; [|split; [|split; [exact Hc|reflexivity]]].
    + rewrite entityAt_inBounds by (now apply (configOf_inBounds _ _ p Hc)).
      rewrite (configOf_cellIndex _ _ p Hc). unfold gs', setCurrentRate.
      cbn [withStorage storage entities]. now rewrite nth_error_updateAt_eq, He.
    + intros q Hq. destruct (inBounds_dec gs q) as [Hbq|Hbq].
      * rewrite !entityAt_inBounds
          by (first [assumption|now apply (configOf_inBounds _ _ q Hc)]).
        rewrite (configOf_cellIndex _ _ q Hc). unfold gs', setCurrentRate.
        cbn [withStorage storage entities]. apply nth_error_updateAt_ne.
        intros Hi. apply Hq. symmetry. now apply (cellIndex_inj gs).
      * rewrite !entityAt_outOfBounds; auto.
  - intros Hb. now rewrite handle_outOfBounds.
  - intros Hb He. rewrite entityAt_inBounds in He by assumption.
    unfold startWorkingConditionally. rewrite handle_inBounds by assumption.
    now rewrite He.
Qed.

Lemma startWorkingConditionally_sets_the_rate_witness :
  exists gs',
    startWorkingConditionally (gameState staleWorld)
      (getEntityHandleAtPos (gameState staleWorld) (mkV2 1 0)) EntityKind.Generator 0.5%float
    = Ok gs' /\
    entityAt gs' (mkV2 1 0)
    = Some (mkEntity (kind (mkEntity EntityKind.Motor 0.9%float 0%float))
              (leftRate (gameState staleWorld) (mkV2 1 0) EntityKind.Generator 0.5%float)
              (cycleProgress (mkEntity EntityKind.Motor 0.9%float 0%float))) /\
    (forall q, q <> mkV2 1 0 -> entityAt gs' q = entityAt (gameState staleWorld) q) /\
    configOf gs' = configOf (gameState staleWorld) /\
    currentNumber gs' = currentNumber (gameState staleWorld).
Proof.
  destruct (startWorkingConditionally_sets_the_rate (gameState staleWorld) (mkV2 1 0)
              EntityKind.Generator 0.5%float) as [H _].
  apply (H (mkEntity EntityKind.Motor 0.9%float 0%float)).
  vm_compute. reflexivity.
Defined.




(** The frame on [oddWorld] reports the entity of kind 7 twice, sets the
    canvas to 240 by 100 pixels, draws four vertical and two horizontal grid
    lines and the three cells with the letters X, G and M. *)
Lemma oddWorld_frame_output :
  console (fst oddWorldFrame)
  = ["unknown entity type: '7'"%string; "unknown entity type: '7'"%string] /\
  firstn 2 (snd oddWorldFrame)
  = [SetAttribute "width" 240%float; SetAttribute "height" 100%float] /\
  renderGrid 10 (gameState oddWorld)
  = Some [SetFillStyle "gray";
          FillRect 39 20 2 50; FillRect 89 20 2 50; FillRect 139 20 2 50;
          FillRect 189 20 2 50;
          FillRect 40 19 150 2; FillRect 40 69 150 2]%float /\
  filter (fun c => match c with FillText _ _ _ => true | _ => false end) (snd oddWorldFrame)
  = [FillText "X" 41 21; FillText "G" 91 21; FillText "M" 141 21]%float.
Proof. repeat split; vm_compute; reflexivity. Qed.

(** X18.  Whatever events the program is run on (mouse moves, button
    presses and releases, animation frames, in any order), as long as it
    runs, the dimensions, the kind of every cell, the configuration
    constants and the field [lastTimestamp] of the game state stay as [main]
    left them, and the entities of kind [None] keep every field: only the
    cursor, the rates and cycle progress of the other entities and the
    running total ever change. *)
Theorem run_keeps_the_layout {N : Type} {num : Number N} (sin cos : N -> N) (PI : N)
    (fuel : nat) (events : list Event) (pr pr' : Program) :
  run sin cos PI fuel events pr = Ok pr' ->
  sameLayout (gameState (world pr)) (gameState (world pr')).
Proof. apply run_sameLayout. Qed.

Lemma idleRun_runs :
  run sinAtZero cosAtZero floatPI 200 idleRun (started mainState) = Ok idleRunEnd.
Proof. vm_compute. reflexivity. Qed.

Lemma run_keeps_the_layout_witness :
  sameLayout (gameState (world (started (mainState (N := float)))))
             (gameState (world idleRunEnd)).
Proof.
  apply (run_keeps_the_layout sinAtZero cosAtZero floatPI 200 idleRun
           (started mainState) idleRunEnd).
  exact idleRun_runs.
Defined.

(** The run leaves the pointer at (50, 280) with the button up, every rate
    at 0 and the frame timestamp at 16. *)
Lemma idleRun_end :
  cursor (gameState (world idleRunEnd)) = Cursor.mk (mkV2 50%float 280%float) false /\
  map (rateAt (gameState (world idleRunEnd))) [mkV2 0 5; mkV2 1 5; mkV2 2 5]
  = [0%float; 0%float; 0%float] /\
  frameTimestamp idleRunEnd = Some 16%float.
Proof. repeat split; vm_compute; reflexivity. Qed.

